(** * The collaborative-edit bridge of [vim_pepper.c]

    A shallow embedding of the Pepper glue of collab-vim: the receive loop
    [js_msgloop], which turns JavaScript messages into [collabedit_T]
    values and queues them, and [collab_remoteapply], which turns a
    [collabedit_T] into a dictionary and posts it.

    The C code works on three stores at once: the host's table of
    reference-counted vars (strings and dictionaries behind [PP_Var]
    handles), the C heap ([malloc]'d text buffers and edit structs), and
    the channel to JavaScript.  All three are kept in one [state] and the
    code is written in a state-and-fault monad over it.  A fault is a read
    or a write through a pointer that leads nowhere, or past the end of a
    block.

    What the model leaves out: memory is unbounded, so [malloc] always
    succeeds; reference counts are not tracked; and each function runs on
    its own, without the other thread moving in between.  The Pepper
    interfaces follow the comments of [ppb_var.h] and
    [ppb_var_dictionary.h]. *)

From Stdlib Require Import ZArith Ascii String List Lia.
From stdpp Require Import base option list gmap strings.
Import ListNotations.

Local Open Scope Z_scope.

(** ** Machine integers *)

(** The value of a 32-bit two's-complement pattern ([int32_t]). *)
Definition sint32 (z : Z) : Z :=
  let u := z mod 2 ^ 32 in if u <? 2 ^ 31 then u else u - 2 ^ 32.

(** Arithmetic on [uint32_t] wraps. *)
Definition uint32 (z : Z) : Z := z mod 2 ^ 32.

(** ** Byte strings *)

Definition NUL : ascii := Ascii.zero.

Definition is_NUL (c : ascii) : bool := Ascii.eqb c NUL.

(** The bytes of a string as memory contents; [None] is a byte that was
    never written. *)
Fixpoint bytes_of (s : string) : list (option ascii) :=
  match s with
  | EmptyString => []
  | String c s' => Some c :: bytes_of s'
  end.

(** The C string that starts a buffer: the bytes before the first NUL.
    There is none when an unwritten byte or the end of the buffer comes
    first. *)
Fixpoint cstring_buf (bs : list (option ascii)) : option string :=
  match bs with
  | Some c :: bs' =>
      if is_NUL c then Some EmptyString else String c <$> cstring_buf bs'
  | _ => None
  end.

(** The first [n] bytes of a buffer, when all of them are there. *)
Fixpoint read_buf (bs : list (option ascii)) (n : nat) {struct n} : option string :=
  match n with
  | O => Some EmptyString
  | S n' =>
      match bs with
      | Some c :: bs' => String c <$> read_buf bs' n'
      | _ => None
      end
  end.

(** What [strncpy] writes: [n] bytes, those of the source up to its first
    NUL and NUL from there on. *)
Fixpoint strncpy_buf (src : list (option ascii)) (n : nat) {struct n}
  : option (list (option ascii)) :=
  match n with
  | O => Some []
  | S n' =>
      match src with
      | Some c :: src' =>
          if is_NUL c then Some (replicate (S n') (Some NUL))
          else (Some c ::.) <$> strncpy_buf src' n'
      | _ => None
      end
  end.

(** What [strncmp] returns on two buffers: the difference of the first two
    bytes that differ among the first [n], 0 when a NUL is reached in both
    or [n] bytes agree. *)
Fixpoint strncmp_buf (a b : list (option ascii)) (n : nat) {struct n} : option Z :=
  match n with
  | O => Some 0
  | S n' =>
      match a, b with
      | Some x :: a', Some y :: b' =>
          if Ascii.eqb x y then
            if is_NUL x then Some 0 else strncmp_buf a' b' n'
          else Some (Z.of_N (N_of_ascii x) - Z.of_N (N_of_ascii y))
      | _, _ => None
      end
  end.

(** Well-formed UTF-8 (RFC 3629): [need] continuation bytes are still due,
    the next of them within [lo..hi]. *)
Fixpoint utf8_from (need : nat) (lo hi : N) (s : string) : bool :=
  match s with
  | EmptyString => match need with O => true | _ => false end
  | String c s' =>
      let b := N_of_ascii c in
      match need with
      | O =>
          if (b <? 128)%N then utf8_from 0 128 191 s'
          else if (194 <=? b)%N && (b <=? 223)%N then utf8_from 1 128 191 s'
          else if (b =? 224)%N then utf8_from 2 160 191 s'
          else if (b =? 237)%N then utf8_from 2 128 159 s'
          else if (225 <=? b)%N && (b <=? 239)%N then utf8_from 2 128 191 s'
          else if (b =? 240)%N then utf8_from 3 144 191 s'
          else if (241 <=? b)%N && (b <=? 243)%N then utf8_from 3 128 191 s'
          else if (b =? 244)%N then utf8_from 3 128 143 s'
          else false
      | S k => (lo <=? b)%N && (b <=? hi)%N && utf8_from k 128 191 s'
      end
  end.

Definition is_utf8 (s : string) : bool := utf8_from 0 128 191 s.

(** ** Pointers *)

(** A C pointer is null, the address of a string literal, a block of the
    heap, or the buffer inside a string var (what [VarToUtf8] hands out). *)
Inductive ptr : Type :=
  | NULL
  | Static (s : string)
  | Block (b : Z)
  | VarBuf (id : Z).

Definition is_null (p : ptr) : bool :=
  match p with NULL => true | _ => false end.

(** ** The edit struct *)

(** Modelled from the spec: [collab_structs.h], which declares
    [collabtype_T] and [collabedit_T], is not among the sources.  The enum
    constants and the members of the union are the ones [vim_pepper.c]
    names; line, index and length are integers (spec, section 3) and text a
    [char_u] pointer. *)
Inductive collabtype_T : Type :=
  | COLLAB_APPEND_LINE
  | COLLAB_INSERT_TEXT
  | COLLAB_REMOVE_LINE
  | COLLAB_DELETE_TEXT
  | COLLAB_REPLACE_LINE.

(** The tag together with the member of the union it selects.  [T] is the
    type of a text: [ptr] in the struct, [string] once it is read out. *)
Inductive collab_fields (T : Type) : Type :=
  | append_line (line : Z) (text : T)
  | insert_text (line index : Z) (text : T)
  | remove_line (line : Z)
  | delete_text (line index length : Z)
  | replace_line (line : Z) (text : T).

Arguments append_line {T} line text.
Arguments insert_text {T} line index text.
Arguments remove_line {T} line.
Arguments delete_text {T} line index length.
Arguments replace_line {T} line text.

Definition edit_type {T} (f : collab_fields T) : collabtype_T :=
  match f with
  | append_line _ _ => COLLAB_APPEND_LINE
  | insert_text _ _ _ => COLLAB_INSERT_TEXT
  | remove_line _ => COLLAB_REMOVE_LINE
  | delete_text _ _ _ => COLLAB_DELETE_TEXT
  | replace_line _ _ => COLLAB_REPLACE_LINE
  end.

(** A [collabedit_T] in memory: [file_buf] and the tagged union, each
    indeterminate until assigned. *)
Record collabedit_T : Type := {
  file_buf : option Z;
  fields : option (collab_fields ptr)
}.

(** ** Pepper vars *)

Inductive PP_VarType : Type :=
  | PP_VARTYPE_UNDEFINED
  | PP_VARTYPE_NULL
  | PP_VARTYPE_BOOL
  | PP_VARTYPE_INT32
  | PP_VARTYPE_DOUBLE
  | PP_VARTYPE_STRING
  | PP_VARTYPE_OBJECT
  | PP_VARTYPE_ARRAY
  | PP_VARTYPE_DICTIONARY
  | PP_VARTYPE_ARRAY_BUFFER
  | PP_VARTYPE_RESOURCE.

Definition is_dictionary (t : PP_VarType) : bool :=
  match t with PP_VARTYPE_DICTIONARY => true | _ => false end.

Definition is_string (t : PP_VarType) : bool :=
  match t with PP_VARTYPE_STRING => true | _ => false end.

(** [struct PP_Var]: the type tag and the eight bytes of [union
    PP_VarValue], kept as an unsigned number.  [as_int] is its low half (the
    targets of Native Client are little-endian), [as_id] all of it. *)
Record PP_Var : Type := {
  type : PP_VarType;
  value : Z
}.

Definition as_int (v : PP_Var) : Z := sint32 (value v).
Definition as_id (v : PP_Var) : Z := value v.

Definition PP_MakeUndefined : PP_Var :=
  {| type := PP_VARTYPE_UNDEFINED; value := 0 |}.
Definition PP_MakeNull : PP_Var :=
  {| type := PP_VARTYPE_NULL; value := 0 |}.
Definition PP_MakeInt32 (n : Z) : PP_Var :=
  {| type := PP_VARTYPE_INT32; value := uint32 n |}.

(** What the host keeps behind the id of a reference-counted var. *)
Inductive VarObject : Type :=
  | StringVar (s : string)
  | DictionaryVar (entries : list (string * PP_Var))
  | OtherVar.

(** The entries of a dictionary, in the order the keys came in. *)
Fixpoint entries_get {V} (k : string) (es : list (string * V)) : option V :=
  match es with
  | [] => None
  | (k', v) :: es' => if String.eqb k k' then Some v else entries_get k es'
  end.

Fixpoint entries_set {V} (k : string) (v : V) (es : list (string * V))
  : list (string * V) :=
  match es with
  | [] => [(k, v)]
  | (k', v') :: es' =>
      if String.eqb k k' then (k, v) :: es' else (k', v') :: entries_set k v es'
  end.

(** ** Messages on the channel to JavaScript *)

(** A var as it crosses the channel: by value.  Containers inside a
    dictionary are not followed. *)
Inductive WireValue : Type :=
  | W_Undefined
  | W_Null
  | W_Bool (b : bool)
  | W_Int32 (n : Z)
  | W_Double (bits : Z)
  | W_String (s : string)
  | W_Nested (v : PP_Var).

Inductive WireMessage : Type :=
  | Plain (w : WireValue)
  | Mapping (m : list (string * WireValue)).

Record PSEvent : Type := { as_var : PP_Var }.

(** ** The queue between the two threads *)

Module EditQueue.
Section Queue.
Context {Op : Type}.

(** Modelled from the spec: the queue of [collaborate.c] is not among the
    sources.  Section 3: "an ordered sequence of EditOperation; insertion
    order = delivery order; no deduplication; unbounded capacity".
    Section 5: its state is protected so that [push] and [pop_blocking]
    never race; each is one indivisible step. *)
Definition push (op : Op) (q : list Op) : list Op := q ++ [op].

(** Modelled from the spec: [pop_blocking] of section 4.4, which
    "suspends the consumer until an item is available"; [None] is the
    suspended consumer. *)
Definition pop_blocking (q : list Op) : option (Op * list Op) :=
  match q with
  | [] => None
  | op :: q' => Some (op, q')
  end.

(** Modelled from the spec: the two threads of section 5.  The producer
    with the operations it has yet to push, the queue, and what the
    consumer has popped so far. *)
Record system : Type := {
  pending : list Op;
  queue : list Op;
  observed : list Op
}.

(** Which thread moves next. *)
Inductive thread : Type := Producer | Consumer.

(** One move: the producer pushes its next operation, if it has one; the
    consumer pops, or stays suspended on an empty queue. *)

Definition step (s : system) (t : thread) : system :=
  match t with
  | Producer =>
      match pending s with
      | [] => s
      | op :: rest =>
          {| pending := rest; queue := push op (queue s); observed := observed s |}
      end
  | Consumer =>
      match pop_blocking (queue s) with
      | None => s
      | Some (op, q') =>
          {| pending := pending s; queue := q'; observed := observed s ++ [op] |}
      end
  end.

(** An interleaving is the order in which the threads move. *)
Definition run (schedule : list thread) (s : system) : system :=
  fold_left step schedule s.

Definition start (ops : list Op) : system :=
  {| pending := ops; queue := []; observed := [] |}.
End Queue.
End EditQueue.

(** ** The state *)

Inductive cell : Type :=
  | Bytes (bs : list (option ascii))
  | EditStruct (e : collabedit_T).

Record state : Type := {
  vars : gmap Z VarObject;      (* the host's var table *)
  last_var_id : Z;
  heap : gmap Z cell;           (* the C heap *)
  last_block : Z;
  channel_open : bool;          (* can PostMessage deliver? *)
  posted : list WireMessage;    (* delivered to JavaScript, oldest first *)
  dropped : list WireMessage;   (* handed to PostMessage and lost *)
  collab_queue : list ptr;      (* the queue of edits, oldest first *)
  released : list PSEvent       (* events given back with PSEventRelease *)
}.

Definition set_vars (f : gmap Z VarObject → gmap Z VarObject) (id : Z) (σ : state) : state :=
  {| vars := f (vars σ); last_var_id := id; heap := heap σ;
     last_block := last_block σ; channel_open := channel_open σ;
     posted := posted σ; dropped := dropped σ;
     collab_queue := collab_queue σ; released := released σ |}.

Definition set_heap (f : gmap Z cell → gmap Z cell) (b : Z) (σ : state) : state :=
  {| vars := vars σ; last_var_id := last_var_id σ; heap := f (heap σ);
     last_block := b; channel_open := channel_open σ;
     posted := posted σ; dropped := dropped σ;
     collab_queue := collab_queue σ; released := released σ |}.

Definition set_channel (p d : list WireMessage) (σ : state) : state :=
  {| vars := vars σ; last_var_id := last_var_id σ; heap := heap σ;
     last_block := last_block σ; channel_open := channel_open σ;
     posted := p; dropped := d;
     collab_queue := collab_queue σ; released := released σ |}.

Definition set_collab_queue (q : list ptr) (σ : state) : state :=
  {| vars := vars σ; last_var_id := last_var_id σ; heap := heap σ;
     last_block := last_block σ; channel_open := channel_open σ;
     posted := posted σ; dropped := dropped σ;
     collab_queue := q; released := released σ |}.

Definition set_released (r : list PSEvent) (σ : state) : state :=
  {| vars := vars σ; last_var_id := last_var_id σ; heap := heap σ;
     last_block := last_block σ; channel_open := channel_open σ;
     posted := posted σ; dropped := dropped σ;
     collab_queue := collab_queue σ; released := r |}.

(** ** The monad *)

(** A computation runs from a state to a value and a state, or faults. *)
Inductive result (A : Type) : Type :=
  | Ok (a : A) (σ : state)
  | Fault (why : string).

Arguments Ok {A} a σ.
Arguments Fault {A} why.

Definition M (A : Type) : Type := state → result A.

#[export] Instance M_ret : MRet M := λ A a σ, Ok a σ.

#[export] Instance M_bind : MBind M := λ A B f m σ,
  match m σ with
  | Ok a σ' => f a σ'
  | Fault why => Fault why
  end.

#[export] Instance M_fmap : FMap M := λ A B f m σ,
  match m σ with
  | Ok a σ' => Ok (f a) σ'
  | Fault why => Fault why
  end.

Definition gets {A} (f : state → A) : M A := λ σ, Ok (f σ) σ.
Definition modify (f : state → state) : M unit := λ σ, Ok tt (f σ).

(** ** The C library *)

(** What can be read through a pointer.  A literal ends in NUL; the buffer
    of a string var holds its bytes and no terminator (ppb_var.h: "This
    string is NOT NULL-terminated"). *)
Definition buffer (σ : state) (p : ptr) : option (list (option ascii)) :=
  match p with
  | NULL => None
  | Static s => Some (bytes_of s ++ [Some NUL])
  | Block b =>
      match heap σ !! b with
      | Some (Bytes bs) => Some bs
      | _ => None
      end
  | VarBuf id =>
      match vars σ !! id with
      | Some (StringVar s) => Some (bytes_of s)
      | _ => None
      end
  end.

(** The C string at a pointer. *)
Definition cstring_at (σ : state) (p : ptr) : option string :=
  buffer σ p ≫= cstring_buf.

(** [malloc] hands out a block that was never used, its bytes unwritten.
    Running out of memory is not modelled. *)
Definition malloc (size : Z) : M ptr := λ σ,
  let b := last_block σ + 1 in
  Ok (Block b) (set_heap <[b := Bytes (replicate (Z.to_nat size) None)]> b σ).

(** [(collabedit_T * ) malloc(sizeof(collabedit_T))] *)
Definition malloc_collabedit_T : M ptr := λ σ,
  let b := last_block σ + 1 in
  Ok (Block b)
     (set_heap <[b := EditStruct {| file_buf := None; fields := None |}]> b σ).

Definition free (p : ptr) : M unit := λ σ,
  match p with
  | NULL => Ok tt σ
  | Block b =>
      match heap σ !! b with
      | Some _ => Ok tt (set_heap (delete b) (last_block σ) σ)
      | None => Fault "free: block not allocated"
      end
  | _ => Fault "free: not a heap pointer"
  end.

Definition strlen (s : ptr) : M Z := λ σ,
  match cstring_at σ s with
  | Some str => Ok (Z.of_nat (String.length str)) σ
  | None => Fault "strlen: no string"
  end.

(** Overwrite the start of a heap block. *)
Definition write_block (dst : ptr) (new : list (option ascii)) : M unit := λ σ,
  match dst with
  | Block b =>
      match heap σ !! b with
      | Some (Bytes old) =>
          if (length new <=? length old)%nat
          then Ok tt (set_heap <[b := Bytes (new ++ drop (length new) old)]>
                               (last_block σ) σ)
          else Fault "write past the end of a block"
      | _ => Fault "write to a block that holds no bytes"
      end
  | _ => Fault "write through a pointer that is not into the heap"
  end.

(** [strncpy(dst, src, n)].  With [n = 0] nothing is read or written,
    whatever the pointers. *)
Definition strncpy (dst src : ptr) (n : Z) : M unit := λ σ,
  if n =? 0 then Ok tt σ
  else match buffer σ src ≫= λ bs, strncpy_buf bs (Z.to_nat n) with
       | Some new => write_block dst new σ
       | None => Fault "strncpy: source unreadable"
       end.

(** [strncmp(s1, s2, n)]; with [n = 0] nothing is read. *)
Definition strncmp (s1 s2 : ptr) (n : Z) : M Z := λ σ,
  if n =? 0 then Ok 0 σ
  else match buffer σ s1, buffer σ s2 with
       | Some a, Some b =>
           match strncmp_buf a b (Z.to_nat n) with
           | Some c => Ok c σ
           | None => Fault "strncmp: read past the end"
           end
       | _, _ => Fault "strncmp: unreadable"
       end.

(** [p[i] = c] *)
Definition store_byte (p : ptr) (i : Z) (c : ascii) : M unit := λ σ,
  match p with
  | Block b =>
      match heap σ !! b with
      | Some (Bytes old) =>
          if (0 <=? i) && (i <? Z.of_nat (length old))
          then Ok tt (set_heap <[b := Bytes (<[Z.to_nat i := Some c]> old)]>
                               (last_block σ) σ)
          else Fault "store past the end of a block"
      | _ => Fault "store to a block that holds no bytes"
      end
  | _ => Fault "store through a pointer that is not into the heap"
  end.

(** Reading and writing the members of [*edit]. *)
Definition load_edit (σ : state) (edit : ptr) : option collabedit_T :=
  match edit with
  | Block b =>
      match heap σ !! b with
      | Some (EditStruct e) => Some e
      | _ => None
      end
  | _ => None
  end.

Definition store_edit (edit : ptr) (f : collabedit_T → collabedit_T) : M unit := λ σ,
  match edit, load_edit σ edit with
  | Block b, Some e =>
      Ok tt (set_heap <[b := EditStruct (f e)]> (last_block σ) σ)
  | _, _ => Fault "store through a pointer to no edit"
  end.

(** [edit->type] and the member of the union it selects; none when the
    tag is none of the five constants, which is how a union that was never
    assigned reads. *)
Definition load_fields (edit : ptr) : M (option (collab_fields ptr)) := λ σ,
  match load_edit σ edit with
  | Some e => Ok (fields e) σ
  | None => Fault "load through a pointer to no edit"
  end.

(** [vasprintf] for a format without conversions, the only kind
    [js_msgloop] passes: the output is the format, in a fresh block. *)
Definition vasprintf (format : string) : M (ptr * Z) := λ σ,
  let b := last_block σ + 1 in
  Ok (Block b, Z.of_nat (String.length format))
     (set_heap <[b := Bytes (bytes_of format ++ [Some NUL])]> b σ).

(** ** The Pepper interfaces *)

(** The string, or the entries, behind a handle; none when the tag or the
    id is not that of a live string, or dictionary. *)
Definition var_string (σ : state) (v : PP_Var) : option string :=
  if is_string (type v) then
    match vars σ !! as_id v with
    | Some (StringVar s) => Some s
    | _ => None
    end
  else None.

Definition var_entries (σ : state) (v : PP_Var) : option (list (string * PP_Var)) :=
  if is_dictionary (type v) then
    match vars σ !! as_id v with
    | Some (DictionaryVar es) => Some es
    | _ => None
    end
  else None.

(** [PPB_Var::VarFromUtf8]: a new string var; the null var when the bytes
    are not valid UTF-8 or the string cannot be allocated (one that would
    not fit a 32-bit address space with its terminator cannot). *)
Definition ppb_var_VarFromUtf8 (data : ptr) (len : Z) : M PP_Var := λ σ,
  match buffer σ data ≫= λ bs, read_buf bs (Z.to_nat len) with
  | Some s =>
      if (len <? 2 ^ 32 - 1) && is_utf8 s then
        let id := last_var_id σ + 1 in
        Ok {| type := PP_VARTYPE_STRING; value := id |}
           (set_vars <[id := StringVar s]> id σ)
      else Ok PP_MakeNull σ
  | None => Fault "VarFromUtf8: bytes unreadable"
  end.

(** [PPB_Var::VarToUtf8]: the buffer and length of a string var; NULL and
    0 for any other var. *)
Definition ppb_var_VarToUtf8 (v : PP_Var) : M (ptr * Z) :=
  gets (λ σ, match var_string σ v with
             | Some s => (VarBuf (as_id v), Z.of_nat (String.length s))
             | None => (NULL, 0)
             end).

(** [PPB_Var::Release].  Reference counts are not tracked: the table keeps
    every object.  Nothing below reads a var after releasing it. *)
Definition ppb_var_Release (v : PP_Var) : M unit := mret tt.

Definition ppb_dict_Create : M PP_Var := λ σ,
  let id := last_var_id σ + 1 in
  Ok {| type := PP_VARTYPE_DICTIONARY; value := id |}
     (set_vars <[id := DictionaryVar []]> id σ).

(** [PPB_VarDictionary::Get]: "If key is not a string var, or it doesn't
    exist in dict, an undefined var is returned." *)
Definition ppb_dict_Get (dict key : PP_Var) : M PP_Var :=
  gets (λ σ, match var_entries σ dict, var_string σ key with
             | Some es, Some k => default PP_MakeUndefined (entries_get k es)
             | _, _ => PP_MakeUndefined
             end).

Definition ppb_dict_HasKey (dict key : PP_Var) : M bool :=
  gets (λ σ, match var_entries σ dict, var_string σ key with
             | Some es, Some k => bool_decide (is_Some (entries_get k es))
             | _, _ => false
             end).

(** [PPB_VarDictionary::Set]: replaces the value of a key that is there,
    adds the key otherwise; fails when [key] is not a string var. *)
Definition ppb_dict_Set (dict key v : PP_Var) : M bool := λ σ,
  match var_entries σ dict, var_string σ key with
  | Some es, Some k =>
      Ok true (set_vars <[as_id dict := DictionaryVar (entries_set k v es)]>
                        (last_var_id σ) σ)
  | _, _ => Ok false σ
  end.

(** A var by value, as [PostMessage] copies it out. *)
Definition snapshot_value (σ : state) (v : PP_Var) : WireValue :=
  match type v with
  | PP_VARTYPE_UNDEFINED => W_Undefined
  | PP_VARTYPE_NULL => W_Null
  | PP_VARTYPE_BOOL => W_Bool (negb (value v =? 0))
  | PP_VARTYPE_INT32 => W_Int32 (as_int v)
  | PP_VARTYPE_DOUBLE => W_Double (value v)
  | PP_VARTYPE_STRING =>
      match var_string σ v with
      | Some s => W_String s
      | None => W_Undefined
      end
  | _ => W_Nested v
  end.

Definition snapshot (σ : state) (v : PP_Var) : WireMessage :=
  match var_entries σ v with
  | Some es => Mapping (prod_map id (snapshot_value σ) <$> es)
  | None => Plain (snapshot_value σ v)
  end.

(** [PPB_Messaging::PostMessage] returns nothing.  A message the channel
    cannot take is lost. *)
Definition ppb_msg_PostMessage (instance : Z) (message : PP_Var) : M unit :=
  modify (λ σ,
    let m := snapshot σ message in
    if channel_open σ
    then set_channel (posted σ ++ [m]) (dropped σ) σ
    else set_channel (posted σ) (dropped σ ++ [m]) σ).

Definition PSEventRelease (event : PSEvent) : M unit :=
  modify (λ σ, set_released (released σ ++ [event]) σ).

(** Modelled from the spec: [collab_enqueue] and [collab_queue] are defined
    in [collaborate.c], which is not among the sources.  Section 6: it is
    "conceptually the EditQueue's push", which never blocks and always
    succeeds. *)
Definition collab_enqueue (edit : ptr) : M unit :=
  modify (λ σ, set_collab_queue (EditQueue.push edit (collab_queue σ)) σ).

(** ** [vim_pepper.c] *)

(** The file's static variables and the globals of Vim it reads.  They are
    set once, before the message loop starts, and only read afterwards. *)
Record globals : Type := {
  pp_ins : Z;
  curbuf : Z;
  type_append_line : PP_Var;
  type_insert_text : PP_Var;
  type_remove_line : PP_Var;
  type_delete_text : PP_Var;
  type_replace_line : PP_Var;
  type_key : PP_Var;
  line_key : PP_Var;
  text_key : PP_Var;
  index_key : PP_Var;
  length_key : PP_Var
}.

(** [#define UTF8_TO_VAR(str) ppb_var->VarFromUtf8(str, strlen(str))] *)
Definition UTF8_TO_VAR (str : ptr) : M PP_Var :=
  len ← strlen str;
  ppb_var_VarFromUtf8 str len.

(** Lines 90-98. *)
Definition var_to_cstr (str_var : PP_Var) : M ptr :=
  '(vstr, var_len) ← ppb_var_VarToUtf8 str_var;
  cstr ← malloc (uint32 (var_len + 1));
  strncpy cstr vstr var_len;;
  store_byte cstr var_len NUL;;
  mret cstr.

(** Lines 104-114.  The lengths are [uint32_t]; their difference lands in
    an [int]. *)
Definition pp_strcmp (v1 v2 : PP_Var) : M Z :=
  '(v1str, v1len) ← ppb_var_VarToUtf8 v1;
  '(v2str, v2len) ← ppb_var_VarToUtf8 v2;
  let n := if v1len <? v2len then v1len else v2len in
  cmp ← strncmp v1str v2str n;
  mret (if cmp =? 0 then sint32 (v1len - v2len) else cmp).

(** Lines 268-284, for a format without conversions. *)
Definition js_printf (g : globals) (format : string) : M Z :=
  '(str, printed) ← vasprintf format;
  (if 0 <=? printed then
     len ← strlen str;
     msg ← ppb_var_VarFromUtf8 str len;
     ppb_msg_PostMessage (pp_ins g) msg;;
     ppb_var_Release msg
   else mret tt);;
  mret printed.

(** Lines 141-174: the chain of comparisons on the discriminator.  The
    result is [edit], or NULL once the struct has been freed. *)
Definition parse_collabedit (g : globals) (dict : PP_Var) (edit : ptr) : M ptr :=
  var_type ← ppb_dict_Get dict (type_key g);
  c ← pp_strcmp var_type (type_append_line g);
  if c =? 0 then
    line ← as_int <$> ppb_dict_Get dict (line_key g);
    text ← ppb_dict_Get dict (text_key g) ≫= var_to_cstr;
    store_edit edit (λ e, {| file_buf := file_buf e;
                             fields := Some (append_line line text) |});;
    mret edit
  else
  c ← pp_strcmp var_type (type_insert_text g);
  if c =? 0 then
    line ← as_int <$> ppb_dict_Get dict (line_key g);
    index ← as_int <$> ppb_dict_Get dict (index_key g);
    text ← ppb_dict_Get dict (text_key g) ≫= var_to_cstr;
    store_edit edit (λ e, {| file_buf := file_buf e;
                             fields := Some (insert_text line index text) |});;
    mret edit
  else
  c ← pp_strcmp var_type (type_remove_line g);
  if c =? 0 then
    line ← as_int <$> ppb_dict_Get dict (line_key g);
    store_edit edit (λ e, {| file_buf := file_buf e;
                             fields := Some (remove_line line) |});;
    mret edit
  else
  c ← pp_strcmp var_type (type_delete_text g);
  if c =? 0 then
    line ← as_int <$> ppb_dict_Get dict (line_key g);
    index ← as_int <$> ppb_dict_Get dict (index_key g);
    length ← as_int <$> ppb_dict_Get dict (length_key g);
    store_edit edit (λ e, {| file_buf := file_buf e;
                             fields := Some (delete_text line index length) |});;
    mret edit
  else
  c ← pp_strcmp var_type (type_replace_line g);
  if c =? 0 then
    line ← as_int <$> ppb_dict_Get dict (line_key g);
    text ← ppb_dict_Get dict (text_key g) ≫= var_to_cstr;
    store_edit edit (λ e, {| file_buf := file_buf e;
                             fields := Some (replace_line line text) |});;
    mret edit
  else
    js_printf g "info: msgloop unknown collabedit type";;
    free edit;;
    mret NULL.

(** Lines 126-179: one turn of the [while (1)] of [js_msgloop], from the
    event [PSEventWaitAcquire] returned to the end of the body.  The first
    branch is the [continue]. *)
Definition js_msgloop_body (g : globals) (event : PSEvent) : M unit :=
  let dict := as_var event in
  skip ← (if negb (is_dictionary (type dict)) then mret true
          else negb <$> ppb_dict_HasKey dict (type_key g));
  if skip : bool then
    js_printf g "info: msgloop skipping non collabedit dict";;
    mret tt
  else
    edit ← malloc_collabedit_T;
    store_edit edit (λ e, {| file_buf := Some (curbuf g); fields := fields e |});;
    edit ← parse_collabedit g dict edit;
    (if is_null edit then mret tt else collab_enqueue edit);;
    PSEventRelease event.

(** Where the thread of [js_msgloop] is once the events that have arrived
    are used up.  The loop has no [break] and no [return] that can be
    reached: it is left waiting in [PSEventWaitAcquire], or it has
    faulted. *)
Inductive loop_status : Type :=
  | Waiting (σ : state)
  | Crashed (why : string).

(** Lines 121-183, run on the events that arrive, in order. *)
Fixpoint js_msgloop (g : globals) (events : list PSEvent) (σ : state) : loop_status :=
  match events with
  | [] => Waiting σ
  | event :: events' =>
      match js_msgloop_body g event σ with
      | Ok _ σ' => js_msgloop g events' σ'
      | Fault why => Crashed why
      end
  end.

(** Lines 192-228.  The [switch] has no [default]: with a tag that is none
    of the five constants no key is set and the empty dictionary is
    posted. *)
Definition collab_remoteapply (g : globals) (edit : ptr) : M unit :=
  dict ← ppb_dict_Create;
  f ← load_fields edit;
  match f with
  | Some (append_line line text) =>
      ppb_dict_Set dict (type_key g) (type_append_line g);;
      ppb_dict_Set dict (line_key g) (PP_MakeInt32 line);;
      v ← UTF8_TO_VAR text;
      ppb_dict_Set dict (text_key g) v;;
      mret tt
  | Some (insert_text line index text) =>
      ppb_dict_Set dict (type_key g) (type_insert_text g);;
      ppb_dict_Set dict (line_key g) (PP_MakeInt32 line);;
      ppb_dict_Set dict (index_key g) (PP_MakeInt32 index);;
      v ← UTF8_TO_VAR text;
      ppb_dict_Set dict (text_key g) v;;
      mret tt
  | Some (remove_line line) =>
      ppb_dict_Set dict (type_key g) (type_remove_line g);;
      ppb_dict_Set dict (line_key g) (PP_MakeInt32 line);;
      mret tt
  | Some (delete_text line index length) =>
      ppb_dict_Set dict (type_key g) (type_delete_text g);;
      ppb_dict_Set dict (line_key g) (PP_MakeInt32 line);;
      ppb_dict_Set dict (index_key g) (PP_MakeInt32 index);;
      ppb_dict_Set dict (length_key g) (PP_MakeInt32 length);;
      mret tt
  | Some (replace_line line text) =>
      ppb_dict_Set dict (type_key g) (type_replace_line g);;
      ppb_dict_Set dict (line_key g) (PP_MakeInt32 line);;
      v ← UTF8_TO_VAR text;
      ppb_dict_Set dict (text_key g) v;;
      mret tt
  | None => mret tt
  end;;
  ppb_msg_PostMessage (pp_ins g) dict;;
  ppb_var_Release dict.

(** Lines 247-257 of [nacl_main]: the ten string vars. *)
Definition nacl_main_vars (ins buf : Z) : M globals :=
  v_append_line ← UTF8_TO_VAR (Static "append_line");
  v_insert_text ← UTF8_TO_VAR (Static "insert_text");
  v_remove_line ← UTF8_TO_VAR (Static "remove_line");
  v_delete_text ← UTF8_TO_VAR (Static "delete_text");
  v_replace_line ← UTF8_TO_VAR (Static "replace_line");
  v_type ← UTF8_TO_VAR (Static "collabedit_type");
  v_line ← UTF8_TO_VAR (Static "line");
  v_text ← UTF8_TO_VAR (Static "text");
  v_index ← UTF8_TO_VAR (Static "index");
  v_length ← UTF8_TO_VAR (Static "length");
  mret {| pp_ins := ins; curbuf := buf;
          type_append_line := v_append_line;
          type_insert_text := v_insert_text;
          type_remove_line := v_remove_line;
          type_delete_text := v_delete_text;
          type_replace_line := v_replace_line;
          type_key := v_type; line_key := v_line; text_key := v_text;
          index_key := v_index; length_key := v_length |}.

(** ** The other end of the channel *)

(** How the host turns a message from JavaScript into the var of an event,
    with the same interfaces: a string becomes a string var, a mapping a
    dictionary var. *)
Definition deliver_value (w : WireValue) : M PP_Var :=
  match w with
  | W_Undefined => mret PP_MakeUndefined
  | W_Null => mret PP_MakeNull
  | W_Bool b => mret {| type := PP_VARTYPE_BOOL; value := if b then 1 else 0 |}
  | W_Int32 n => mret (PP_MakeInt32 n)
  | W_Double bits => mret {| type := PP_VARTYPE_DOUBLE; value := bits |}
  | W_String s => ppb_var_VarFromUtf8 (Static s) (Z.of_nat (String.length s))
  | W_Nested v => mret v
  end.

Fixpoint deliver_entries (dict : PP_Var) (m : list (string * WireValue)) : M unit :=
  match m with
  | [] => mret tt
  | (k, w) :: m' =>
      key ← ppb_var_VarFromUtf8 (Static k) (Z.of_nat (String.length k));
      v ← deliver_value w;
      ppb_dict_Set dict key v;;
      deliver_entries dict m'
  end.

Definition deliver (m : WireMessage) : M PSEvent :=
  match m with
  | Plain w => v ← deliver_value w; mret {| as_var := v |}
  | Mapping m =>
      dict ← ppb_dict_Create;
      deliver_entries dict m;;
      mret {| as_var := dict |}
  end.

(** The state the process starts from, and the one the message loop starts
    in: after [nacl_main] has made its vars. *)
Definition initial_state : state :=
  {| vars := ∅; last_var_id := 0; heap := ∅; last_block := 0;
     channel_open := true; posted := []; dropped := [];
     collab_queue := []; released := [] |}.

Definition close_channel (σ : state) : state :=
  {| vars := vars σ; last_var_id := last_var_id σ; heap := heap σ;
     last_block := last_block σ; channel_open := false;
     posted := posted σ; dropped := dropped σ;
     collab_queue := collab_queue σ; released := released σ |}.

(** ** Edits as values *)

Definition edit_line {T} (f : collab_fields T) : Z :=
  match f with
  | append_line l _ | insert_text l _ _ | remove_line l
  | delete_text l _ _ | replace_line l _ => l
  end.

Definition edit_index {T} (f : collab_fields T) : option Z :=
  match f with
  | insert_text _ i _ | delete_text _ i _ => Some i
  | _ => None
  end.

Definition edit_length {T} (f : collab_fields T) : option Z :=
  match f with
  | delete_text _ _ n => Some n
  | _ => None
  end.

Definition edit_text {T} (f : collab_fields T) : option T :=
  match f with
  | append_line _ t | insert_text _ _ t | replace_line _ t => Some t
  | _ => None
  end.

(** The same edit with every text sent through [h]; none if [h] fails. *)
Definition with_text {T U} (h : T → option U) (f : collab_fields T)
  : option (collab_fields U) :=
  match f with
  | append_line l t => append_line l <$> h t
  | insert_text l i t => insert_text l i <$> h t
  | remove_line l => Some (remove_line l)
  | delete_text l i n => Some (delete_text l i n)
  | replace_line l t => replace_line l <$> h t
  end.

(** The edit a pointer leads to, its text read out of memory: the
    EditOperation of the spec.  There is none when the struct, its union or
    the string is not there. *)
Definition edit_at (σ : state) (edit : ptr) : option (collab_fields string) :=
  e ← load_edit σ edit; f ← fields e; with_text (cstring_at σ) f.

Definition file_buf_at (σ : state) (edit : ptr) : option Z :=
  load_edit σ edit ≫= file_buf.

(** The bytes of a string before its first NUL. *)
Fixpoint until_NUL (s : string) : string :=
  match s with
  | EmptyString => EmptyString
  | String c s' => if is_NUL c then EmptyString else String c (until_NUL s')
  end.

(** ** What a turn of the loop reads from a dictionary *)

Definition field (es : list (string * PP_Var)) (key : string) : PP_Var :=
  default PP_MakeUndefined (entries_get key es).

(** The text [var_to_cstr] makes of a var. *)
Definition text_of (σ : state) (v : PP_Var) : string :=
  match var_string σ v with
  | Some s => until_NUL s
  | None => EmptyString
  end.

(** The edit [parse_collabedit] builds from the entries of a dictionary,
    as a value; none for a discriminator it does not know. *)
Definition decode_entries (σ : state) (es : list (string * PP_Var))
  : option (collab_fields string) :=
  match var_string σ (field es "collabedit_type") with
  | Some t =>
      if String.eqb t "append_line" then
        Some (append_line (as_int (field es "line")) (text_of σ (field es "text")))
      else if String.eqb t "insert_text" then
        Some (insert_text (as_int (field es "line")) (as_int (field es "index"))
                          (text_of σ (field es "text")))
      else if String.eqb t "remove_line" then
        Some (remove_line (as_int (field es "line")))
      else if String.eqb t "delete_text" then
        Some (delete_text (as_int (field es "line")) (as_int (field es "index"))
                          (as_int (field es "length")))
      else if String.eqb t "replace_line" then
        Some (replace_line (as_int (field es "line")) (text_of σ (field es "text")))
      else None
  | None => None
  end.

(** The edit a turn of the loop queues for an event, none when it queues
    nothing. *)
Definition decode_event (σ : state) (event : PSEvent)
  : option (collab_fields string) :=
  var_entries σ (as_var event) ≫= decode_entries σ.

(** ** The wire schema of the spec *)

(** The five discriminator strings of section 3. *)
Definition spec_discriminator (t : collabtype_T) : string :=
  match t with
  | COLLAB_APPEND_LINE => "append_line"
  | COLLAB_INSERT_TEXT => "insert_text"
  | COLLAB_REMOVE_LINE => "remove_line"
  | COLLAB_DELETE_TEXT => "delete_text"
  | COLLAB_REPLACE_LINE => "replace_line"
  end.

(** The key table of section 4.2. *)
Definition spec_keys (t : collabtype_T) : list string :=
  match t with
  | COLLAB_APPEND_LINE => ["collabedit_type"; "line"; "text"]
  | COLLAB_INSERT_TEXT => ["collabedit_type"; "line"; "index"; "text"]
  | COLLAB_REMOVE_LINE => ["collabedit_type"; "line"]
  | COLLAB_DELETE_TEXT => ["collabedit_type"; "line"; "index"; "length"]
  | COLLAB_REPLACE_LINE => ["collabedit_type"; "line"; "text"]
  end.

(** The message of an edit under that table, as in the cases of section 8:
    [AppendLine{line=4, text="hello"}] is
    [{collabedit_type:"append_line", line:4, text:"hello"}]. *)
Definition spec_wire (f : collab_fields WireValue) : list (string * WireValue) :=
  ("collabedit_type", W_String (spec_discriminator (edit_type f))) ::
  match f with
  | append_line l t => [("line", W_Int32 l); ("text", t)]
  | insert_text l i t => [("line", W_Int32 l); ("index", W_Int32 i); ("text", t)]
  | remove_line l => [("line", W_Int32 l)]
  | delete_text l i n => [("line", W_Int32 l); ("index", W_Int32 i); ("length", W_Int32 n)]
  | replace_line l t => [("line", W_Int32 l); ("text", t)]
  end.

Definition spec_message (v : collab_fields string) : WireMessage :=
  Mapping (spec_wire (default (remove_line 0) (with_text (Some ∘ W_String) v))).

(** The fields of an edit as [collab_remoteapply] puts them on the wire:
    an integer through [PP_MakeInt32], a text through [VarFromUtf8]. *)
Definition wire_text (s : string) : WireValue :=
  if (Z.of_nat (String.length s) <? 2 ^ 32 - 1) && is_utf8 s
  then W_String s else W_Null.

Definition on_wire (v : collab_fields string) : collab_fields WireValue :=
  match v with
  | append_line l t => append_line (sint32 l) (wire_text t)
  | insert_text l i t => insert_text (sint32 l) (sint32 i) (wire_text t)
  | remove_line l => remove_line (sint32 l)
  | delete_text l i n => delete_text (sint32 l) (sint32 i) (sint32 n)
  | replace_line l t => replace_line (sint32 l) (wire_text t)
  end.

(** A text the host can hold in a string var: UTF-8 that fits the address
    space with its terminator. *)
Definition text_ok (s : string) : Prop :=
  is_utf8 s = true ∧ Z.of_nat (String.length s) < 2 ^ 32 - 1.

(** A value of a WireMessage (section 3): a string or a 32-bit integer. *)
Definition wire_value_ok (w : WireValue) : Prop :=
  match w with
  | W_Int32 n => - 2 ^ 31 ≤ n < 2 ^ 31
  | W_String s => text_ok s
  | _ => False
  end.

Definition wire_entry_ok (kw : string * WireValue) : Prop :=
  wire_value_ok (W_String kw.1) ∧ wire_value_ok kw.2.

(** The mapping a sequence of assignments leaves: a later value for a key
    takes the place of an earlier one. *)
Definition assigned {V} (es : list (string * V)) (m : list (string * V))
  : list (string * V) :=
  foldl (λ acc kw, entries_set kw.1 kw.2 acc) es m.

(** A handle whose value on the wire no later allocation can change: an
    integer, or a string var that is there. *)
Definition settled (σ : state) (x : PP_Var) : Prop :=
  type x = PP_VARTYPE_INT32 ∨ is_Some (var_string σ x).

(** An EditOperation that can be constructed (section 3): line, index and
    length are non-negative and fit the 32-bit field of the wire, and the
    text is UTF-8 that fits the address space. *)
Definition in_range (n : Z) : Prop := 0 ≤ n < 2 ^ 31.

Definition constructible (v : collab_fields string) : Prop :=
  in_range (edit_line v) ∧
  (∀ i, edit_index v = Some i → in_range i) ∧
  (∀ n, edit_length v = Some n → in_range n) ∧
  (∀ s, edit_text v = Some s → text_ok s).

(** ** Invariants of the state *)

(** The var table: ids above the last one given out are free, a string
    fits the address space with its terminator, and the ten static vars of
    the file are the strings [nacl_main] made. *)
Record wf_vars (g : globals) (σ : state) : Prop := {
  wf_var_ids : ∀ id, last_var_id σ < id → vars σ !! id = None;
  wf_strings : ∀ id s, vars σ !! id = Some (StringVar s) →
                       Z.of_nat (String.length s) < 2 ^ 32 - 1;
  wf_append_line : var_string σ (type_append_line g) = Some "append_line"%string;
  wf_insert_text : var_string σ (type_insert_text g) = Some "insert_text"%string;
  wf_remove_line : var_string σ (type_remove_line g) = Some "remove_line"%string;
  wf_delete_text : var_string σ (type_delete_text g) = Some "delete_text"%string;
  wf_replace_line : var_string σ (type_replace_line g) = Some "replace_line"%string;
  wf_type_key : var_string σ (type_key g) = Some "collabedit_type"%string;
  wf_line_key : var_string σ (line_key g) = Some "line"%string;
  wf_text_key : var_string σ (text_key g) = Some "text"%string;
  wf_index_key : var_string σ (index_key g) = Some "index"%string;
  wf_length_key : var_string σ (length_key g) = Some "length"%string
}.

(** The heap: blocks above the last one given out are free. *)
Definition wf_heap (σ : state) : Prop :=
  ∀ b, last_block σ < b → heap σ !! b = None.

Definition wf (g : globals) (σ : state) : Prop := wf_vars g σ ∧ wf_heap σ.

(** What a successful parse leaves behind: the struct in block [b] holds
    fields [f] that read as the value [v], its texts are in blocks that
    were free in [σ], and the var table is as before. *)
Definition parsed (σ σ' : state) (b : Z) (fb : option Z) (v : collab_fields string)
  : Prop :=
  vars σ' = vars σ ∧ last_var_id σ' = last_var_id σ ∧
  ∃ f, load_edit σ' (Block b) = Some {| file_buf := fb; fields := Some f |}
       ∧ with_text (cstring_at σ') f = Some v
       ∧ ∀ t, edit_text f = Some t → ∃ b', t = Block b' ∧ last_block σ < b'.

(** Where [collab_remoteapply] stands while it fills its dictionary: the
    dictionary holds [es], the strings that were in the table at the start
    are still there, and nothing but the var table has changed. *)
Definition encoding (g : globals) (σ0 σ : state) (dict : PP_Var)
    (es : list (string * PP_Var)) : Prop :=
  wf_vars g σ ∧ var_entries σ dict = Some es
  ∧ heap σ = heap σ0 ∧ last_block σ = last_block σ0
  ∧ collab_queue σ = collab_queue σ0 ∧ released σ = released σ0
  ∧ channel_open σ = channel_open σ0
  ∧ posted σ = posted σ0 ∧ dropped σ = dropped σ0
  ∧ ∀ id s, vars σ0 !! id = Some (StringVar s) → vars σ !! id = Some (StringVar s).

(** [PostMessage] was called once, with [m], between [σ] and [σ']. *)
Definition handed (σ σ' : state) (m : WireMessage) : Prop :=
  if channel_open σ
  then posted σ' = posted σ ++ [m] ∧ dropped σ' = dropped σ
  else posted σ' = posted σ ∧ dropped σ' = dropped σ ++ [m].

(** ** Checking the invariant, and states to run the code from *)

Definition string_fits (o : VarObject) : bool :=
  match o with
  | StringVar s => Z.of_nat (String.length s) <? 2 ^ 32 - 1
  | _ => true
  end.

(** The invariant [wf] as a test that can be run on a given state. *)
Definition wf_check (g : globals) (σ : state) : bool :=
  bool_decide (map_Forall (λ id o, id ≤ last_var_id σ ∧ string_fits o = true) (vars σ))
  && bool_decide (map_Forall (λ b _, b ≤ last_block σ) (heap σ))
  && bool_decide (var_string σ (type_append_line g) = Some "append_line"%string)
  && bool_decide (var_string σ (type_insert_text g) = Some "insert_text"%string)
  && bool_decide (var_string σ (type_remove_line g) = Some "remove_line"%string)
  && bool_decide (var_string σ (type_delete_text g) = Some "delete_text"%string)
  && bool_decide (var_string σ (type_replace_line g) = Some "replace_line"%string)
  && bool_decide (var_string σ (type_key g) = Some "collabedit_type"%string)
  && bool_decide (var_string σ (line_key g) = Some "line"%string)
  && bool_decide (var_string σ (text_key g) = Some "text"%string)
  && bool_decide (var_string σ (index_key g) = Some "index"%string)
  && bool_decide (var_string σ (length_key g) = Some "length"%string).

Definition string_var (id : Z) : PP_Var :=
  {| type := PP_VARTYPE_STRING; value := id |}.

(** The statics and the state once [nacl_main] has made its vars, for
    instance 7 and buffer 1 (see [nacl_main_vars_started]). *)
Definition started_globals : globals :=
  {| pp_ins := 7; curbuf := 1;
     type_append_line := string_var 1; type_insert_text := string_var 2;
     type_remove_line := string_var 3; type_delete_text := string_var 4;
     type_replace_line := string_var 5; type_key := string_var 6;
     line_key := string_var 7; text_key := string_var 8;
     index_key := string_var 9; length_key := string_var 10 |}.

Definition started : state :=
  set_vars (λ _, list_to_map
     [(1, StringVar "append_line"); (2, StringVar "insert_text");
      (3, StringVar "remove_line"); (4, StringVar "delete_text");
      (5, StringVar "replace_line"); (6, StringVar "collabedit_type");
      (7, StringVar "line"); (8, StringVar "text");
      (9, StringVar "index"); (10, StringVar "length")]) 10 initial_state.

(** The event for a message from JavaScript and the state once the host
    has built its var. *)
Definition receive (m : WireMessage) (σ : state) : PSEvent * state :=
  match deliver m σ with
  | Ok event σ' => (event, σ')
  | Fault _ => ({| as_var := PP_MakeUndefined |}, σ)
  end.

(** A state of the editor with one edit in memory: block 1 holds [text],
    block 2 the struct [f] makes of a pointer to it. *)
Definition holding (text : string) (f : ptr → collab_fields ptr) (σ : state) : state :=
  set_heap (λ _, {[ 1 := Bytes (bytes_of text ++ [Some NUL]);
                    2 := EditStruct {| file_buf := Some (curbuf started_globals);
                                       fields := Some (f (Block 1)) |} ]}) 2 σ.

(** ** Messages that are not decoded (section 4.2) *)

(** Not a mapping, or a mapping without the discriminator. *)
Definition NotAnEdit (m : WireMessage) : Prop :=
  match m with
  | Plain _ => True
  | Mapping es => entries_get "collabedit_type" es = None
  end.

(** The discriminator is there and is none of the five strings. *)
Definition UnknownKind (m : WireMessage) : Prop :=
  match m with
  | Plain _ => False
  | Mapping es =>
      ∃ w, entries_get "collabedit_type" es = Some w
           ∧ ∀ t, w ≠ W_String (spec_discriminator t)
  end.

(** ** Worked cases *)

(** The first case of section 8, in the memory of the sender and as the
    event of the receiver. *)
Definition hello : collab_fields string := append_line 4 "hello".

Definition hello_sender : state := holding "hello" (append_line 4) started.

Definition hello_received : PSEvent * state := receive (spec_message hello) started.

(** A line number below zero. *)
Definition negative_line : WireMessage :=
  Mapping [("collabedit_type"%string, W_String "remove_line");
           ("line"%string, W_Int32 (-3))].

(** A negative line and a text with a NUL byte in it: "ab", NUL, "cd". *)
Definition nul_text : WireMessage :=
  Mapping [("collabedit_type"%string, W_String "append_line");
           ("line"%string, W_Int32 (-1));
           ("text"%string, W_String (String "a" (String "b" (String NUL "cd"))))].

(** Case 4 of section 8: "insert_text" without "index". *)
Definition no_index : WireMessage :=
  Mapping [("collabedit_type"%string, W_String "insert_text");
           ("line"%string, W_Int32 2); ("text"%string, W_String "x")].

(** Case 3 of section 8. *)
Definition frobnicate : WireMessage :=
  Mapping [("collabedit_type"%string, W_String "frobnicate");
           ("line"%string, W_Int32 2)].

(** A run of events none of which is an edit: a plain string, an unknown
    kind, a dictionary handle with nothing behind it, a number. *)
Definition odd_state : state :=
  (receive frobnicate (receive (Plain (W_String "hi")) started).2).2.

Definition odd_events : list PSEvent :=
  [ (receive (Plain (W_String "hi")) started).1;
    (receive frobnicate (receive (Plain (W_String "hi")) started).2).1;
    {| as_var := {| type := PP_VARTYPE_DICTIONARY; value := 99 |} |};
    {| as_var := PP_MakeInt32 5 |} ].

(** Three edits and an interleaving in which the consumer twice finds the
    queue empty. *)
Definition three_edits : list (collab_fields string) :=
  [remove_line 1; append_line 2 "a"; remove_line 3].

Definition mixed_schedule : list EditQueue.thread :=
  [EditQueue.Consumer; EditQueue.Producer; EditQueue.Consumer;
   EditQueue.Consumer; EditQueue.Producer; EditQueue.Producer;
   EditQueue.Consumer; EditQueue.Consumer].

(** A text that is not UTF-8: the single byte 0xE9, "e" with an acute
    accent in Latin-1. *)
Definition latin1_text : string := String "233"%char EmptyString.

(** ** Views used by the further properties *)

(** The bytes [VarToUtf8] gives for a var: those of a string var, none for
    any other var (NULL and length 0). *)
Definition var_bytes (σ : state) (v : PP_Var) : string :=
  default EmptyString (var_string σ v).

(** A format without conversions: no ["%"]. *)
Fixpoint plain_format (format : string) : bool :=
  match format with
  | EmptyString => true
  | String c format' => negb (Ascii.eqb c "%") && plain_format format'
  end.

(** A text after the channel: [VarFromUtf8] makes a string var of it, or
    the null var, which [var_to_cstr] reads as the empty string. *)
Definition through_text (s : string) : string :=
  if (Z.of_nat (String.length s) <? 2 ^ 32 - 1) && is_utf8 s
  then s else EmptyString.

(** An edit after the channel: what [collab_remoteapply] at one end and a
    turn of [js_msgloop] at the other make of it.  An integer is cut to the
    32 bits of [PP_MakeInt32]. *)
Definition through_wire (v : collab_fields string) : collab_fields string :=
  match v with
  | append_line l t => append_line (sint32 l) (through_text t)
  | insert_text l i t => insert_text (sint32 l) (sint32 i) (through_text t)
  | remove_line l => remove_line (sint32 l)
  | delete_text l i n => delete_text (sint32 l) (sint32 i) (sint32 n)
  | replace_line l t => replace_line (sint32 l) (through_text t)
  end.

(** [collab_remoteapply] called for one edit after the other, as the
    editor does for the edits of its user. *)
Fixpoint collab_remoteapply_each (g : globals) (edits : list ptr) : M unit :=
  match edits with
  | [] => mret tt
  | edit :: edits' => collab_remoteapply g edit;; collab_remoteapply_each g edits'
  end.

(** A computation that leaves the channel open if it was, closed if it
    was. *)
Definition keeps_channel {A} (m : M A) : Prop :=
  ∀ σ a σ', m σ = Ok a σ' → channel_open σ' = channel_open σ.

(** A line number that is no 32-bit integer in JavaScript: the host hands
    it over as a double var.  The bits are those of 2.0. *)
Definition double_line : WireMessage :=
  Mapping [("collabedit_type"%string, W_String "remove_line");
           ("line"%string, W_Double 4611686018427387904)].

(** The var table before the statics exist: ids above the last one given
    out are free, and a string fits the address space with its
    terminator. *)
Definition wf_table (σ : state) : Prop :=
  (∀ id, last_var_id σ < id → vars σ !! id = None)
  ∧ (∀ id s, vars σ !! id = Some (StringVar s) →
             Z.of_nat (String.length s) < 2 ^ 32 - 1).

(** Between [σ] and [σ'] vars were added and nothing else happened. *)
Definition vars_added (σ σ' : state) : Prop :=
  (∀ id o, vars σ !! id = Some o → vars σ' !! id = Some o)
  ∧ heap σ' = heap σ ∧ last_block σ' = last_block σ
  ∧ collab_queue σ' = collab_queue σ
  ∧ posted σ' = posted σ ∧ dropped σ' = dropped σ.

(** The edit at [p] keeps its text in a block of the heap, as the edits the
    loop queues do, not in the buffer of a var. *)
Definition text_in_heap (σ : state) (p : ptr) : Prop :=
  ∀ e f t, load_edit σ p = Some e → fields e = Some f →
           edit_text f = Some t → ∃ b, t = Block b.

(** The message of [hello] received twice: the two events and the state
    once the host has built both vars. *)
Definition hello_twice : list PSEvent * state :=
  let second := receive (spec_message hello) hello_received.2 in
  ([hello_received.1; second.1], second.2).

(** A state of the editor with a struct in block 2 whose union was never
    assigned. *)
Definition untagged : state :=
  set_heap (λ _, {[ 2 := EditStruct {| file_buf := Some (curbuf started_globals);
                                       fields := None |} ]}) 2 started.

(** * Proofs *)

(** ** Byte strings *)

Lemma is_NUL_true c : is_NUL c = true ↔ c = NUL.
Proof. unfold is_NUL. apply Ascii.eqb_eq. Qed.

Lemma cstring_buf_bytes_of s rest :
  cstring_buf (bytes_of s ++ Some NUL :: rest) = Some (until_NUL s).
Proof.
  induction s as [|c s IH]; simpl; [done|].
  destruct (is_NUL c); [done|]. by rewrite IH.
Qed.

Lemma read_cstring bs s rest :
  cstring_buf bs = Some s → read_buf (bs ++ rest) (String.length s) = Some s.
Proof.
  revert s. induction bs as [|[c|] bs IH]; intros s; simpl; try done.
  destruct (is_NUL c); [by intros [= <-]|].
  destruct (cstring_buf bs) as [s'|] eqn:E; simpl; [|done].
  intros [= <-]. simpl. by rewrite (IH s').
Qed.

Lemma until_NUL_cstring bs s : cstring_buf bs = Some s → until_NUL s = s.
Proof.
  revert s. induction bs as [|[c|] bs IH]; intros s; simpl; try done.
  destruct (is_NUL c) eqn:Ec; [by intros [= <-]|].
  destruct (cstring_buf bs) as [s'|]; simpl; [|done].
  intros [= <-]. simpl. rewrite Ec. by rewrite IH.
Qed.

(** [strncpy] of a whole var buffer, and the terminator after it, leave the
    C string [until_NUL s] in the block. *)
Lemma strncpy_buf_bytes_of s :
  ∃ new, strncpy_buf (bytes_of s) (String.length s) = Some new
         ∧ length new = String.length s
         ∧ ∀ rest, cstring_buf (new ++ Some NUL :: rest) = Some (until_NUL s).
Proof.
  induction s as [|c s (new & E & L & C)]; simpl.
  - exists []. done.
  - destruct (is_NUL c) eqn:Ec.
    + eexists. split; [done|]. split.
      * simpl. by rewrite length_replicate.
      * intros rest. simpl. apply is_NUL_true in Ec. by subst c.
    + rewrite E. simpl. eexists. split; [done|]. split; [simpl; congruence|].
      intros rest. simpl. by rewrite Ec, C.
Qed.

(** On two var buffers compared over the shorter length, [strncmp] reads
    within both; against a string without NUL it gives 0 exactly when that
    prefix agrees, so that equal lengths make the strings equal. *)
Lemma strncmp_buf_bytes_of s1 s2 :
  until_NUL s2 = s2 →
  ∃ c, strncmp_buf (bytes_of s1) (bytes_of s2)
                   (String.length s1 `min` String.length s2) = Some c
       ∧ (c = 0 ∧ String.length s1 = String.length s2 ↔ s1 = s2).
Proof.
  revert s2. induction s1 as [|x s1 IH]; intros [|y s2]; simpl.
  - exists 0. done.
  - exists 0. split; [done|]. split; [by intros [_ ?]|done].
  - exists 0. split; [done|]. split; [by intros [_ ?]|done].
  - destruct (is_NUL y) eqn:Ey; [done|]. intros [= Hs2].
    destruct (Ascii.eqb x y) eqn:Exy.
    + apply Ascii.eqb_eq in Exy. subst y. rewrite Ey.
      destruct (IH s2 Hs2) as (c & -> & Hc). exists c. split; [done|].
      split.
      * intros [? [= ?]]. f_equal. by apply Hc.
      * intros [= E]. apply Hc in E as [? ?]. split; congruence.
    + eexists. split; [done|]. apply Ascii.eqb_neq in Exy. split.
      * intros [H _]. exfalso. apply Exy.
        assert (N_of_ascii x = N_of_ascii y) as H' by lia.
        apply (f_equal ascii_of_N) in H'. by rewrite !ascii_N_embedding in H'.
      * intros [= ? _]. done.
Qed.

(** ** Machine integers *)

Lemma sint32_uint32 n : - 2 ^ 31 ≤ n < 2 ^ 31 → sint32 (uint32 n) = n.
Proof.
  intros H. unfold sint32, uint32. rewrite Z.mod_mod by lia.
  destruct (Z.ltb_spec (n mod 2 ^ 32) (2 ^ 31)).
  - destruct (Z.le_gt_cases 0 n); [rewrite Z.mod_small in *; lia|].
    rewrite <- (Z.mod_add n 1) in H0 by lia. rewrite Z.mod_small in H0; lia.
  - destruct (Z.le_gt_cases 0 n); [rewrite Z.mod_small in *; lia|].
    rewrite <- (Z.mod_add n 1) by lia. rewrite Z.mod_small; lia.
Qed.

Lemma sint32_diff a b :
  0 ≤ a < 2 ^ 32 → 0 ≤ b < 2 ^ 32 → sint32 (a - b) = 0 ↔ a = b.
Proof.
  intros Ha Hb. unfold sint32. split.
  - destruct (Z.ltb_spec ((a - b) mod 2 ^ 32) (2 ^ 31)); intros H0.
    + destruct (Z.le_gt_cases b a).
      * rewrite Z.mod_small in H0; lia.
      * rewrite <- (Z.mod_add _ 1) in H0 by lia. rewrite Z.mod_small in H0; lia.
    + pose proof (Z.mod_pos_bound (a - b) (2 ^ 32)). lia.
  - intros ->. by rewrite Z.sub_diag.
Qed.

(** ** Running computations *)

Lemma bind_run {A B} (m : M A) (f : A → M B) σ a σ' :
  m σ = Ok a σ' → (m ≫= f) σ = f a σ'.
Proof. intros H. unfold mbind, M_bind. by rewrite H. Qed.

Lemma fmap_run {A B} (m : M A) (f : A → B) σ a σ' :
  m σ = Ok a σ' → (f <$> m) σ = Ok (f a) σ'.
Proof. intros H. unfold fmap, M_fmap. by rewrite H. Qed.

(** ** The invariants under the primitives *)

Lemma var_string_lookup σ v s :
  var_string σ v = Some s → vars σ !! as_id v = Some (StringVar s).
Proof.
  unfold var_string. destruct (is_string (type v)); [|done].
  destruct (vars σ !! as_id v) as [[]|]; congruence.
Qed.

Lemma var_string_ext σ σ' v : vars σ' = vars σ → var_string σ' v = var_string σ v.
Proof. unfold var_string. by intros ->. Qed.

Lemma var_entries_ext σ σ' v : vars σ' = vars σ → var_entries σ' v = var_entries σ v.
Proof. unfold var_entries. by intros ->. Qed.

Lemma wf_vars_ext g σ σ' :
  vars σ' = vars σ → last_var_id σ' = last_var_id σ → wf_vars g σ → wf_vars g σ'.
Proof.
  intros Hv Hl []. split; rewrite ?(var_string_ext σ σ'), ?Hv, ?Hl; done.
Qed.

Lemma wf_vars_length g σ v s :
  wf_vars g σ → var_string σ v = Some s → 0 ≤ Z.of_nat (String.length s) < 2 ^ 32 - 1.
Proof.
  intros Hwf Hs. apply var_string_lookup in Hs. split; [lia|].
  by eapply wf_strings.
Qed.

(** A new object under the next id keeps the invariant, if a string fits. *)
Lemma wf_vars_alloc g σ o :
  wf_vars g σ →
  (∀ s, o = StringVar s → Z.of_nat (String.length s) < 2 ^ 32 - 1) →
  wf_vars g (set_vars <[last_var_id σ + 1 := o]> (last_var_id σ + 1) σ).
Proof.
  intros Hwf Ho.
  assert (∀ v s, var_string σ v = Some s →
    var_string (set_vars <[last_var_id σ + 1 := o]> (last_var_id σ + 1) σ) v = Some s)
    as Hkeep.
  { intros v s Hs. pose proof (var_string_lookup _ _ _ Hs) as Hl.
    unfold var_string in *. simpl. destruct (is_string (type v)); [|done].
    rewrite lookup_insert_ne, Hl; [done|].
    intros E. rewrite <- E, (wf_var_ids _ _ Hwf) in Hl; [done|lia]. }
  destruct Hwf. split; try (apply Hkeep; assumption); simpl.
  - intros id Hid. rewrite lookup_insert_ne by lia. apply wf_var_ids0. lia.
  - intros id s. rewrite lookup_insert. case_decide; [|by apply wf_strings0].
    intros [= ->]. by apply Ho.
Qed.

Lemma wf_heap_insert σ b c b' :
  wf_heap σ → b ≤ b' → last_block σ ≤ b' → wf_heap (set_heap <[b := c]> b' σ).
Proof.
  intros Hwf ? ? x Hx. simpl in *. rewrite lookup_insert_ne by lia. apply Hwf. lia.
Qed.

Lemma wf_heap_delete σ b : wf_heap σ → wf_heap (set_heap (delete b) (last_block σ) σ).
Proof.
  intros Hwf x Hx. simpl in *. rewrite lookup_delete. case_decide; [done|by apply Hwf].
Qed.

Lemma wf_heap_live σ b c : wf_heap σ → heap σ !! b = Some c → b ≤ last_block σ.
Proof.
  intros Hwf Hb. destruct (Z.le_gt_cases b (last_block σ)); [done|].
  rewrite Hwf in Hb by lia. done.
Qed.

(** ** [var_to_cstr] *)

Lemma set_heap_set_heap f f' b b' σ :
  set_heap f b (set_heap f' b' σ) = set_heap (f ∘ f') b σ.
Proof. reflexivity. Qed.

Lemma strncpy_var_run σ b old id s new :
  heap σ !! b = Some (Bytes old) →
  vars σ !! id = Some (StringVar s) →
  strncpy_buf (bytes_of s) (String.length s) = Some new →
  (length new ≤ length old)%nat →
  strncpy (Block b) (VarBuf id) (Z.of_nat (String.length s)) σ
  = Ok tt (set_heap <[b := Bytes (new ++ drop (length new) old)]> (last_block σ) σ).
Proof.
  intros Hb Hid Hnew Hle. unfold strncpy.
  destruct (Z.eqb_spec (Z.of_nat (String.length s)) 0) as [E0|E0].
  - destruct s; [|simpl in E0; lia]. injection Hnew as <-. simpl.
    rewrite drop_0. unfold set_heap. rewrite insert_id by done. by destruct σ.
  - simpl. rewrite Hid. simpl. rewrite Nat2Z.id, Hnew. simpl. rewrite Hb.
    destruct (Nat.leb_spec (length new) (length old)); [done|lia].
Qed.

(** It returns a block that was free before, holding the text of the var
    as a C string; nothing else changes. *)
Lemma var_to_cstr_run g σ v :
  wf_vars g σ →
  ∃ bs, var_to_cstr v σ
        = Ok (Block (last_block σ + 1))
             (set_heap <[last_block σ + 1 := Bytes bs]> (last_block σ + 1) σ)
        ∧ cstring_buf bs = Some (text_of σ v).
Proof.
  intros Hwf. unfold var_to_cstr, text_of, ppb_var_VarToUtf8, gets.
  unfold mbind at 1, M_bind at 1.
  destruct (var_string σ v) as [s|] eqn:Hs.
  - pose proof (wf_vars_length _ _ _ _ Hwf Hs) as Hlen.
    destruct (strncpy_buf_bytes_of s) as (new & Hnew & Hl & Hc).
    exists (new ++ [Some NUL]). split; [|apply Hc].
    set (n := Z.of_nat (String.length s)) in *.
    assert (uint32 (n + 1) = n + 1) as -> by (unfold uint32; rewrite Z.mod_small; lia).
    assert (Z.to_nat (n + 1) = S (String.length s)) as Hn1 by lia.
    erewrite bind_run by reflexivity. rewrite Hn1.
    assert (drop (length new) (replicate (S (String.length s)) (@None ascii)) = [None])
      as Hdrop.
    { rewrite drop_replicate, Hl.
      by replace (S (String.length s) - String.length s)%nat with 1%nat by lia. }
    generalize dependent (replicate (S (String.length s)) (@None ascii)).
    intros blk Hdrop.
    assert (length blk = S (length new)) as Hblk.
    { rewrite <- (take_drop (length new) blk), Hdrop, length_app, length_take.
      assert (length new ≤ length blk)%nat; [|simpl; lia].
      destruct (Nat.le_gt_cases (length new) (length blk)); [done|].
      rewrite drop_ge in Hdrop by lia. done. }
    erewrite (bind_run (strncpy _ _ _)); cycle 1.
    { subst n. eapply strncpy_var_run; [apply lookup_insert_eq| |done|].
      - by apply var_string_lookup.
      - lia. }
    rewrite set_heap_set_heap, Hdrop.
    erewrite (bind_run (store_byte _ _ _)); cycle 1.
    { unfold store_byte. cbn [heap set_heap compose]. rewrite lookup_insert_eq.
      rewrite length_app, Hl.
      destruct (Z.leb_spec 0 n); [|lia].
      destruct (Z.ltb_spec n (Z.of_nat (String.length s + length [@None ascii]))); [|simpl in *; lia].
      cbn [andb]. reflexivity. }
    unfold mret, M_ret. rewrite set_heap_set_heap. unfold set_heap.
    cbn [heap last_block compose vars last_var_id channel_open posted dropped collab_queue released].
    rewrite !insert_insert_eq. do 4 f_equal. subst n. rewrite Nat2Z.id.
    rewrite <- Hl. rewrite insert_app_r_alt by lia.
    by rewrite Nat.sub_diag.
  - exists [Some NUL]. split; [|done].
    erewrite bind_run by reflexivity.
    erewrite (bind_run (strncpy _ _ _)) by reflexivity.
    erewrite (bind_run (store_byte _ _ _)); cycle 1.
    { unfold store_byte. simpl. rewrite lookup_insert_eq. simpl. reflexivity. }
    unfold mret, M_ret. rewrite set_heap_set_heap. unfold set_heap. simpl.
    by rewrite insert_insert_eq.
Qed.

(** ** [pp_strcmp] *)

(** Against a var that holds a non-empty string without NUL, [pp_strcmp]
    reads nothing out of bounds and returns 0 exactly for a string var with
    the same bytes; for a var that is no string it compares lengths 0 and
    [n], without a read. *)
Lemma pp_strcmp_run g σ v1 v2 s2 :
  wf_vars g σ → var_string σ v2 = Some s2 →
  until_NUL s2 = s2 → s2 ≠ EmptyString →
  ∃ c, pp_strcmp v1 v2 σ = Ok c σ ∧ (c = 0 ↔ var_string σ v1 = Some s2).
Proof.
  intros Hwf H2 Hnul Hne.
  pose proof (wf_vars_length _ _ _ _ Hwf H2) as Hl2.
  assert (0 < Z.of_nat (String.length s2)) as Hpos by (destruct s2; [done|simpl; lia]).
  unfold pp_strcmp, ppb_var_VarToUtf8, gets, mbind, M_bind.
  destruct (var_string σ v1) as [s1|] eqn:H1; cbv beta iota; rewrite H2;
    cbv beta iota.
  - pose proof (wf_vars_length _ _ _ _ Hwf H1) as Hl1.
    destruct (strncmp_buf_bytes_of s1 s2 Hnul) as (c & Hc & Hiff).
    set (n := if Z.of_nat (String.length s1) <? Z.of_nat (String.length s2)
              then Z.of_nat (String.length s1) else Z.of_nat (String.length s2)).
    assert (n = Z.of_nat (String.length s1 `min` String.length s2)) as Hn.
    { subst n. destruct (Z.ltb_spec (Z.of_nat (String.length s1))
                                    (Z.of_nat (String.length s2))); lia. }
    assert (strncmp (VarBuf (as_id v1)) (VarBuf (as_id v2)) n σ = Ok c σ) as ->.
    { unfold strncmp. destruct (Z.eqb_spec n 0) as [E0|E0].
      - assert (String.length s1 `min` String.length s2 = 0)%nat as E by lia.
        rewrite E in Hc. simpl in Hc. congruence.
      - simpl. rewrite (var_string_lookup _ _ _ H1), (var_string_lookup _ _ _ H2).
        by rewrite Hn, Nat2Z.id, Hc. }
    unfold mret, M_ret. eexists. split; [done|].
    destruct (Z.eqb_spec c 0) as [->|Hc0].
    + rewrite sint32_diff by lia. split.
      * intros E. f_equal. apply Hiff. split; [done|lia].
      * intros [= E]. apply Hiff in E as [_ E]. lia.
    + split; [done|]. intros [= E]. by apply Hiff in E as [? _].
  - destruct (Z.ltb_spec 0 (Z.of_nat (String.length s2))); [|lia].
    unfold strncmp, mret, M_ret. simpl. eexists. split; [done|].
    split; [|done]. intros E. rewrite sint32_diff in E; [lia|by compute|lia].
Qed.

(** ** Reading the dictionary *)

Lemma ppb_dict_Get_run σ dict key es k :
  var_entries σ dict = Some es → var_string σ key = Some k →
  ppb_dict_Get dict key σ = Ok (field es k) σ.
Proof. intros Hd Hk. unfold ppb_dict_Get, gets. by rewrite Hd, Hk. Qed.

Lemma store_edit_run σ b e f :
  heap σ !! b = Some (EditStruct e) →
  store_edit (Block b) f σ
  = Ok tt (set_heap <[b := EditStruct (f e)]> (last_block σ) σ).
Proof. intros Hb. unfold store_edit, load_edit. by rewrite Hb. Qed.

(** ** [js_printf] *)

(** Printing a fixed line takes one fresh block and one fresh var and hands
    the line to [PostMessage]; the queue and the live blocks stay as they
    are. *)
Lemma js_printf_run g σ fmt :
  wf g σ → until_NUL fmt = fmt → text_ok fmt →
  ∃ σ', js_printf g fmt σ = Ok (Z.of_nat (String.length fmt)) σ'
        ∧ wf g σ'
        ∧ collab_queue σ' = collab_queue σ
        ∧ released σ' = released σ
        ∧ heap σ' = <[last_block σ + 1 := Bytes (bytes_of fmt ++ [Some NUL])]> (heap σ)
        ∧ last_block σ' = last_block σ + 1.
Proof.
  intros [Hv Hh] Hnul [Hutf Hlen].
  unfold js_printf, vasprintf. erewrite bind_run by reflexivity.
  cbv beta iota.
  destruct (Z.leb_spec 0 (Z.of_nat (String.length fmt))); [|lia].
  set (σ1 := set_heap _ _ σ).
  assert (cstring_at σ1 (Block (last_block σ + 1)) = Some fmt) as Hstr.
  { unfold cstring_at. simpl. rewrite lookup_insert_eq. simpl.
    by rewrite cstring_buf_bytes_of, Hnul. }
  assert (wf g σ1) as [Hv1 Hh1].
  { split; [by apply (wf_vars_ext g σ)|]. apply wf_heap_insert; [done|lia|simpl; lia]. }
  erewrite bind_run; cycle 1.
  { erewrite bind_run; cycle 1.
    { unfold strlen. by rewrite Hstr. }
    erewrite bind_run; cycle 1.
    { unfold ppb_var_VarFromUtf8. unfold cstring_at in Hstr.
      destruct (buffer σ1 (Block (last_block σ + 1))) as [bs|]; [|done].
      simpl in Hstr |- *. rewrite Nat2Z.id.
      rewrite <- (app_nil_r bs), (read_cstring _ _ _ Hstr), Hutf.
      destruct (Z.ltb_spec (Z.of_nat (String.length fmt)) (2 ^ 32 - 1)); [|lia].
      reflexivity. }
    erewrite bind_run by reflexivity. reflexivity. }
  unfold mret, M_ret. eexists. split; [done|].
  pose proof (wf_vars_alloc g σ1 (StringVar fmt) Hv1) as Hv2.
  cbn [channel_open set_vars].
  split; [|by destruct (channel_open σ1)].
  split.
  - eapply wf_vars_ext; [| |apply Hv2]; [by destruct (channel_open σ1)..|].
    by intros ? [= <-].
  - destruct (channel_open σ1); exact Hh1.
Qed.

(** ** [parse_collabedit] *)

Lemma wf_set_heap_insert g σ b c b' :
  wf g σ → b ≤ b' → last_block σ ≤ b' → wf g (set_heap <[b := c]> b' σ).
Proof.
  intros [Hv Hh] ? ?. split; [by apply (wf_vars_ext g σ)|by apply wf_heap_insert].
Qed.

(** The variants without text: one store into the struct. *)
Lemma parse_plain_run g σ b e0 (f : collab_fields ptr) v :
  wf g σ → heap σ !! b = Some (EditStruct e0) →
  with_text (λ _ : ptr, @None string) f = Some v →
  ∃ σ', (store_edit (Block b)
           (λ e, {| file_buf := file_buf e; fields := Some f |});;
         mret (Block b)) σ = Ok (Block b) σ'
        ∧ wf g σ' ∧ collab_queue σ' = collab_queue σ ∧ released σ' = released σ
        ∧ parsed σ σ' b (file_buf e0) v.
Proof.
  intros Hwf Hb Hf.
  erewrite bind_run by (by apply store_edit_run).
  eexists. split; [done|].
  split; [apply wf_set_heap_insert; [done|by eapply wf_heap_live, Hb; apply Hwf|lia]|].
  do 2 (split; [done|]). do 2 (split; [done|]).
  exists f. split; [simpl; by rewrite lookup_insert_eq|].
  split; [by destruct f|by destruct f].
Qed.

(** The variants with text: the text is copied into a fresh block, then
    the struct is filled in. *)
Lemma parse_text_run g σ dict es b e0 (K : ptr → collab_fields ptr)
    (V : string → collab_fields string) :
  wf g σ → var_entries σ dict = Some es →
  heap σ !! b = Some (EditStruct e0) →
  (∀ t, edit_text (K t) = Some t) →
  (∀ h s t, h t = Some s → with_text h (K t) = Some (V s)) →
  ∃ σ', (text ← ppb_dict_Get dict (text_key g) ≫= var_to_cstr;
         store_edit (Block b)
           (λ e, {| file_buf := file_buf e; fields := Some (K text) |});;
         mret (Block b)) σ = Ok (Block b) σ'
        ∧ wf g σ' ∧ collab_queue σ' = collab_queue σ ∧ released σ' = released σ
        ∧ parsed σ σ' b (file_buf e0) (V (text_of σ (field es "text"))).
Proof.
  intros Hwf Hd Hb HK HV.
  destruct (var_to_cstr_run g σ (field es "text") (proj1 Hwf)) as (bs & Hrun & Hbs).
  assert (b ≤ last_block σ) as Hlive by (eapply wf_heap_live, Hb; apply Hwf).
  erewrite bind_run; cycle 1.
  { erewrite bind_run; [apply Hrun|].
    apply ppb_dict_Get_run; [done|apply Hwf]. }
  erewrite bind_run; cycle 1.
  { apply store_edit_run. simpl. rewrite lookup_insert_ne by lia. apply Hb. }
  eexists. split; [done|].
  split.
  { apply wf_set_heap_insert; [|simpl; lia..].
    apply wf_set_heap_insert; [done|lia..]. }
  do 2 (split; [done|]). do 2 (split; [done|]).
  eexists. split; [simpl; by rewrite lookup_insert_eq|].
  split.
  - apply HV. unfold cstring_at. simpl.
    rewrite lookup_insert_ne by lia. rewrite lookup_insert_eq. simpl. apply Hbs.
  - intros t. rewrite HK. intros [= <-]. eexists. split; [done|lia].
Qed.

Lemma type_string_neq σ v s (c : Z) :
  (c = 0 ↔ var_string σ v = Some s) → c ≠ 0 →
  match var_string σ v with Some t => String.eqb t s = false | None => True end.
Proof.
  intros Hiff Hc. destruct (var_string σ v) as [t|]; [|done].
  destruct (String.eqb_spec t s) as [->|]; [|done]. by destruct Hc; apply Hiff.
Qed.

(** [parse_collabedit] does not fault.  It fills the struct in with the
    edit [decode_entries] describes, or prints a line, frees the struct and
    returns NULL. *)
Lemma parse_collabedit_run g σ dict es b e0 :
  wf g σ → var_entries σ dict = Some es →
  heap σ !! b = Some (EditStruct e0) →
  ∃ r σ', parse_collabedit g dict (Block b) σ = Ok r σ'
          ∧ wf g σ' ∧ collab_queue σ' = collab_queue σ
          ∧ released σ' = released σ
          ∧ match decode_entries σ es with
            | Some v => r = Block b ∧ parsed σ σ' b (file_buf e0) v
            | None => r = NULL
            end.
Proof.
  intros Hwf Hd Hb. pose proof Hwf as [Hv Hh]. unfold parse_collabedit.
  pose proof (λ key k, ppb_dict_Get_run σ dict key es k Hd) as HGet.
  erewrite bind_run by (apply HGet, Hv).
  unfold decode_entries.
  destruct (pp_strcmp_run g σ (field es "collabedit_type") (type_append_line g)
              "append_line" Hv (wf_append_line _ _ Hv) eq_refl) as (c1 & Hc1 & H1);
    [done|].
  cbv beta. erewrite bind_run by apply Hc1. cbv beta.
  destruct (Z.eqb_spec c1 0) as [E1|E1].
  { apply H1 in E1. rewrite E1. simpl String.eqb.
    erewrite bind_run by (eapply fmap_run, HGet, Hv).
    destruct (parse_text_run g σ dict es b e0 (append_line (as_int (field es "line")))
                (append_line (as_int (field es "line"))) Hwf Hd Hb)
      as (σ' & -> & ? & ? & ? & ?); [done|by intros ??? Hh0; simpl; rewrite Hh0|]. eauto 10. }
  apply (type_string_neq _ _ _ _ H1) in E1. clear H1.
  destruct (pp_strcmp_run g σ (field es "collabedit_type") (type_insert_text g)
              "insert_text" Hv (wf_insert_text _ _ Hv) eq_refl) as (c2 & Hc2 & H2);
    [done|].
  cbv beta. erewrite bind_run by apply Hc2. cbv beta.
  destruct (Z.eqb_spec c2 0) as [E2|E2].
  { apply H2 in E2. rewrite E2. simpl String.eqb.
    do 2 erewrite bind_run by (eapply fmap_run, HGet, Hv).
    destruct (parse_text_run g σ dict es b e0
                (insert_text (as_int (field es "line")) (as_int (field es "index")))
                (insert_text (as_int (field es "line")) (as_int (field es "index")))
                Hwf Hd Hb)
      as (σ' & -> & ? & ? & ? & ?); [done|by intros ??? Hh0; simpl; rewrite Hh0|]. eauto 10. }
  apply (type_string_neq _ _ _ _ H2) in E2. clear H2.
  destruct (pp_strcmp_run g σ (field es "collabedit_type") (type_remove_line g)
              "remove_line" Hv (wf_remove_line _ _ Hv) eq_refl) as (c3 & Hc3 & H3);
    [done|].
  cbv beta. erewrite bind_run by apply Hc3. cbv beta.
  destruct (Z.eqb_spec c3 0) as [E3|E3].
  { apply H3 in E3. rewrite E3. simpl String.eqb.
    erewrite bind_run by (eapply fmap_run, HGet, Hv).
    destruct (parse_plain_run g σ b e0 (remove_line (as_int (field es "line")))
                (remove_line (as_int (field es "line"))) Hwf Hb)
      as (σ' & -> & ? & ? & ? & ?); [done|]. eauto 10. }
  apply (type_string_neq _ _ _ _ H3) in E3. clear H3.
  destruct (pp_strcmp_run g σ (field es "collabedit_type") (type_delete_text g)
              "delete_text" Hv (wf_delete_text _ _ Hv) eq_refl) as (c4 & Hc4 & H4);
    [done|].
  cbv beta. erewrite bind_run by apply Hc4. cbv beta.
  destruct (Z.eqb_spec c4 0) as [E4|E4].
  { apply H4 in E4. rewrite E4. simpl String.eqb.
    do 3 erewrite bind_run by (eapply fmap_run, HGet, Hv).
    destruct (parse_plain_run g σ b e0
                (delete_text (as_int (field es "line")) (as_int (field es "index"))
                             (as_int (field es "length")))
                (delete_text (as_int (field es "line")) (as_int (field es "index"))
                             (as_int (field es "length"))) Hwf Hb)
      as (σ' & -> & ? & ? & ? & ?); [done|]. eauto 10. }
  apply (type_string_neq _ _ _ _ H4) in E4. clear H4.
  destruct (pp_strcmp_run g σ (field es "collabedit_type") (type_replace_line g)
              "replace_line" Hv (wf_replace_line _ _ Hv) eq_refl) as (c5 & Hc5 & H5);
    [done|].
  cbv beta. erewrite bind_run by apply Hc5. cbv beta.
  destruct (Z.eqb_spec c5 0) as [E5|E5].
  { apply H5 in E5. rewrite E5. simpl String.eqb.
    erewrite bind_run by (eapply fmap_run, HGet, Hv).
    destruct (parse_text_run g σ dict es b e0 (replace_line (as_int (field es "line")))
                (replace_line (as_int (field es "line"))) Hwf Hd Hb)
      as (σ' & -> & ? & ? & ? & ?); [done|by intros ??? Hh0; simpl; rewrite Hh0|]. eauto 10. }
  apply (type_string_neq _ _ _ _ H5) in E5. clear H5.
  destruct (js_printf_run g σ "info: msgloop unknown collabedit type" Hwf eq_refl)
    as (σ1 & Hp & Hwf1 & Hq & Hr & Hheap & Hlast); [by split|].
  erewrite bind_run by apply Hp.
  assert (b ≤ last_block σ) as Hlive by (eapply wf_heap_live, Hb; apply Hwf).
  erewrite bind_run; cycle 1.
  { unfold free. rewrite Hheap, lookup_insert_ne, Hb by lia. reflexivity. }
  eexists _, _. split; [done|].
  split; [split; [by eapply wf_vars_ext, Hwf1|apply wf_heap_delete, Hwf1]|].
  do 2 (split; [done|]).
  destruct (var_string σ (field es "collabedit_type")) as [t|]; [|done].
  by rewrite E1, E2, E3, E4, E5.
Qed.

(** ** One turn of the loop *)

Lemma decode_entries_ext σ σ' es :
  vars σ' = vars σ → decode_entries σ' es = decode_entries σ es.
Proof.
  intros Hv. unfold decode_entries, text_of.
  by rewrite !(var_string_ext σ σ') by done.
Qed.

Lemma decode_entries_no_key σ es :
  entries_get "collabedit_type" es = None → decode_entries σ es = None.
Proof. intros H. unfold decode_entries, field. by rewrite H. Qed.

Lemma wf_ext g σ σ' :
  vars σ' = vars σ → last_var_id σ' = last_var_id σ →
  heap σ' = heap σ → last_block σ' = last_block σ → wf g σ → wf g σ'.
Proof.
  intros Hv Hl Hh Hb [? Hwf]. split; [by apply (wf_vars_ext g σ)|].
  intros b. rewrite Hh, Hb. apply Hwf.
Qed.

(** A turn of the loop never faults.  It queues the edit [decode_event]
    describes, in a struct and text blocks that were free before, and gives
    the event back; or it queues nothing. *)
Lemma js_msgloop_body_run g σ event :
  wf g σ →
  ∃ σ', js_msgloop_body g event σ = Ok tt σ' ∧ wf g σ'
        ∧ match decode_event σ event with
          | Some v =>
              ∃ b, collab_queue σ' = collab_queue σ ++ [Block b]
                   ∧ heap σ !! b = None
                   ∧ released σ' = released σ ++ [event]
                   ∧ parsed σ σ' b (Some (curbuf g)) v
          | None => collab_queue σ' = collab_queue σ
          end.
Proof.
  intros Hwf. pose proof Hwf as [Hv Hh].
  assert (decode_event σ event = None →
          ∃ σ', (js_printf g "info: msgloop skipping non collabedit dict";; mret tt) σ
                = Ok tt σ' ∧ wf g σ'
                ∧ match decode_event σ event with
                  | Some v =>
                      ∃ b, collab_queue σ' = collab_queue σ ++ [Block b]
                           ∧ heap σ !! b = None
                           ∧ released σ' = released σ ++ [event]
                           ∧ parsed σ σ' b (Some (curbuf g)) v
                  | None => collab_queue σ' = collab_queue σ
                  end) as Hskip.
  { intros ->.
    destruct (js_printf_run g σ "info: msgloop skipping non collabedit dict" Hwf eq_refl)
      as (σ1 & Hp & Hwf1 & Hq & _); [by split|].
    erewrite bind_run by apply Hp. eauto. }
  unfold js_msgloop_body. cbv zeta.
  destruct (is_dictionary (type (as_var event))) eqn:Hty; cbn [negb].
  2:{ erewrite bind_run by reflexivity. apply Hskip.
      unfold decode_event, var_entries. by rewrite Hty. }
  erewrite bind_run; cycle 1.
  { eapply fmap_run. unfold ppb_dict_HasKey, gets.
    rewrite (wf_type_key _ _ Hv). reflexivity. }
  destruct (var_entries σ (as_var event)) as [es|] eqn:Hd; cbn [negb].
  2:{ apply Hskip. unfold decode_event. by rewrite Hd. }
  destruct (entries_get "collabedit_type" es) as [tv|] eqn:Htv.
  2:{ rewrite bool_decide_eq_false_2 by (by intros [? ?]). cbn [negb].
      apply Hskip. unfold decode_event. rewrite Hd. simpl.
      by apply decode_entries_no_key. }
  rewrite bool_decide_eq_true_2 by eauto. cbn [negb].
  clear Hskip. unfold malloc_collabedit_T.
  erewrite bind_run by reflexivity.
  erewrite bind_run; cycle 1.
  { apply store_edit_run. simpl. apply lookup_insert_eq. }
  rewrite set_heap_set_heap.
  set (b := last_block σ + 1).
  set (σ2 := set_heap _ _ σ).
  assert (wf g σ2) as Hwf2.
  { split; [by apply (wf_vars_ext g σ)|].
    intros x Hx. simpl in *. rewrite !lookup_insert_ne by lia. apply Hh. lia. }
  destruct (parse_collabedit_run g σ2 (as_var event) es b
              {| file_buf := Some (curbuf g); fields := None |} Hwf2)
    as (r & σ3 & Hrun & Hwf3 & Hq & Hr & Hres).
  { by rewrite (var_entries_ext σ σ2). }
  { simpl. apply lookup_insert_eq. }
  erewrite bind_run by apply Hrun.
  rewrite (decode_entries_ext σ σ2) in Hres by done.
  unfold decode_event. rewrite Hd. simpl.
  destruct (decode_entries σ es) as [v|].
  - destruct Hres as (-> & Hvars & Hlast & f & Hload & Htext & Hfresh).
    simpl is_null. cbv iota.
    erewrite bind_run by reflexivity.
    eexists. split; [reflexivity|].
    split; [by eapply wf_ext, Hwf3|].
    exists b. simpl. rewrite Hq, Hr. split; [done|].
    split; [apply Hh; lia|]. split; [done|].
    split; [done|]. split; [done|].
    exists f. split; [done|]. split; [done|].
    intros t Ht. destruct (Hfresh t Ht) as (b' & -> & Hb'). exists b'.
    split; [done|]. simpl in Hb'. lia.
  - subst r. simpl is_null. cbv iota.
    erewrite bind_run by reflexivity.
    eexists. split; [reflexivity|].
    split; [by eapply wf_ext, Hwf3|]. done.
Qed.

(** ** [collab_remoteapply] *)

Lemma snapshot_value_string σ x s :
  var_string σ x = Some s → snapshot_value σ x = W_String s.
Proof.
  intros H. unfold snapshot_value. rewrite H. unfold var_string in H.
  by destruct (type x).
Qed.

Lemma snapshot_value_int σ n : snapshot_value σ (PP_MakeInt32 n) = W_Int32 (sint32 n).
Proof.
  unfold snapshot_value, as_int, sint32, PP_MakeInt32. cbn [type value].
  unfold uint32. by rewrite Z.mod_mod by lia.
Qed.

Lemma buffer_ext σ σ' p bs :
  heap σ' = heap σ →
  (∀ id s, vars σ !! id = Some (StringVar s) → vars σ' !! id = Some (StringVar s)) →
  buffer σ p = Some bs → buffer σ' p = Some bs.
Proof.
  intros Hh Hv. destruct p as [|s|b|id]; simpl; [done..| |].
  - by rewrite Hh.
  - destruct (vars σ !! id) as [[s| |]|] eqn:E; try done.
    by rewrite (Hv _ _ E).
Qed.

(** Setting a key keeps every string var and changes the dictionary only. *)
Lemma ppb_dict_Set_run g σ0 σ dict es key k v :
  encoding g σ0 σ dict es → var_string σ key = Some k →
  ∃ σ', ppb_dict_Set dict key v σ = Ok true σ'
        ∧ encoding g σ0 σ' dict (entries_set k v es)
        ∧ ∀ x, var_string σ' x = var_string σ x.
Proof.
  intros (Hwf & Hd & Hh & Hb & Hq & Hr & Hc & Hp & Hdr & Hkeep) Hk.
  unfold ppb_dict_Set. rewrite Hd, Hk. eexists. split; [done|].
  assert (is_dictionary (type dict) = true
          ∧ vars σ !! as_id dict = Some (DictionaryVar es)) as [Hty Hl].
  { unfold var_entries in Hd. destruct (is_dictionary (type dict)); [|done].
    destruct (vars σ !! as_id dict) as [[]|]; naive_solver. }
  set (σ' := set_vars _ _ σ).
  assert (∀ x, var_string σ' x = var_string σ x) as Hsame.
  { intros x. unfold var_string. simpl. destruct (is_string (type x)); [|done].
    rewrite lookup_insert. case_decide as E; [|done]. by rewrite <- E, Hl. }
  split; [|done].
  split.
  { destruct Hwf. split; rewrite ?Hsame; try done; simpl.
    - intros id Hid. rewrite lookup_insert. case_decide as E; [|by auto].
      subst id. rewrite wf_var_ids0 in Hl; done.
    - intros id s. rewrite lookup_insert. case_decide; [done|]. by apply wf_strings0. }
  split.
  { unfold var_entries. simpl. by rewrite Hty, lookup_insert_eq. }
  do 7 (split; [done|]).
  intros id s Hid. simpl. rewrite lookup_insert. case_decide as E; [|by auto].
  subst id. apply Hkeep in Hid. congruence.
Qed.

(** The text of the edit becomes a string var under the key "text"; the
    null var if [VarFromUtf8] refuses it. *)
Lemma set_text_run g σ0 σ dict es text s :
  encoding g σ0 σ dict es → cstring_at σ0 text = Some s →
  ∃ σ' tv, (v ← UTF8_TO_VAR text; ppb_dict_Set dict (text_key g) v;; mret tt) σ
           = Ok tt σ'
           ∧ encoding g σ0 σ' dict (entries_set "text" tv es)
           ∧ snapshot_value σ' tv = wire_text s.
Proof.
  intros Henc Hs.
  pose proof Henc as (Hwf & Hd & Hh & Hb & Hq & Hr & Hc & Hp & Hdr & Hkeep).
  unfold cstring_at in Hs.
  destruct (buffer σ0 text) as [bs|] eqn:Hbuf; [|done]. simpl in Hs.
  pose proof (buffer_ext σ0 σ text bs Hh Hkeep Hbuf) as Hbuf'.
  assert (strlen text σ = Ok (Z.of_nat (String.length s)) σ) as Hlen.
  { unfold strlen, cstring_at. rewrite Hbuf'. simpl. by rewrite Hs. }
  unfold UTF8_TO_VAR, wire_text.
  destruct ((Z.of_nat (String.length s) <? 2 ^ 32 - 1) && is_utf8 s) eqn:Hok.
  - set (σ1 := set_vars <[last_var_id σ + 1 := StringVar s]> (last_var_id σ + 1) σ).
    assert (vars σ !! (last_var_id σ + 1) = None) as Hfresh
      by (apply (wf_var_ids _ _ Hwf); lia).
    assert (encoding g σ0 σ1 dict es) as Henc1.
    { split.
      { apply wf_vars_alloc; [done|]. intros ? [= <-].
        apply andb_true_iff in Hok as [? _]. lia. }
      split.
      { unfold var_entries in *. simpl. destruct (is_dictionary (type dict)); [|done].
        rewrite lookup_insert_ne; [done|]. intros E. by rewrite <- E, Hfresh in Hd. }
      do 7 (split; [done|]).
      intros id s' Hid. simpl. apply Hkeep in Hid. rewrite lookup_insert_ne; [done|].
      intros E. by rewrite <- E, Hfresh in Hid. }
    destruct (ppb_dict_Set_run g σ0 σ1 dict es (text_key g) "text"
                {| type := PP_VARTYPE_STRING; value := last_var_id σ + 1 |} Henc1)
      as (σ2 & Hset & Henc2 & Hsame); [apply Henc1|].
    exists σ2, {| type := PP_VARTYPE_STRING; value := last_var_id σ + 1 |}.
    split; [|split; [done|]].
    + erewrite bind_run; cycle 1.
      { erewrite bind_run by apply Hlen.
        unfold ppb_var_VarFromUtf8. rewrite Hbuf'. simpl.
        rewrite Nat2Z.id, <- (app_nil_r bs), (read_cstring _ _ _ Hs), Hok.
        reflexivity. }
      by erewrite bind_run by apply Hset.
    + apply snapshot_value_string. rewrite Hsame. unfold var_string. simpl.
      by rewrite lookup_insert_eq.
  - destruct (ppb_dict_Set_run g σ0 σ dict es (text_key g) "text" PP_MakeNull Henc)
      as (σ2 & Hset & Henc2 & Hsame); [apply Hwf|].
    exists σ2, PP_MakeNull. split; [|done].
    erewrite bind_run; cycle 1.
    { erewrite bind_run by apply Hlen.
      unfold ppb_var_VarFromUtf8. rewrite Hbuf'. simpl.
      rewrite Nat2Z.id, <- (app_nil_r bs), (read_cstring _ _ _ Hs), Hok.
      reflexivity. }
    by erewrite bind_run by apply Hset.
Qed.

(** Posting the dictionary once it is filled. *)
Lemma post_run g σ0 σ dict es :
  encoding g σ0 σ dict es →
  ∃ σ', (ppb_msg_PostMessage (pp_ins g) dict;; ppb_var_Release dict) σ = Ok tt σ'
        ∧ wf_vars g σ'
        ∧ heap σ' = heap σ0 ∧ last_block σ' = last_block σ0
        ∧ collab_queue σ' = collab_queue σ0 ∧ released σ' = released σ0
        ∧ (∀ p bs, buffer σ0 p = Some bs → buffer σ' p = Some bs)
        ∧ handed σ0 σ' (Mapping (prod_map id (snapshot_value σ) <$> es)).
Proof.
  intros (Hwf & Hd & Hh & Hb & Hq & Hr & Hc & Hp & Hdr & Hkeep).
  erewrite bind_run by reflexivity. eexists. split; [reflexivity|].
  unfold handed, snapshot. rewrite Hd, <- Hc.
  destruct (channel_open σ); simpl; rewrite ?Hp, ?Hdr;
    (split; [by apply (wf_vars_ext g σ)|]); (do 4 (split; [done|]));
    (split; [|done]); intros p bs; by apply buffer_ext.
Qed.

(** [collab_remoteapply] on a pointer to an edit whose texts can be read:
    it hands [PostMessage] the message of the spec for the edit, with the
    fields as they go on the wire, keeps the invariant of the var table,
    and touches neither the heap nor the queue. *)
Lemma collab_remoteapply_run g σ edit e f v :
  wf_vars g σ → load_edit σ edit = Some e → fields e = Some f →
  with_text (cstring_at σ) f = Some v →
  ∃ σ', collab_remoteapply g edit σ = Ok tt σ'
        ∧ wf_vars g σ'
        ∧ heap σ' = heap σ ∧ last_block σ' = last_block σ
        ∧ collab_queue σ' = collab_queue σ ∧ released σ' = released σ
        ∧ (∀ p bs, buffer σ p = Some bs → buffer σ' p = Some bs)
        ∧ handed σ σ' (Mapping (spec_wire (on_wire v))).
Proof.
  intros Hwf He Hf Hv. unfold collab_remoteapply, ppb_dict_Create.
  erewrite bind_run by reflexivity.
  set (dict := {| type := PP_VARTYPE_DICTIONARY; value := last_var_id σ + 1 |}).
  set (σ1 := set_vars _ _ σ).
  assert (vars σ !! (last_var_id σ + 1) = None) as Hfresh
    by (apply (wf_var_ids _ _ Hwf); lia).
  assert (encoding g σ σ1 dict []) as Henc.
  { split; [by apply wf_vars_alloc|].
    split; [unfold var_entries; simpl; by rewrite lookup_insert_eq|].
    do 7 (split; [done|]).
    intros id s Hid. simpl. rewrite lookup_insert_ne; [done|].
    intros E. by rewrite <- E, Hfresh in Hid. }
  erewrite bind_run; cycle 1.
  { unfold load_fields. replace (load_edit σ1 edit) with (load_edit σ edit) by done.
    rewrite He, Hf. reflexivity. }
  cbv beta iota.
  pose proof (λ σ' es key k x (H : encoding g σ σ' dict es),
              ppb_dict_Set_run g σ σ' dict es key k x H) as HSet.
  destruct f as [l t|l i t|l|l i n|l t]; simpl in Hv.
  - destruct (cstring_at σ t) as [s|] eqn:Hs; [|done]. injection Hv as <-.
    destruct (HSet _ _ (type_key g) _ (type_append_line g) Henc (wf_type_key _ _ (proj1 Henc)))
      as (σ2 & R2 & Henc2 & _).
    destruct (HSet _ _ (line_key g) _ (PP_MakeInt32 l) Henc2 (wf_line_key _ _ (proj1 Henc2)))
      as (σ3 & R3 & Henc3 & _).
    destruct (set_text_run g σ σ3 dict _ t s Henc3 Hs) as (σ4 & tv & R4 & Henc4 & Htv).
    destruct (post_run g σ σ4 dict _ Henc4) as (σ5 & R5 & ? & ? & ? & ? & ? & ? & Hm).
    exists σ5. split.
    { erewrite bind_run; [apply R5|].
      erewrite bind_run by apply R2. erewrite bind_run by apply R3. apply R4. }
    do 6 (split; [done|]). simpl in Hm |- *.
    rewrite (snapshot_value_string _ _ _ (wf_append_line _ _ (proj1 Henc4))) in Hm.
    by rewrite snapshot_value_int, Htv in Hm.
  - destruct (cstring_at σ t) as [s|] eqn:Hs; [|done]. injection Hv as <-.
    destruct (HSet _ _ (type_key g) _ (type_insert_text g) Henc (wf_type_key _ _ (proj1 Henc)))
      as (σ2 & R2 & Henc2 & _).
    destruct (HSet _ _ (line_key g) _ (PP_MakeInt32 l) Henc2 (wf_line_key _ _ (proj1 Henc2)))
      as (σ3 & R3 & Henc3 & _).
    destruct (HSet _ _ (index_key g) _ (PP_MakeInt32 i) Henc3 (wf_index_key _ _ (proj1 Henc3)))
      as (σ3' & R3' & Henc3' & _).
    destruct (set_text_run g σ σ3' dict _ t s Henc3' Hs) as (σ4 & tv & R4 & Henc4 & Htv).
    destruct (post_run g σ σ4 dict _ Henc4) as (σ5 & R5 & ? & ? & ? & ? & ? & ? & Hm).
    exists σ5. split.
    { erewrite bind_run; [apply R5|].
      erewrite bind_run by apply R2. erewrite bind_run by apply R3.
      erewrite bind_run by apply R3'. apply R4. }
    do 6 (split; [done|]). simpl in Hm |- *.
    rewrite (snapshot_value_string _ _ _ (wf_insert_text _ _ (proj1 Henc4))) in Hm.
    by rewrite !snapshot_value_int, Htv in Hm.
  - injection Hv as <-.
    destruct (HSet _ _ (type_key g) _ (type_remove_line g) Henc (wf_type_key _ _ (proj1 Henc)))
      as (σ2 & R2 & Henc2 & _).
    destruct (HSet _ _ (line_key g) _ (PP_MakeInt32 l) Henc2 (wf_line_key _ _ (proj1 Henc2)))
      as (σ3 & R3 & Henc3 & _).
    destruct (post_run g σ σ3 dict _ Henc3) as (σ5 & R5 & ? & ? & ? & ? & ? & ? & Hm).
    exists σ5. split.
    { erewrite bind_run; [apply R5|].
      erewrite bind_run by apply R2. by erewrite bind_run by apply R3. }
    do 6 (split; [done|]). simpl in Hm |- *.
    rewrite (snapshot_value_string _ _ _ (wf_remove_line _ _ (proj1 Henc3))) in Hm.
    by rewrite !snapshot_value_int in Hm.
  - injection Hv as <-.
    destruct (HSet _ _ (type_key g) _ (type_delete_text g) Henc (wf_type_key _ _ (proj1 Henc)))
      as (σ2 & R2 & Henc2 & _).
    destruct (HSet _ _ (line_key g) _ (PP_MakeInt32 l) Henc2 (wf_line_key _ _ (proj1 Henc2)))
      as (σ3 & R3 & Henc3 & _).
    destruct (HSet _ _ (index_key g) _ (PP_MakeInt32 i) Henc3 (wf_index_key _ _ (proj1 Henc3)))
      as (σ3' & R3' & Henc3' & _).
    destruct (HSet _ _ (length_key g) _ (PP_MakeInt32 n) Henc3' (wf_length_key _ _ (proj1 Henc3')))
      as (σ4 & R4 & Henc4 & _).
    destruct (post_run g σ σ4 dict _ Henc4) as (σ5 & R5 & ? & ? & ? & ? & ? & ? & Hm).
    exists σ5. split.
    { erewrite bind_run; [apply R5|].
      erewrite bind_run by apply R2. erewrite bind_run by apply R3.
      erewrite bind_run by apply R3'. by erewrite bind_run by apply R4. }
    do 6 (split; [done|]). simpl in Hm |- *.
    rewrite (snapshot_value_string _ _ _ (wf_delete_text _ _ (proj1 Henc4))) in Hm.
    by rewrite !snapshot_value_int in Hm.
  - destruct (cstring_at σ t) as [s|] eqn:Hs; [|done]. injection Hv as <-.
    destruct (HSet _ _ (type_key g) _ (type_replace_line g) Henc (wf_type_key _ _ (proj1 Henc)))
      as (σ2 & R2 & Henc2 & _).
    destruct (HSet _ _ (line_key g) _ (PP_MakeInt32 l) Henc2 (wf_line_key _ _ (proj1 Henc2)))
      as (σ3 & R3 & Henc3 & _).
    destruct (set_text_run g σ σ3 dict _ t s Henc3 Hs) as (σ4 & tv & R4 & Henc4 & Htv).
    destruct (post_run g σ σ4 dict _ Henc4) as (σ5 & R5 & ? & ? & ? & ? & ? & ? & Hm).
    exists σ5. split.
    { erewrite bind_run; [apply R5|].
      erewrite bind_run by apply R2. erewrite bind_run by apply R3. apply R4. }
    do 6 (split; [done|]). simpl in Hm |- *.
    rewrite (snapshot_value_string _ _ _ (wf_replace_line _ _ (proj1 Henc4))) in Hm.
    by rewrite snapshot_value_int, Htv in Hm.
Qed.

(** ** The invariant as a test *)

Lemma wf_check_sound g σ : wf_check g σ = true → wf g σ.
Proof.
  unfold wf_check. intros H.
  repeat (apply andb_prop in H as [H ?]).
  repeat match goal with
         | H : bool_decide _ = true |- _ => apply bool_decide_eq_true in H
         end.
  split; [split; try done|].
  - intros id Hid. destruct (vars σ !! id) as [o|] eqn:E; [|done].
    apply H in E as [? _]. lia.
  - intros id s E. apply H in E as [_ E]. simpl in E. lia.
  - intros b Hb. destruct (heap σ !! b) as [c|] eqn:E; [|done].
    match goal with H : map_Forall _ (heap σ) |- _ => apply H in E end. lia.
Qed.

Example nacl_main_vars_started :
  nacl_main_vars 7 1 initial_state = Ok started_globals started.
Proof. vm_compute. reflexivity. Qed.

(** ** An event and the message it carries *)

Lemma snapshot_Mapping σ v m :
  snapshot σ v = Mapping m →
  ∃ es, var_entries σ v = Some es ∧ m = prod_map id (snapshot_value σ) <$> es.
Proof.
  unfold snapshot. destruct (var_entries σ v) as [es|]; [|done].
  intros [= <-]. eauto.
Qed.

Lemma snapshot_Plain σ v w : snapshot σ v = Plain w → var_entries σ v = None.
Proof. unfold snapshot. by destruct (var_entries σ v). Qed.

Lemma entries_get_snapshot σ k es :
  entries_get k (prod_map id (snapshot_value σ) <$> es)
  = snapshot_value σ <$> entries_get k es.
Proof.
  induction es as [|[k' x] es IH]; simpl; [done|].
  by destruct (String.eqb k k').
Qed.

Lemma snapshot_value_W_String σ x s :
  snapshot_value σ x = W_String s → var_string σ x = Some s.
Proof.
  unfold snapshot_value.
  destruct (type x) eqn:Ht; try done.
  by destruct (var_string σ x); intros [= ->].
Qed.

Lemma snapshot_value_W_Int32 σ x n : snapshot_value σ x = W_Int32 n → as_int x = n.
Proof.
  unfold snapshot_value.
  destruct (type x) eqn:Ht; try done; [by intros [= ->]|].
  by destruct (var_string σ x).
Qed.

(** What the loop reads under a key, from what the message has there. *)
Lemma field_present σ es k w :
  entries_get k (prod_map id (snapshot_value σ) <$> es) = Some w →
  snapshot_value σ (field es k) = w.
Proof.
  rewrite entries_get_snapshot. unfold field.
  destruct (entries_get k es); simpl; [by intros [= <-]|done].
Qed.

Lemma field_absent σ es k :
  entries_get k (prod_map id (snapshot_value σ) <$> es) = None →
  field es k = PP_MakeUndefined.
Proof.
  rewrite entries_get_snapshot. unfold field.
  by destruct (entries_get k es).
Qed.

Lemma field_string σ es k s :
  entries_get k (prod_map id (snapshot_value σ) <$> es) = Some (W_String s) →
  var_string σ (field es k) = Some s.
Proof. intros H. by apply snapshot_value_W_String, field_present. Qed.

Lemma field_int σ es k n :
  entries_get k (prod_map id (snapshot_value σ) <$> es) = Some (W_Int32 n) →
  as_int (field es k) = n.
Proof. intros H. by eapply snapshot_value_W_Int32, field_present. Qed.

Lemma text_of_string σ x s : var_string σ x = Some s → text_of σ x = until_NUL s.
Proof. unfold text_of. by intros ->. Qed.

(** An event that carries the message of the spec for [v] decodes to [v]. *)
Lemma decode_spec_message σ event v :
  snapshot σ (as_var event) = spec_message v →
  (∀ s, edit_text v = Some s → until_NUL s = s) →
  decode_event σ event = Some v.
Proof.
  intros Hm Hnul. apply snapshot_Mapping in Hm as (es & Hd & Hm).
  unfold decode_event. rewrite Hd. simpl. unfold decode_entries.
  pose proof (λ k s, field_string σ es k s) as HS.
  pose proof (λ k n, field_int σ es k n) as HI.
  rewrite <- Hm in HS, HI.
  destruct v as [l t|l i t|l|l i n|l t]; simpl in HS, HI;
    rewrite (HS "collabedit_type"%string _ eq_refl); simpl String.eqb; cbv iota;
    rewrite ?(HI "line"%string _ eq_refl), ?(HI "index"%string _ eq_refl),
            ?(HI "length"%string _ eq_refl);
    rewrite ?(text_of_string _ _ _ (HS "text"%string _ eq_refl));
    rewrite ?(Hnul t eq_refl); done.
Qed.

(** A discriminator among the five is enough for an edit of that kind;
    what the message lacks reads as 0, or as the empty text. *)
Lemma decode_recognised σ event m t :
  snapshot σ (as_var event) = Mapping m →
  entries_get "collabedit_type" m = Some (W_String (spec_discriminator t)) →
  ∃ v, decode_event σ event = Some v ∧ edit_type v = t
       ∧ (entries_get "line" m = None → edit_line v = 0)
       ∧ (entries_get "index" m = None → ∀ i, edit_index v = Some i → i = 0)
       ∧ (entries_get "length" m = None → ∀ n, edit_length v = Some n → n = 0)
       ∧ (entries_get "text" m = None →
          ∀ s, edit_text v = Some s → s = EmptyString)
       ∧ (∀ w, entries_get "text" m = Some w → (∀ s, w ≠ W_String s) →
          ∀ s, edit_text v = Some s → s = EmptyString).
Proof.
  intros Hm Ht. apply snapshot_Mapping in Hm as (es & Hd & ->).
  unfold decode_event. rewrite Hd. simpl. unfold decode_entries.
  rewrite (field_string _ _ _ _ Ht).
  assert (∀ k, entries_get k (prod_map id (snapshot_value σ) <$> es) = None →
               as_int (field es k) = 0 ∧ text_of σ (field es k) = EmptyString) as Habs.
  { intros k Hk. by rewrite (field_absent _ _ _ Hk). }
  assert (∀ w, entries_get "text" (prod_map id (snapshot_value σ) <$> es) = Some w →
               (∀ s, w ≠ W_String s) →
               text_of σ (field es "text") = EmptyString) as Hbad.
  { intros w Hw Hno. apply field_present in Hw. unfold text_of.
    destruct (var_string σ (field es "text")) as [s|] eqn:E; [|done].
    apply snapshot_value_string in E. rewrite E in Hw. by destruct (Hno s). }
  destruct t; simpl String.eqb; cbv iota; eexists; (split; [done|]);
    (split; [done|]); simpl;
    repeat split;
    first [ intros w Hw Hno ? [= <-]; by eapply Hbad
          | intros Hk;
            first [done | by apply Habs | intros ? [= <-]; by apply Habs] ].
Qed.

(** ** What is in the queue after a turn *)

Lemma with_text_heap σ σ' (f : collab_fields ptr) :
  heap σ' = heap σ →
  (∀ t, edit_text f = Some t → ∃ b, t = Block b) →
  with_text (cstring_at σ') f = with_text (cstring_at σ) f.
Proof.
  intros Hh Hb.
  assert (∀ t, edit_text f = Some t → cstring_at σ' t = cstring_at σ t) as Ht.
  { intros t Hf. destruct (Hb t Hf) as (b & ->). unfold cstring_at. simpl.
    by rewrite Hh. }
  destruct f; simpl in *; by rewrite ?Ht.
Qed.

(** A turn on an event that decodes to [v] queues a pointer to [v]: the
    struct is in a block that was free, with [curbuf] as its buffer, and
    reading the edit needs the heap alone. *)
Lemma js_msgloop_body_queues g σ event v :
  wf g σ → decode_event σ event = Some v →
  ∃ σ' b f, js_msgloop_body g event σ = Ok tt σ' ∧ wf g σ'
    ∧ collab_queue σ' = collab_queue σ ++ [Block b]
    ∧ heap σ !! b = None
    ∧ load_edit σ' (Block b) = Some {| file_buf := Some (curbuf g); fields := Some f |}
    ∧ edit_at σ' (Block b) = Some v
    ∧ (∀ t, edit_text f = Some t → ∃ b', t = Block b' ∧ heap σ !! b' = None)
    ∧ (∀ σ'', heap σ'' = heap σ' → edit_at σ'' (Block b) = Some v).
Proof.
  intros Hwf Hdec.
  destruct (js_msgloop_body_run g σ event Hwf) as (σ' & Hrun & Hwf' & Hq).
  rewrite Hdec in Hq.
  destruct Hq as (b & Hq & Hb & _ & _ & _ & f & Hload & Hv & Hfresh).
  exists σ', b, f. do 5 (split; [done|]).
  assert (∀ σ'', heap σ'' = heap σ' → edit_at σ'' (Block b) = Some v) as Hrobust.
  { intros σ'' Hh. unfold edit_at.
    replace (load_edit σ'' (Block b)) with (load_edit σ' (Block b))
      by (simpl; by rewrite Hh).
    rewrite Hload. simpl. rewrite (with_text_heap σ' σ''); [done..|].
    intros t Ht. destruct (Hfresh t Ht) as (b' & -> & _). eauto. }
  split; [by apply Hrobust|]. split; [|done].
  intros t Ht. destruct (Hfresh t Ht) as (b' & -> & Hb'). exists b'.
  split; [done|]. by apply Hwf.
Qed.

(** ** The host delivering a message *)

Lemma read_buf_bytes_of s rest :
  read_buf (bytes_of s ++ rest) (String.length s) = Some s.
Proof. induction s as [|c s IH]; simpl; [done|]. by rewrite IH. Qed.

Lemma entries_set_fmap {V W} (h : V → W) k x (es : list (string * V)) :
  prod_map id h <$> entries_set k x es
  = entries_set k (h x) (prod_map id h <$> es).
Proof.
  induction es as [|[k' y] es IH]; simpl; [done|].
  destruct (String.eqb k k'); simpl; [done|]. f_equal. apply IH.
Qed.

Lemma settled_keeps σ σ' x :
  (∀ y s, var_string σ y = Some s → var_string σ' y = Some s) →
  settled σ x → settled σ' x ∧ snapshot_value σ' x = snapshot_value σ x.
Proof.
  intros Hkeep [Hint|[s Hs]].
  - split; [by left|]. unfold snapshot_value. by rewrite Hint.
  - split; [right; by rewrite (Hkeep _ _ Hs)|].
    by rewrite (snapshot_value_string _ _ _ Hs),
               (snapshot_value_string _ _ _ (Hkeep _ _ Hs)).
Qed.

Lemma settled_entries_keep σ σ' (es : list (string * PP_Var)) :
  (∀ y s, var_string σ y = Some s → var_string σ' y = Some s) →
  Forall (λ kx, settled σ kx.2) es →
  Forall (λ kx, settled σ' kx.2) es
  ∧ prod_map id (snapshot_value σ') <$> es = prod_map id (snapshot_value σ) <$> es.
Proof.
  intros Hkeep. induction 1 as [|[k x] es Hx _ [IH1 IH2]]; [done|].
  destruct (settled_keeps σ σ' x Hkeep Hx) as [? Hsn]. split.
  - by constructor.
  - rewrite !fmap_cons, IH2. unfold prod_map at 1 3. simpl. by rewrite Hsn.
Qed.

Lemma settled_entries_set σ k x (es : list (string * PP_Var)) :
  settled σ x → Forall (λ kx, settled σ kx.2) es →
  Forall (λ kx, settled σ kx.2) (entries_set k x es).
Proof.
  intros Hx. induction 1 as [|[k' y] es Hy Hes IH]; simpl.
  - apply Forall_cons. split; [done|apply Forall_nil_2].
  - destruct (String.eqb k k'); apply Forall_cons; by split.
Qed.

(** A string the host makes into a var: a new var, and every var that was
    there stays. *)
Lemma VarFromUtf8_Static_run g σ0 σ dict es s :
  encoding g σ0 σ dict es → wire_value_ok (W_String s) →
  ∃ σ', ppb_var_VarFromUtf8 (Static s) (Z.of_nat (String.length s)) σ
        = Ok (string_var (last_var_id σ + 1)) σ'
        ∧ encoding g σ0 σ' dict es
        ∧ var_string σ' (string_var (last_var_id σ + 1)) = Some s
        ∧ ∀ y s', var_string σ y = Some s' → var_string σ' y = Some s'.
Proof.
  intros (Hwf & Hd & Hh & Hb & Hq & Hr & Hc & Hp & Hdr & Hkeep) [Hutf Hlen].
  assert (vars σ !! (last_var_id σ + 1) = None) as Hfresh
    by (apply (wf_var_ids _ _ Hwf); lia).
  unfold ppb_var_VarFromUtf8. simpl. rewrite Nat2Z.id, read_buf_bytes_of, Hutf.
  destruct (Z.ltb_spec (Z.of_nat (String.length s)) (2 ^ 32 - 1)); [|lia].
  eexists. split; [reflexivity|]. split; [|split].
  - split; [apply wf_vars_alloc; [done|by intros ? [= <-]]|].
    split.
    { unfold var_entries in *. simpl. destruct (is_dictionary (type dict)); [|done].
      rewrite lookup_insert_ne; [done|]. intros E. by rewrite <- E, Hfresh in Hd. }
    do 7 (split; [done|]).
    intros id s' Hid. simpl. apply Hkeep in Hid. rewrite lookup_insert_ne; [done|].
    intros E. by rewrite <- E, Hfresh in Hid.
  - unfold var_string. simpl. by rewrite lookup_insert_eq.
  - intros y s' Hy. pose proof (var_string_lookup _ _ _ Hy) as Hl.
    unfold var_string in *. simpl. destruct (is_string (type y)); [|done].
    rewrite lookup_insert_ne, Hl; [done|]. intros E. by rewrite <- E, Hfresh in Hl.
Qed.

(** A value of the wire schema becomes a handle that reads back as it. *)
Lemma deliver_value_run g σ0 σ dict es w :
  encoding g σ0 σ dict es → wire_value_ok w →
  ∃ x σ', deliver_value w σ = Ok x σ'
          ∧ encoding g σ0 σ' dict es
          ∧ settled σ' x ∧ snapshot_value σ' x = w
          ∧ ∀ y s', var_string σ y = Some s' → var_string σ' y = Some s'.
Proof.
  intros Henc Hw. destruct w as [| | |n| |s|]; try done.
  - exists (PP_MakeInt32 n), σ. split; [done|]. split; [done|].
    split; [by left|]. split; [|done].
    rewrite snapshot_value_int. f_equal. simpl in Hw.
    rewrite <- (sint32_uint32 n Hw) at 2.
    unfold sint32, uint32. by rewrite Z.mod_mod by lia.
  - destruct (VarFromUtf8_Static_run g σ0 σ dict es s Henc Hw)
      as (σ' & Hrun & Henc' & Hs & Hkeep).
    eexists _, σ'. split; [apply Hrun|]. split; [done|].
    split; [right; by rewrite Hs|]. split; [by apply snapshot_value_string|done].
Qed.

Lemma deliver_entries_run g σ0 dict m :
  Forall wire_entry_ok m →
  ∀ σ es, encoding g σ0 σ dict es → Forall (λ kx, settled σ kx.2) es →
  ∃ σ' es', deliver_entries dict m σ = Ok tt σ'
            ∧ encoding g σ0 σ' dict es'
            ∧ prod_map id (snapshot_value σ') <$> es'
              = assigned (prod_map id (snapshot_value σ) <$> es) m.
Proof.
  induction 1 as [|[k w] m [Hk Hw] _ IH]; intros σ es Henc Hes; simpl in *.
  - by exists σ, es.
  - destruct (VarFromUtf8_Static_run g σ0 σ dict es k Henc Hk)
      as (σ1 & R1 & Henc1 & Hkey & Hkeep1).
    destruct (deliver_value_run g σ0 σ1 dict es w Henc1 Hw)
      as (x & σ2 & R2 & Henc2 & Hx & Hsx & Hkeep2).
    destruct (ppb_dict_Set_run g σ0 σ2 dict es (string_var (last_var_id σ + 1)) k x Henc2)
      as (σ3 & R3 & Henc3 & Hsame); [by apply Hkeep2|].
    assert (∀ y s, var_string σ y = Some s → var_string σ3 y = Some s) as Hkeep.
    { intros y s Hy. rewrite Hsame. by apply Hkeep2, Hkeep1. }
    assert (∀ y s, var_string σ2 y = Some s → var_string σ3 y = Some s) as Hkeep3.
    { intros y s Hy. by rewrite Hsame. }
    destruct (settled_entries_keep σ σ3 es Hkeep Hes) as [Hes3 Hsn].
    destruct (settled_keeps σ2 σ3 x Hkeep3 Hx) as [Hx3 Hsx3].
    destruct (IH σ3 (entries_set k x es) Henc3 (settled_entries_set _ _ _ _ Hx3 Hes3))
      as (σ' & es' & R & Henc' & Hsnap).
    exists σ', es'. split.
    { erewrite bind_run by apply R1. erewrite bind_run by apply R2.
      by erewrite bind_run by apply R3. }
    split; [done|]. rewrite Hsnap, entries_set_fmap, Hsn, Hsx3, Hsx. done.
Qed.

(** Every mapping of strings and 32-bit integers can be delivered: the
    host builds the var of an event that carries it, keeps the invariant,
    and leaves the heap and the queue alone. *)
Lemma deliver_run g ρ m :
  wf g ρ → Forall wire_entry_ok m →
  ∃ event ρ', deliver (Mapping m) ρ = Ok event ρ' ∧ wf g ρ'
              ∧ snapshot ρ' (as_var event) = Mapping (assigned [] m)
              ∧ heap ρ' = heap ρ ∧ collab_queue ρ' = collab_queue ρ.
Proof.
  intros [Hv Hh] Hm. unfold deliver, ppb_dict_Create.
  erewrite bind_run by reflexivity.
  set (dict := {| type := PP_VARTYPE_DICTIONARY; value := last_var_id ρ + 1 |}).
  assert (vars ρ !! (last_var_id ρ + 1) = None) as Hfresh
    by (apply (wf_var_ids _ _ Hv); lia).
  destruct (deliver_entries_run g ρ dict m Hm
              (set_vars <[last_var_id ρ + 1 := DictionaryVar []]> (last_var_id ρ + 1) ρ)
              []) as (σ' & es' & R & Henc & Hsnap).
  { split; [by apply wf_vars_alloc|].
    split; [unfold var_entries; simpl; by rewrite lookup_insert_eq|].
    do 7 (split; [done|]).
    intros id s Hid. simpl. rewrite lookup_insert_ne; [done|].
    intros E. by rewrite <- E, Hfresh in Hid. }
  { constructor. }
  erewrite bind_run by apply R.
  destruct Henc as (Hwf' & Hd & Hh' & Hb' & Hq' & _).
  eexists _, σ'. split; [reflexivity|].
  split; [split; [done|]; intros b; rewrite Hh', Hb'; apply Hh|].
  split; [|done]. simpl. unfold snapshot. by rewrite Hd, Hsnap.
Qed.

(** In particular the message of the spec for an edit whose integers are
    32-bit and whose text is UTF-8. *)
Lemma deliver_spec_message g ρ v :
  wf g ρ → constructible v →
  ∃ event ρ', deliver (spec_message v) ρ = Ok event ρ' ∧ wf g ρ'
              ∧ snapshot ρ' (as_var event) = spec_message v
              ∧ heap ρ' = heap ρ ∧ collab_queue ρ' = collab_queue ρ.
Proof.
  intros Hwf (Hl & Hi & Hn & Ht).
  assert (∀ n, in_range n → wire_value_ok (W_Int32 n)) as Hint
    by (intros n [? ?]; simpl; lia).
  assert (∀ s, edit_text v = Some s → wire_value_ok (W_String s)) as Htext
    by (intros s Hs; apply (Ht s Hs)).
  assert (∀ k : string, is_utf8 k = true →
            (Z.of_nat (String.length k) <? 2 ^ 32 - 1) = true →
            wire_value_ok (W_String k)) as Hkey.
  { intros k ? Hk. split; [done|]. by apply Z.ltb_lt. }
  unfold spec_message.
  destruct v as [l t|l i t|l|l i n|l t];
    cbn [with_text default from_option id fmap option_fmap option_map spec_wire
         edit_type spec_discriminator compose];
    match goal with
    | |- context [Mapping ?m] =>
        destruct (deliver_run g ρ m Hwf) as (event & ρ' & ? & ? & Hs & ? & ?);
          [|exists event, ρ'; replace (assigned [] m) with m in Hs
                                by (vm_compute; reflexivity);
            do 4 (split; [assumption|]); assumption]
    end.
  all: repeat (apply Forall_cons_2; [split|]); try apply Forall_nil_2.
  all: cbn [fst snd edit_type spec_discriminator].
  all: lazymatch goal with
       | |- wire_value_ok (W_Int32 _) =>
           apply Hint; first [exact Hl | apply Hi; reflexivity | apply Hn; reflexivity]
       | |- wire_value_ok (W_String (String _ _)) => apply Hkey; vm_compute; reflexivity
       | |- wire_value_ok (W_String _) => apply Htext; reflexivity
       end.
Qed.

(** ** Edits as values *)

Lemma sint32_small n : in_range n → sint32 n = n.
Proof.
  intros [? ?]. unfold sint32. rewrite Z.mod_small by lia.
  destruct (Z.ltb_spec n (2 ^ 31)); [done|lia].
Qed.

Lemma edit_at_inv σ edit v :
  edit_at σ edit = Some v →
  ∃ e f, load_edit σ edit = Some e ∧ fields e = Some f
         ∧ with_text (cstring_at σ) f = Some v.
Proof.
  unfold edit_at. destruct (load_edit σ edit) as [e|]; [|done]. simpl.
  destruct (fields e) as [f|] eqn:Hf; [|done]. simpl. intros Hv. by exists e, f.
Qed.

(** A text read out of memory is a C string: it has no NUL in it. *)
Lemma edit_at_no_NUL σ edit v s :
  edit_at σ edit = Some v → edit_text v = Some s → until_NUL s = s.
Proof.
  intros (e & f & _ & _ & Hv)%edit_at_inv Hs.
  assert (∀ t, cstring_at σ t = Some s → until_NUL s = s) as Hc.
  { intros t. unfold cstring_at. destruct (buffer σ t); [|done]. simpl.
    apply until_NUL_cstring. }
  destruct f; simpl in Hv;
    try (destruct (cstring_at σ text) eqn:E; [|done]);
    simpl in Hv; injection Hv as <-; simpl in Hs; try done;
    injection Hs as <-; eauto.
Qed.

(** For an edit that can be constructed, what goes on the wire is the
    message of the spec. *)
Lemma on_wire_constructible v :
  constructible v → Mapping (spec_wire (on_wire v)) = spec_message v.
Proof.
  intros (Hl & Hi & Hn & Ht). unfold spec_message.
  assert (∀ s, edit_text v = Some s → wire_text s = W_String s) as Hw.
  { intros s [Hu Hlen]%Ht. unfold wire_text. rewrite Hu.
    by destruct (Z.ltb_spec (Z.of_nat (String.length s)) (2 ^ 32 - 1)); [|lia]. }
  destruct v; simpl in *;
    rewrite ?(sint32_small line) by done;
    rewrite ?(sint32_small index) by eauto;
    rewrite ?(sint32_small length) by eauto;
    rewrite ?Hw by done; done.
Qed.

Lemma decode_event_text σ event v m s s' :
  decode_event σ event = Some v → snapshot σ (as_var event) = Mapping m →
  entries_get "text" m = Some (W_String s) → edit_text v = Some s' →
  s' = until_NUL s.
Proof.
  intros Hdec (es & Hd & ->)%snapshot_Mapping Ht Hs'.
  unfold decode_event in Hdec. rewrite Hd in Hdec. simpl in Hdec.
  unfold decode_entries in Hdec.
  rewrite <- (text_of_string σ (field es "text") s) by by apply field_string.
  destruct (var_string σ (field es "collabedit_type")); [|done].
  repeat match type of Hdec with
         | (if ?c then _ else _) = _ => destruct c
         end; try done; injection Hdec as <-; simpl in Hs'; congruence.
Qed.

(** Where the round trip ends: a text that is not UTF-8 is refused by
    [VarFromUtf8], and the message goes out with the null var as its
    text. *)
Example text_that_is_not_utf8_goes_as_null :
  ∃ σ', collab_remoteapply started_globals (Block 2)
          (holding latin1_text (append_line 4) started) = Ok tt σ'
        ∧ posted σ' = [Mapping [("collabedit_type"%string, W_String "append_line");
                                ("line"%string, W_Int32 4);
                                ("text"%string, W_Null)]].
Proof. eexists. split; vm_compute; reflexivity. Qed.


(** ** What a decoded edit holds *)

(** The fields [parse_collabedit] fills in are read from the entries under
    the four keys, whatever the variant. *)
Lemma decode_entries_fields σ es v :
  decode_entries σ es = Some v →
  edit_line v = as_int (field es "line")
  ∧ (∀ i, edit_index v = Some i → i = as_int (field es "index"))
  ∧ (∀ n, edit_length v = Some n → n = as_int (field es "length"))
  ∧ (∀ s, edit_text v = Some s → s = text_of σ (field es "text")).
Proof.
  unfold decode_entries.
  destruct (var_string σ (field es "collabedit_type")); [|done].
  repeat match goal with
         | |- (if ?c then _ else _) = _ → _ => destruct c
         end; try done; intros [= <-]; simpl;
    (split; [done|]); repeat split; congruence.
Qed.

(** An edit has the fields of its variant (the table of section 4.2). *)
Lemma edit_fields_present {T} (v : collab_fields T) :
  (In "index"%string (spec_keys (edit_type v)) → is_Some (edit_index v))
  ∧ (In "length"%string (spec_keys (edit_type v)) → is_Some (edit_length v))
  ∧ (In "text"%string (spec_keys (edit_type v)) → is_Some (edit_text v)).
Proof.
  destruct v; simpl; repeat split; intros H; eauto;
    repeat (destruct H as [H|H]; [discriminate H|]); done.
Qed.

(** Reading the texts of an edit out of memory keeps the variant, and the
    text read is the string at the text pointer. *)
Lemma with_text_inv {T U} (h : T → option U) (f : collab_fields T) v :
  with_text h f = Some v →
  edit_type f = edit_type v
  ∧ ∀ p, edit_text f = Some p → ∃ s, h p = Some s ∧ edit_text v = Some s.
Proof.
  destruct f as [l t|l i t|l|l i n|l t]; simpl;
    try (destruct (h t) as [s|] eqn:E; [|done]); simpl;
    intros [= <-]; (split; [done|]); intros p; try done;
    intros [= <-]; eauto.
Qed.
(** * The properties of the specification *)

(** C1 — Round trip.  For every edit in the sender's memory that can be
    constructed (line, index and length non-negative 32-bit values, text
    UTF-8), [collab_remoteapply] hands one message to [PostMessage]; the
    host can deliver that message to any receiver; and in any receiver a
    turn of [js_msgloop] on an event carrying it queues a pointer to an
    edit that is equal to the sender's, variant and field for field.  Its
    [file_buf], which the message does not carry, is the receiver's
    [curbuf]. *)
Theorem round_trip g σ edit v :
  wf g σ → edit_at σ edit = Some v → constructible v →
  ∃ σ' m, collab_remoteapply g edit σ = Ok tt σ' ∧ handed σ σ' m
    ∧ (∀ g' ρ, wf g' ρ →
         ∃ event ρ1, deliver m ρ = Ok event ρ1 ∧ wf g' ρ1
                     ∧ snapshot ρ1 (as_var event) = m)
    ∧ ∀ g' ρ event, wf g' ρ → snapshot ρ (as_var event) = m →
        ∃ ρ' edit', js_msgloop_body g' event ρ = Ok tt ρ'
          ∧ collab_queue ρ' = collab_queue ρ ++ [edit']
          ∧ edit_at ρ' edit' = Some v
          ∧ file_buf_at ρ' edit' = Some (curbuf g').
Proof.
  intros Hwf Hv Hc.
  destruct (edit_at_inv _ _ _ Hv) as (e & f & He & Hf & Hfv).
  destruct (collab_remoteapply_run g σ edit e f v (proj1 Hwf) He Hf Hfv)
    as (σ' & Hrun & _ & _ & _ & _ & _ & _ & Hm).
  rewrite on_wire_constructible in Hm by done.
  exists σ', (spec_message v). do 2 (split; [done|]).
  split.
  { intros g' ρ Hwf'.
    destruct (deliver_spec_message g' ρ v Hwf' Hc) as (event & ρ1 & ? & ? & ? & _).
    by exists event, ρ1. }
  intros g' ρ event Hwf' Hsnap.
  destruct (js_msgloop_body_queues g' ρ event v Hwf')
    as (ρ' & b & f' & ? & _ & ? & _ & Hload & ? & _).
  { apply decode_spec_message; [done|]. intros s. by eapply edit_at_no_NUL. }
  exists ρ', (Block b). do 3 (split; [done|]).
  unfold file_buf_at. by rewrite Hload.
Qed.

Lemma round_trip_witness :
  wf started_globals hello_sender
  ∧ edit_at hello_sender (Block 2) = Some hello
  ∧ constructible hello
  ∧ ∃ ρ' edit',
      js_msgloop_body started_globals hello_received.1 hello_received.2 = Ok tt ρ'
      ∧ collab_queue ρ' = collab_queue hello_received.2 ++ [edit']
      ∧ edit_at ρ' edit' = Some hello
      ∧ file_buf_at ρ' edit' = Some (curbuf started_globals).
Proof.
  assert (wf started_globals hello_sender) as Hwf
    by (apply wf_check_sound; vm_compute; reflexivity).
  assert (edit_at hello_sender (Block 2) = Some hello) as He
    by (vm_compute; reflexivity).
  assert (constructible hello) as Hc.
  { split; [by vm_compute|]. do 2 (split; [done|]).
    intros s [= <-]. by vm_compute. }
  do 3 (split; [assumption|]).
  destruct (round_trip _ _ _ _ Hwf He Hc) as (σ' & m & Hrun & Hm & _ & Hdec).
  apply Hdec; [apply wf_check_sound; vm_compute; reflexivity|].
  vm_compute in Hrun. injection Hrun as <-.
  vm_compute in Hm. destruct Hm as [Hm _]. injection Hm as <-.
  vm_compute. reflexivity.
Defined.

(** C2 — as stated this fails: the loop has no check on the sign of line,
    index or length.  Here the message [{collabedit_type:"remove_line",
    line:-3}] is decoded and [RemoveLine{line=-3}] is queued. *)
Lemma negative_line_is_queued :
  ∃ ρ' edit',
    js_msgloop_body started_globals (receive negative_line started).1
                    (receive negative_line started).2 = Ok tt ρ'
    ∧ collab_queue ρ' = [edit']
    ∧ edit_at ρ' edit' = Some (remove_line (-3)).
Proof.
  eexists _, _. split; [vm_compute; reflexivity|].
  split; vm_compute; reflexivity.
Qed.

(** C2, amended — For every event whose message names one of the five
    variants, whatever the signs of its line, index and length, a turn of
    the loop does not fail: it queues a pointer to an edit of that
    variant.  Each of line, index and length that the message gives as a
    32-bit integer is in the edit with exactly the message's value,
    negative ones included; a text that the message gives as a string is
    in the edit up to its first NUL byte. *)
Theorem decode_keeps_wire_integers g ρ event m t :
  wf g ρ → snapshot ρ (as_var event) = Mapping m →
  entries_get "collabedit_type" m = Some (W_String (spec_discriminator t)) →
  ∃ ρ' edit' v, js_msgloop_body g event ρ = Ok tt ρ'
    ∧ collab_queue ρ' = collab_queue ρ ++ [edit']
    ∧ edit_at ρ' edit' = Some v ∧ edit_type v = t
    ∧ (∀ n, entries_get "line" m = Some (W_Int32 n) → edit_line v = n)
    ∧ (∀ n, entries_get "index" m = Some (W_Int32 n) →
            In "index"%string (spec_keys t) → edit_index v = Some n)
    ∧ (∀ n, entries_get "length" m = Some (W_Int32 n) →
            In "length"%string (spec_keys t) → edit_length v = Some n)
    ∧ (∀ s, entries_get "text" m = Some (W_String s) →
            In "text"%string (spec_keys t) → edit_text v = Some (until_NUL s)).
Proof.
  intros Hwf Hs Ht.
  destruct (decode_recognised ρ event m t Hs Ht) as (v & Hdec & Hty & _).
  destruct (js_msgloop_body_queues g ρ event v Hwf Hdec)
    as (ρ' & b & f & Hrun & _ & Hq & _ & _ & Hat & _).
  exists ρ', (Block b), v. do 4 (split; [done|]).
  apply snapshot_Mapping in Hs as (es & Hd & ->).
  unfold decode_event in Hdec. rewrite Hd in Hdec. simpl in Hdec.
  destruct (decode_entries_fields _ _ _ Hdec) as (Hl & Hi & Hn & Htx).
  destruct (edit_fields_present v) as (Pi & Pn & Pt). rewrite Hty in Pi, Pn, Pt.
  split; [|split; [|split]].
  - intros n Hk. rewrite Hl. by eapply field_int.
  - intros n Hk Hin. destruct (Pi Hin) as [i Hv]. rewrite Hv, (Hi _ Hv).
    f_equal. by eapply field_int.
  - intros n Hk Hin. destruct (Pn Hin) as [i Hv]. rewrite Hv, (Hn _ Hv).
    f_equal. by eapply field_int.
  - intros s Hk Hin. destruct (Pt Hin) as [s' Hv]. rewrite Hv, (Htx _ Hv).
    f_equal. apply text_of_string. by eapply field_string.
Qed.

Lemma decode_keeps_wire_integers_witness :
  wf started_globals (receive nul_text started).2
  ∧ snapshot (receive nul_text started).2 (as_var (receive nul_text started).1)
    = nul_text
  ∧ entries_get "collabedit_type"
      [("collabedit_type"%string, W_String "append_line");
       ("line"%string, W_Int32 (-1));
       ("text"%string, W_String (String "a" (String "b" (String NUL "cd"))))]
    = Some (W_String (spec_discriminator COLLAB_APPEND_LINE))
  ∧ ∃ ρ' edit' v,
      js_msgloop_body started_globals (receive nul_text started).1
                      (receive nul_text started).2 = Ok tt ρ'
      ∧ collab_queue ρ' = collab_queue (receive nul_text started).2 ++ [edit']
      ∧ edit_at ρ' edit' = Some v ∧ edit_type v = COLLAB_APPEND_LINE
      ∧ edit_line v = -1
      ∧ edit_text v = Some "ab"%string.
Proof.
  assert (wf started_globals (receive nul_text started).2) as Hwf
    by (apply wf_check_sound; vm_compute; reflexivity).
  assert (snapshot (receive nul_text started).2
                   (as_var (receive nul_text started).1) = nul_text) as Hm
    by (vm_compute; reflexivity).
  do 2 (split; [assumption|]). split; [reflexivity|].
  destruct (decode_keeps_wire_integers _ _ _ _ COLLAB_APPEND_LINE Hwf Hm eq_refl)
    as (ρ' & edit' & v & ? & ? & ? & ? & Hl & _ & _ & Ht).
  exists ρ', edit', v. do 4 (split; [assumption|]).
  split; [by apply Hl|].
  apply (Ht (String "a" (String "b" (String NUL "cd")))); [reflexivity|].
  simpl. auto.
Defined.

(** C3 — as stated this fails: the loop never looks whether a key is there.
    Here [{collabedit_type:"insert_text", line:2, text:"x"}], without
    "index", is decoded and [InsertText{line=2, index=0, text="x"}] is
    queued. *)
Lemma missing_index_is_queued :
  ∃ ρ' edit',
    js_msgloop_body started_globals (receive no_index started).1
                    (receive no_index started).2 = Ok tt ρ'
    ∧ collab_queue ρ' = [edit']
    ∧ edit_at ρ' edit' = Some (insert_text 2 0 "x"%string).
Proof.
  eexists _, _. split; [vm_compute; reflexivity|].
  split; vm_compute; reflexivity.
Qed.

(** C3, amended — For every event whose message is a mapping with one of
    the five discriminators, a turn of the loop queues a pointer to an edit
    of that kind, whatever else the message holds: a line, index or length
    the message lacks is 0 in the edit, and a text it lacks, or has as
    something else than a string, is the empty string. *)
Theorem decode_fills_absent_fields g ρ event m t :
  wf g ρ → snapshot ρ (as_var event) = Mapping m →
  entries_get "collabedit_type" m = Some (W_String (spec_discriminator t)) →
  ∃ ρ' edit' v, js_msgloop_body g event ρ = Ok tt ρ'
    ∧ collab_queue ρ' = collab_queue ρ ++ [edit']
    ∧ edit_at ρ' edit' = Some v ∧ edit_type v = t
    ∧ (entries_get "line" m = None → edit_line v = 0)
    ∧ (entries_get "index" m = None → ∀ i, edit_index v = Some i → i = 0)
    ∧ (entries_get "length" m = None → ∀ n, edit_length v = Some n → n = 0)
    ∧ (entries_get "text" m = None →
       ∀ s, edit_text v = Some s → s = EmptyString)
    ∧ (∀ w, entries_get "text" m = Some w → (∀ s, w ≠ W_String s) →
       ∀ s, edit_text v = Some s → s = EmptyString).
Proof.
  intros Hwf Hm Ht.
  destruct (decode_recognised ρ event m t Hm Ht) as (v & Hdec & Hv).
  destruct (js_msgloop_body_queues g ρ event v Hwf Hdec)
    as (ρ' & b & f & ? & _ & ? & _ & _ & ? & _).
  by exists ρ', (Block b), v.
Qed.

Lemma decode_fills_absent_fields_witness :
  wf started_globals (receive no_index started).2
  ∧ snapshot (receive no_index started).2 (as_var (receive no_index started).1)
    = no_index
  ∧ entries_get "collabedit_type"
      [("collabedit_type"%string, W_String "insert_text");
       ("line"%string, W_Int32 2); ("text"%string, W_String "x")]
    = Some (W_String (spec_discriminator COLLAB_INSERT_TEXT))
  ∧ ∃ ρ' edit' v,
      js_msgloop_body started_globals (receive no_index started).1
                      (receive no_index started).2 = Ok tt ρ'
      ∧ collab_queue ρ' = collab_queue (receive no_index started).2 ++ [edit']
      ∧ edit_at ρ' edit' = Some v ∧ edit_type v = COLLAB_INSERT_TEXT
      ∧ ∀ i, edit_index v = Some i → i = 0.
Proof.
  assert (wf started_globals (receive no_index started).2) as Hwf
    by (apply wf_check_sound; vm_compute; reflexivity).
  assert (snapshot (receive no_index started).2
                   (as_var (receive no_index started).1) = no_index) as Hm
    by (vm_compute; reflexivity).
  do 2 (split; [assumption|]). split; [reflexivity|].
  destruct (decode_fills_absent_fields _ _ _ _ COLLAB_INSERT_TEXT Hwf Hm eq_refl)
    as (ρ' & edit' & v & ? & ? & ? & ? & _ & Hi & _ & _ & _).
  exists ρ', edit', v. do 4 (split; [assumption|]). by apply Hi.
Defined.

(** C4 — On every sequence of events, whatever their vars hold, the loop
    does not fault and does not return: each turn ends, the invariant of
    the state is kept, and the thread is left waiting for the next event.
    Each event adds at most one edit to the queue. *)
Theorem js_msgloop_never_stops g events σ :
  wf g σ →
  ∃ σ', js_msgloop g events σ = Waiting σ' ∧ wf g σ'
    ∧ ∃ new, collab_queue σ' = collab_queue σ ++ new
             ∧ (length new ≤ length events)%nat.
Proof.
  revert σ. induction events as [|event events IH]; intros σ Hwf; simpl.
  - exists σ. split; [done|]. split; [done|]. exists []. by rewrite app_nil_r.
  - destruct (js_msgloop_body_run g σ event Hwf) as (σ1 & -> & Hwf1 & Hq).
    destruct (IH σ1 Hwf1) as (σ' & -> & Hwf' & new & Hq' & Hlen).
    exists σ'. split; [done|]. split; [done|].
    destruct (decode_event σ event).
    + destruct Hq as (b & Hq & _). exists (Block b :: new).
      rewrite Hq', Hq, <- app_assoc. split; [done|]. simpl. lia.
    + exists new. rewrite Hq', Hq. split; [done|]. lia.
Qed.

Lemma js_msgloop_never_stops_witness :
  wf started_globals odd_state
  ∧ ∃ σ', js_msgloop started_globals odd_events odd_state = Waiting σ'
      ∧ wf started_globals σ'
      ∧ ∃ new, collab_queue σ' = collab_queue odd_state ++ new
               ∧ (length new ≤ length odd_events)%nat.
Proof.
  assert (wf started_globals odd_state) as Hwf
    by (apply wf_check_sound; vm_compute; reflexivity).
  split; [assumption|].
  exact (js_msgloop_never_stops started_globals odd_events odd_state Hwf).
Defined.

(** C5 — For every event whose message is not a mapping, or is a mapping
    without "collabedit_type" (NotAnEdit), or has a discriminator that is
    none of the five strings (UnknownKind), the turn ends without a fault,
    the queue is as it was, and the loop goes on with the events that
    follow. *)
Theorem undecoded_is_not_queued g ρ event :
  wf g ρ →
  NotAnEdit (snapshot ρ (as_var event)) ∨ UnknownKind (snapshot ρ (as_var event)) →
  ∃ ρ', js_msgloop_body g event ρ = Ok tt ρ'
    ∧ collab_queue ρ' = collab_queue ρ
    ∧ ∀ events, js_msgloop g (event :: events) ρ = js_msgloop g events ρ'.
Proof.
  intros Hwf Hm.
  destruct (js_msgloop_body_run g ρ event Hwf) as (ρ' & Hrun & _ & Hq).
  assert (decode_event ρ event = None) as Hdec.
  { unfold decode_event. revert Hm.
    destruct (snapshot ρ (as_var event)) as [w|m] eqn:Hs; intros Hm.
    - by rewrite (snapshot_Plain _ _ _ Hs).
    - apply snapshot_Mapping in Hs as (es & -> & ->). simpl.
      destruct Hm as [Hm|(w & Hw & Hno)]; simpl in *.
      + apply decode_entries_no_key. rewrite entries_get_snapshot in Hm.
        by destruct (entries_get "collabedit_type" es).
      + unfold decode_entries.
        destruct (var_string ρ (field es "collabedit_type")) as [s|] eqn:E; [|done].
        apply snapshot_value_string in E.
        rewrite (field_present _ _ _ _ Hw) in E. subst w.
        destruct (String.eqb_spec s "append_line") as [->|];
          [by destruct (Hno COLLAB_APPEND_LINE)|].
        destruct (String.eqb_spec s "insert_text") as [->|];
          [by destruct (Hno COLLAB_INSERT_TEXT)|].
        destruct (String.eqb_spec s "remove_line") as [->|];
          [by destruct (Hno COLLAB_REMOVE_LINE)|].
        destruct (String.eqb_spec s "delete_text") as [->|];
          [by destruct (Hno COLLAB_DELETE_TEXT)|].
        destruct (String.eqb_spec s "replace_line") as [->|];
          [by destruct (Hno COLLAB_REPLACE_LINE)|]. done. }
  rewrite Hdec in Hq. exists ρ'. do 2 (split; [done|]).
  intros events. simpl. by rewrite Hrun.
Qed.

Lemma undecoded_is_not_queued_witness :
  wf started_globals (receive frobnicate started).2
  ∧ UnknownKind (snapshot (receive frobnicate started).2
                          (as_var (receive frobnicate started).1))
  ∧ ∃ ρ', js_msgloop_body started_globals (receive frobnicate started).1
                          (receive frobnicate started).2 = Ok tt ρ'
      ∧ collab_queue ρ' = collab_queue (receive frobnicate started).2
      ∧ ∀ events,
          js_msgloop started_globals ((receive frobnicate started).1 :: events)
                     (receive frobnicate started).2
          = js_msgloop started_globals events ρ'.
Proof.
  assert (wf started_globals (receive frobnicate started).2) as Hwf
    by (apply wf_check_sound; vm_compute; reflexivity).
  assert (UnknownKind (snapshot (receive frobnicate started).2
                                (as_var (receive frobnicate started).1))) as Hm.
  { assert (snapshot (receive frobnicate started).2
                     (as_var (receive frobnicate started).1) = frobnicate) as ->
      by (vm_compute; reflexivity).
    exists (W_String "frobnicate"). split; [reflexivity|]. by intros []. }
  do 2 (split; [assumption|]).
  exact (undecoded_is_not_queued _ _ _ Hwf (or_intror Hm)).
Defined.

(** C6 — For every edit in memory whose texts can be read,
    [collab_remoteapply] hands [PostMessage] one mapping; its keys are
    exactly those the table of the spec lists for the variant, and under
    "collabedit_type" is the string of the variant. *)
Theorem encode_keys g σ edit v :
  wf g σ → edit_at σ edit = Some v →
  ∃ σ' m, collab_remoteapply g edit σ = Ok tt σ' ∧ handed σ σ' (Mapping m)
    ∧ m.*1 = spec_keys (edit_type v)
    ∧ entries_get "collabedit_type" m
      = Some (W_String (spec_discriminator (edit_type v))).
Proof.
  intros Hwf Hv.
  destruct (edit_at_inv _ _ _ Hv) as (e & f & He & Hf & Hfv).
  destruct (collab_remoteapply_run g σ edit e f v (proj1 Hwf) He Hf Hfv)
    as (σ' & Hrun & _ & _ & _ & _ & _ & _ & Hm).
  exists σ', (spec_wire (on_wire v)). do 2 (split; [done|]).
  by destruct v.
Qed.

Lemma encode_keys_witness :
  wf started_globals hello_sender
  ∧ edit_at hello_sender (Block 2) = Some hello
  ∧ ∃ σ' m, collab_remoteapply started_globals (Block 2) hello_sender = Ok tt σ'
      ∧ handed hello_sender σ' (Mapping m)
      ∧ m.*1 = spec_keys (edit_type hello)
      ∧ entries_get "collabedit_type" m
        = Some (W_String (spec_discriminator (edit_type hello))).
Proof.
  assert (wf started_globals hello_sender) as Hwf
    by (apply wf_check_sound; vm_compute; reflexivity).
  assert (edit_at hello_sender (Block 2) = Some hello) as He
    by (vm_compute; reflexivity).
  do 2 (split; [assumption|]).
  exact (encode_keys _ _ _ _ Hwf He).
Defined.

(** C7 — as stated this fails for a text with a NUL byte in it:
    [var_to_cstr] makes a C string, which ends at the first NUL.  Here the
    message carries the five bytes "ab", NUL, "cd" as its text, and the
    edit that is queued has the text "ab". *)
Lemma text_with_NUL_is_cut :
  snapshot (receive nul_text started).2 (as_var (receive nul_text started).1)
  = nul_text
  ∧ ∃ ρ' edit',
      js_msgloop_body started_globals (receive nul_text started).1
                      (receive nul_text started).2 = Ok tt ρ'
      ∧ collab_queue ρ' = [edit']
      ∧ edit_at ρ' edit' = Some (append_line (-1) "ab"%string).
Proof.
  split; [vm_compute; reflexivity|].
  eexists _, _. split; [vm_compute; reflexivity|].
  split; vm_compute; reflexivity.
Qed.

(** C7, amended — For every event whose message names a variant with a
    text, a turn of the loop queues an edit of that variant whose text is
    in a heap block of its own: the text pointer of the struct leads to a
    block that was free before the turn, not into the buffer of the
    message's string var.  When the message gives the text as a string,
    the block holds the bytes of that string up to its first NUL (all of
    them when there is none).  Whatever becomes of the var table
    afterwards - the message changed or released - the edit reads the
    same. *)
Theorem queued_text_is_owned g ρ event m t :
  wf g ρ → snapshot ρ (as_var event) = Mapping m →
  entries_get "collabedit_type" m = Some (W_String (spec_discriminator t)) →
  In "text"%string (spec_keys t) →
  ∃ ρ' edit' e f b v text,
    js_msgloop_body g event ρ = Ok tt ρ'
    ∧ collab_queue ρ' = collab_queue ρ ++ [edit']
    ∧ load_edit ρ' edit' = Some e ∧ fields e = Some f ∧ edit_type f = t
    ∧ edit_text f = Some (Block b) ∧ heap ρ !! b = None
    ∧ cstring_at ρ' (Block b) = Some text
    ∧ edit_at ρ' edit' = Some v ∧ edit_text v = Some text
    ∧ (∀ s, entries_get "text" m = Some (W_String s) → text = until_NUL s)
    ∧ (∀ ρ'', heap ρ'' = heap ρ' → edit_at ρ'' edit' = Some v).
Proof.
  intros Hwf Hs Ht Hin.
  destruct (decode_recognised ρ event m t Hs Ht) as (v & Hdec & Hty & _).
  destruct (js_msgloop_body_queues g ρ event v Hwf Hdec)
    as (ρ' & b0 & f & Hrun & _ & Hq & _ & Hload & Hat & Hfresh & Hrobust).
  pose proof Hat as (e' & f' & Hload' & Hf' & Hwt)%edit_at_inv.
  rewrite Hload in Hload'. injection Hload' as <-. simpl in Hf'.
  injection Hf' as <-.
  destruct (with_text_inv _ _ _ Hwt) as [Htype Htext].
  rewrite Hty in Htype.
  destruct (edit_fields_present f) as (_ & _ & Pt).
  rewrite Htype in Pt. destruct (Pt Hin) as [p Hp].
  destruct (Hfresh p Hp) as (b & -> & Hb).
  destruct (Htext _ Hp) as (text & Hc & Hv).
  eexists ρ', (Block b0), _, f, b, v, text.
  do 2 (split; [done|]). split; [exact Hload|]. do 7 (split; [done|]).
  split; [|done].
  intros s Hk. by eapply decode_event_text.
Qed.

Lemma queued_text_is_owned_witness :
  wf started_globals hello_received.2
  ∧ snapshot hello_received.2 (as_var hello_received.1)
    = Mapping [("collabedit_type"%string, W_String "append_line");
               ("line"%string, W_Int32 4); ("text"%string, W_String "hello")]
  ∧ entries_get "collabedit_type"
      [("collabedit_type"%string, W_String "append_line");
       ("line"%string, W_Int32 4); ("text"%string, W_String "hello")]
    = Some (W_String (spec_discriminator COLLAB_APPEND_LINE))
  ∧ In "text"%string (spec_keys COLLAB_APPEND_LINE)
  ∧ ∃ ρ' edit' e f b v,
      js_msgloop_body started_globals hello_received.1 hello_received.2 = Ok tt ρ'
      ∧ collab_queue ρ' = collab_queue hello_received.2 ++ [edit']
      ∧ load_edit ρ' edit' = Some e ∧ fields e = Some f
      ∧ edit_type f = COLLAB_APPEND_LINE
      ∧ edit_text f = Some (Block b) ∧ heap hello_received.2 !! b = None
      ∧ cstring_at ρ' (Block b) = Some "hello"%string
      ∧ edit_at ρ' edit' = Some v ∧ edit_text v = Some "hello"%string
      ∧ (∀ ρ'', heap ρ'' = heap ρ' → edit_at ρ'' edit' = Some v).
Proof.
  assert (wf started_globals hello_received.2) as Hwf
    by (apply wf_check_sound; vm_compute; reflexivity).
  assert (snapshot hello_received.2 (as_var hello_received.1)
          = Mapping [("collabedit_type"%string, W_String "append_line");
                     ("line"%string, W_Int32 4); ("text"%string, W_String "hello")])
    as Hm by (vm_compute; reflexivity).
  assert (In "text"%string (spec_keys COLLAB_APPEND_LINE)) as Hin
    by (simpl; auto).
  do 2 (split; [assumption|]). split; [reflexivity|]. split; [assumption|].
  destruct (queued_text_is_owned _ _ _ _ COLLAB_APPEND_LINE Hwf Hm eq_refl Hin)
    as (ρ' & edit' & e & f & b & v & text & ? & ? & ? & ? & ? & ? & ? & Hc & ? & Hv
        & Htext & ?).
  rewrite (Htext "hello"%string eq_refl) in Hc, Hv.
  exists ρ', edit', e, f, b, v. by repeat (split; [assumption|]).
Defined.

(** C8 — as stated this fails: [collab_remoteapply] returns [void] and
    [PostMessage] reports nothing.  Here the channel cannot deliver: the
    message is lost, and the call returns what it returns when the message
    goes through, leaving the same heap. *)
Lemma send_failure_is_silent :
  ∃ σ1 σ2 m,
    collab_remoteapply started_globals (Block 2) hello_sender = Ok tt σ1
    ∧ posted σ1 = [m]
    ∧ collab_remoteapply started_globals (Block 2) (close_channel hello_sender)
      = Ok tt σ2
    ∧ posted σ2 = [] ∧ dropped σ2 = [m]
    ∧ heap σ2 = heap σ1.
Proof.
  eexists _, _, _. split; [vm_compute; reflexivity|].
  split; [vm_compute; reflexivity|].
  split; [vm_compute; reflexivity|].
  repeat split; vm_compute; reflexivity.
Qed.

(** C8, amended — For every edit in memory whose texts can be read,
    [collab_remoteapply] hands the message to [PostMessage] once and returns
    nothing.  When the channel cannot deliver, the message is dropped, and
    the caller gets the same result, [tt], and the same heap as when it is
    delivered: the failure is not reported. *)
Theorem publish_reports_nothing g σ edit v :
  wf g σ → edit_at σ edit = Some v →
  ∃ σ1 σ2 m,
    collab_remoteapply g edit σ = Ok tt σ1 ∧ handed σ σ1 m
    ∧ collab_remoteapply g edit (close_channel σ) = Ok tt σ2
    ∧ posted σ2 = posted σ ∧ dropped σ2 = dropped σ ++ [m]
    ∧ heap σ2 = heap σ1.
Proof.
  intros Hwf Hv.
  destruct (edit_at_inv _ _ _ Hv) as (e & f & He & Hf & Hfv).
  destruct (collab_remoteapply_run g σ edit e f v (proj1 Hwf) He Hf Hfv)
    as (σ1 & Hrun1 & _ & Hh1 & _ & _ & _ & _ & Hm1).
  destruct (collab_remoteapply_run g (close_channel σ) edit e f v)
    as (σ2 & Hrun2 & _ & Hh2 & _ & _ & _ & _ & Hm2);
    [by apply (wf_vars_ext g σ), Hwf|done..|].
  exists σ1, σ2, (Mapping (spec_wire (on_wire v))).
  do 3 (split; [done|]). unfold handed in Hm2. simpl in Hm2.
  destruct Hm2 as [? ?]. do 2 (split; [done|]). by rewrite Hh1, Hh2.
Qed.

Lemma publish_reports_nothing_witness :
  wf started_globals hello_sender
  ∧ edit_at hello_sender (Block 2) = Some hello
  ∧ ∃ σ1 σ2 m,
      collab_remoteapply started_globals (Block 2) hello_sender = Ok tt σ1
      ∧ handed hello_sender σ1 m
      ∧ collab_remoteapply started_globals (Block 2) (close_channel hello_sender)
        = Ok tt σ2
      ∧ posted σ2 = posted hello_sender
      ∧ dropped σ2 = dropped hello_sender ++ [m]
      ∧ heap σ2 = heap σ1.
Proof.
  assert (wf started_globals hello_sender) as Hwf
    by (apply wf_check_sound; vm_compute; reflexivity).
  assert (edit_at hello_sender (Block 2) = Some hello) as He
    by (vm_compute; reflexivity).
  do 2 (split; [assumption|]).
  exact (publish_reports_nothing _ _ _ _ Hwf He).
Defined.

(** C10 — For every edit in memory whose texts can be read,
    [collab_remoteapply] returns and leaves the whole heap as it was: no
    block is written, freed or added.  The struct behind the pointer and
    the edit read through it are the same after the call as before, and
    the invariant of the state is kept. *)
Theorem collab_remoteapply_frame g σ edit e v :
  wf g σ → load_edit σ edit = Some e → edit_at σ edit = Some v →
  ∃ σ', collab_remoteapply g edit σ = Ok tt σ'
    ∧ wf g σ'
    ∧ heap σ' = heap σ
    ∧ load_edit σ' edit = Some e
    ∧ edit_at σ' edit = Some v.
Proof.
  intros Hwf He Hv.
  destruct (edit_at_inv _ _ _ Hv) as (e' & f & He' & Hf & Hfv).
  assert (e' = e) as -> by congruence.
  destruct (collab_remoteapply_run g σ edit e f v (proj1 Hwf) He Hf Hfv)
    as (σ' & Hrun & Hwf' & Hh & Hb & _ & _ & Hbuf & _).
  exists σ'. split; [done|].
  split; [split; [done|]; intros b; rewrite Hh, Hb; apply Hwf|].
  split; [done|].
  assert (load_edit σ' edit = Some e) as He2.
  { destruct edit; try done. simpl in *. by rewrite Hh. }
  split; [done|]. unfold edit_at. rewrite He2. simpl. rewrite Hf. simpl.
  assert (∀ t s, cstring_at σ t = Some s → cstring_at σ' t = Some s) as Hc.
  { intros t s. unfold cstring_at. destruct (buffer σ t) as [bs|] eqn:E; [|done].
    by rewrite (Hbuf _ _ E). }
  destruct f; simpl in *; try done;
    (destruct (cstring_at σ text) eqn:E; [|done]); by rewrite (Hc _ _ E).
Qed.

Lemma collab_remoteapply_frame_witness :
  wf started_globals hello_sender
  ∧ load_edit hello_sender (Block 2)
    = Some {| file_buf := Some 1; fields := Some (append_line 4 (Block 1)) |}
  ∧ edit_at hello_sender (Block 2) = Some hello
  ∧ ∃ σ', collab_remoteapply started_globals (Block 2) hello_sender = Ok tt σ'
      ∧ wf started_globals σ'
      ∧ heap σ' = heap hello_sender
      ∧ load_edit σ' (Block 2)
        = Some {| file_buf := Some 1; fields := Some (append_line 4 (Block 1)) |}
      ∧ edit_at σ' (Block 2) = Some hello.
Proof.
  assert (wf started_globals hello_sender) as Hwf
    by (apply wf_check_sound; vm_compute; reflexivity).
  assert (load_edit hello_sender (Block 2)
          = Some {| file_buf := Some 1; fields := Some (append_line 4 (Block 1)) |})
    as Hl by (vm_compute; reflexivity).
  assert (edit_at hello_sender (Block 2) = Some hello) as He
    by (vm_compute; reflexivity).
  do 3 (split; [assumption|]).
  exact (collab_remoteapply_frame _ _ _ _ _ Hwf Hl He).
Defined.

(** ** The queue under interleaving *)

Section EditQueueFacts.
Context {Op : Type}.
Implicit Types (s : @EditQueue.system Op) (ops : list Op).

Import EditQueue.

(** A step of either thread moves an operation one stage along and keeps
    the order of all of them. *)
Lemma step_keeps_order s t :
  observed (step s t) ++ queue (step s t) ++ pending (step s t)
  = observed s ++ queue s ++ pending s.
Proof.
  destruct s as [p q o], t; simpl.
  - destruct p as [|op p]; simpl; [done|]. unfold push.
    by rewrite <- !app_assoc.
  - destruct q as [|op q]; simpl; [done|]. by rewrite <- !app_assoc.
Qed.

Lemma run_keeps_order schedule s :
  observed (run schedule s) ++ queue (run schedule s) ++ pending (run schedule s)
  = observed s ++ queue s ++ pending s.
Proof.
  revert s. induction schedule as [|t schedule IH]; intros s; simpl; [done|].
  unfold run in *. simpl. by rewrite IH, step_keeps_order.
Qed.

Lemma run_producer (p q o : list Op) :
  run (replicate (length p) Producer)
      {| pending := p; queue := q; observed := o |}
  = {| pending := []; queue := q ++ p; observed := o |}.
Proof.
  revert q. induction p as [|op p IH]; intros q; simpl.
  - by rewrite app_nil_r.
  - unfold run in *. simpl. rewrite IH. unfold push. by rewrite <- app_assoc.
Qed.

Lemma run_consumer (p q o : list Op) :
  run (replicate (length q) Consumer)
      {| pending := p; queue := q; observed := o |}
  = {| pending := p; queue := []; observed := o ++ q |}.
Proof.
  revert o. induction q as [|op q IH]; intros o; simpl.
  - by rewrite app_nil_r.
  - unfold run in *. simpl. rewrite IH. by rewrite <- app_assoc.
Qed.

(** C9 — For every sequence of operations the producer pushes and every
    interleaving of pushes and pops: what the consumer has popped,
    followed by what is in the queue and by what is still to be pushed,
    is the sequence itself, so nothing is lost, doubled or out of order;
    once the consumer has popped as many as were pushed it has observed
    exactly the sequence; and from any point the run can go on until it
    has. *)
Theorem fifo_under_any_interleaving ops (schedule : list thread) :
  observed (run schedule (start ops)) ++ queue (run schedule (start ops))
    ++ pending (run schedule (start ops)) = ops
  ∧ (length (observed (run schedule (start ops))) = length ops →
     observed (run schedule (start ops)) = ops)
  ∧ ∃ more, observed (run (schedule ++ more) (start ops)) = ops.
Proof.
  pose proof (run_keeps_order schedule (start ops)) as Hinv. simpl in Hinv.
  split; [done|]. split.
  - intros Hlen. set (s := run schedule (start ops)) in *.
    apply (f_equal length) in Hinv as Hl. rewrite !length_app in Hl.
    destruct (queue s), (pending s); simpl in Hl; try lia.
    by rewrite !app_nil_r in Hinv.
  - destruct (run schedule (start ops)) as [p q o] eqn:Hs. simpl in Hinv.
    exists (replicate (length p) Producer ++ replicate (length (q ++ p)) Consumer).
    unfold run in *. rewrite !fold_left_app, Hs.
    pose proof (run_producer p q o) as Hp. unfold run in Hp. rewrite Hp.
    pose proof (run_consumer [] (q ++ p) o) as Hc. unfold run in Hc. rewrite Hc.
    done.
Qed.
End EditQueueFacts.

Lemma fifo_under_any_interleaving_witness :
  length (EditQueue.observed (EditQueue.run mixed_schedule (EditQueue.start three_edits)))
  = length three_edits
  ∧ EditQueue.observed (EditQueue.run mixed_schedule (EditQueue.start three_edits))
    = three_edits.
Proof.
  split; [reflexivity|].
  apply (proj1 (proj2 (fifo_under_any_interleaving three_edits mixed_schedule))).
  reflexivity.
Defined.

(** * Further properties of the code *)

(** ** [pp_strcmp] on any two vars *)

Lemma N_of_ascii_inj x y : N_of_ascii x = N_of_ascii y → x = y.
Proof.
  intros E. rewrite <- (ascii_N_embedding x), <- (ascii_N_embedding y).
  by rewrite E.
Qed.

(** [strncmp] over the shorter of two strings reads within both, and for
    strings of one length it returns 0 exactly when they agree up to their
    first NUL. *)
Lemma strncmp_buf_zero s1 s2 :
  ∃ c, strncmp_buf (bytes_of s1) (bytes_of s2)
                   (String.length s1 `min` String.length s2) = Some c
       ∧ (String.length s1 = String.length s2 →
          (c = 0 ↔ until_NUL s1 = until_NUL s2)).
Proof.
  revert s2. induction s1 as [|x s1 IH]; intros [|y s2]; simpl;
    try (eexists; split; [reflexivity|]; done).
  destruct (Ascii.eqb_spec x y) as [->|Hxy].
  - destruct (is_NUL y) eqn:Hy.
    + eexists. split; [reflexivity|]. done.
    + destruct (IH s2) as (c & -> & Hc). eexists. split; [reflexivity|].
      intros [= Hl]. rewrite (Hc Hl). split; [by intros ->|by intros [= ?]].
  - eexists. split; [reflexivity|]. intros _. split.
    + intros E. destruct Hxy. apply N_of_ascii_inj. lia.
    + destruct (is_NUL x) eqn:Hx, (is_NUL y) eqn:Hy; try done.
      * apply is_NUL_true in Hx, Hy. congruence.
      * intros [= ? _]. done.
Qed.

(** What [pp_strcmp] returns, for any two vars: the result of [strncmp] on
    the bytes of the shorter length, or the difference of the lengths as an
    [int] when that is 0.  No byte is read out of bounds. *)
Lemma pp_strcmp_value σ v1 v2 :
  ∃ c, strncmp_buf (bytes_of (var_bytes σ v1)) (bytes_of (var_bytes σ v2))
         (String.length (var_bytes σ v1) `min` String.length (var_bytes σ v2))
       = Some c
       ∧ pp_strcmp v1 v2 σ
         = Ok (if c =? 0
               then sint32 (Z.of_nat (String.length (var_bytes σ v1))
                            - Z.of_nat (String.length (var_bytes σ v2)))
               else c) σ.
Proof.
  destruct (strncmp_buf_zero (var_bytes σ v1) (var_bytes σ v2)) as (c & Hc & _).
  exists c. split; [done|].
  unfold pp_strcmp, ppb_var_VarToUtf8, gets, mbind, M_bind.
  unfold var_bytes in *.
  destruct (var_string σ v1) as [s1|] eqn:H1, (var_string σ v2) as [s2|] eqn:H2;
    cbv beta iota; cbn [default from_option id String.length] in *.
  - set (n := if Z.of_nat (String.length s1) <? Z.of_nat (String.length s2)
              then Z.of_nat (String.length s1) else Z.of_nat (String.length s2)).
    assert (n = Z.of_nat (String.length s1 `min` String.length s2)) as Hn.
    { subst n. destruct (Z.ltb_spec (Z.of_nat (String.length s1))
                                    (Z.of_nat (String.length s2))); lia. }
    assert (strncmp (VarBuf (as_id v1)) (VarBuf (as_id v2)) n σ = Ok c σ) as ->.
    { unfold strncmp. destruct (Z.eqb_spec n 0) as [E0|E0].
      - assert (String.length s1 `min` String.length s2 = 0)%nat as E by lia.
        rewrite E in Hc. simpl in Hc. congruence.
      - simpl. rewrite (var_string_lookup _ _ _ H1), (var_string_lookup _ _ _ H2).
        by rewrite Hn, Nat2Z.id, Hc. }
    reflexivity.
  - rewrite Nat.min_0_r in Hc. simpl in Hc. injection Hc as <-.
    destruct (Z.ltb_spec (Z.of_nat (String.length s1)) 0); [lia|].
    reflexivity.
  - simpl in Hc. injection Hc as <-.
    destruct (Z.ltb_spec 0 (Z.of_nat (String.length s2))); [reflexivity|].
    assert (Z.of_nat (String.length s2) = 0) as -> by lia. reflexivity.
  - simpl in Hc. injection Hc as <-. reflexivity.
Qed.

Lemma var_bytes_length g σ v :
  wf_vars g σ → 0 ≤ Z.of_nat (String.length (var_bytes σ v)) < 2 ^ 32 - 1.
Proof.
  intros Hwf. unfold var_bytes. destruct (var_string σ v) as [s|] eqn:H.
  - exact (wf_vars_length _ _ _ _ Hwf H).
  - by compute.
Qed.

(** On strings without NUL, [strncmp] over the shorter length orders like
    the comparison of the strings byte by byte; when it finds no
    difference, one string starts the other. *)
Lemma strncmp_buf_order s1 s2 c :
  until_NUL s1 = s1 → until_NUL s2 = s2 →
  strncmp_buf (bytes_of s1) (bytes_of s2)
              (String.length s1 `min` String.length s2) = Some c →
  if c =? 0
  then String.compare s1 s2 = (String.length s1 ?= String.length s2)%nat
  else String.compare s1 s2 = (c ?= 0).
Proof.
  revert s2 c. induction s1 as [|x s1 IH]; intros [|y s2] c; simpl;
    try (by intros _ _ [= <-]).
  destruct (is_NUL x) eqn:Hx; [done|]. destruct (is_NUL y) eqn:Hy; [done|].
  intros [= N1] [= N2]. unfold Ascii.compare.
  destruct (Ascii.eqb_spec x y) as [->|Hxy].
  - rewrite ?Hx, ?Hy, N.compare_refl. by apply IH.
  - intros [= <-].
    assert (N_of_ascii x ≠ N_of_ascii y) as Hne by (by intros ?%N_of_ascii_inj).
    destruct (Z.eqb_spec (Z.of_N (N_of_ascii x) - Z.of_N (N_of_ascii y)) 0); [lia|].
    rewrite <- Z.compare_sub, <- N2Z.inj_compare.
    destruct (Z.compare_spec (Z.of_N (N_of_ascii x)) (Z.of_N (N_of_ascii y)));
      [lia|done..].
Qed.

(** X1 — [pp_strcmp] returns on any two vars, strings or not, without
    reading out of bounds and without changing the state.  A var that is
    not a string counts as the empty string.  The result is 0 exactly when
    the two have the same length and the same bytes up to their first
    NUL. *)
Theorem pp_strcmp_zero_iff g σ v1 v2 :
  wf_vars g σ →
  ∃ c, pp_strcmp v1 v2 σ = Ok c σ
       ∧ (c = 0 ↔
          String.length (var_bytes σ v1) = String.length (var_bytes σ v2)
          ∧ until_NUL (var_bytes σ v1) = until_NUL (var_bytes σ v2)).
Proof.
  intros Hwf.
  pose proof (var_bytes_length g σ v1 Hwf) as L1.
  pose proof (var_bytes_length g σ v2 Hwf) as L2.
  destruct (pp_strcmp_value σ v1 v2) as (c & Hc & ->).
  destruct (strncmp_buf_zero (var_bytes σ v1) (var_bytes σ v2)) as (c' & Hc' & Hz).
  rewrite Hc in Hc'. injection Hc' as <-.
  eexists. split; [reflexivity|].
  destruct (Z.eqb_spec c 0) as [->|Hne].
  - rewrite sint32_diff by lia. split.
    + intros E. assert (String.length (var_bytes σ v1)
                        = String.length (var_bytes σ v2)) as El by lia.
      split; [done|]. by apply Hz.
    + intros [El _]. lia.
  - split; [done|]. intros [El Eu]. by apply Hz.
Qed.

Lemma pp_strcmp_zero_iff_witness :
  wf_vars started_globals started
  ∧ ∃ c, pp_strcmp (string_var 1) (string_var 2) started = Ok c started
         ∧ (c = 0 ↔
            String.length (var_bytes started (string_var 1))
            = String.length (var_bytes started (string_var 2))
            ∧ until_NUL (var_bytes started (string_var 1))
              = until_NUL (var_bytes started (string_var 2))).
Proof.
  assert (wf started_globals started) as [Hv _]
    by (apply wf_check_sound; vm_compute; reflexivity).
  split; [assumption|].
  exact (pp_strcmp_zero_iff started_globals started (string_var 1) (string_var 2) Hv).
Defined.

Lemma sint32_signed z : - 2 ^ 31 ≤ z < 2 ^ 31 → sint32 z = z.
Proof.
  intros Hz. rewrite <- (sint32_uint32 z Hz) at 2. unfold sint32, uint32.
  by rewrite Z.mod_mod by lia.
Qed.

(** X2 — On two string vars without NUL bytes, each shorter than 2^31
    bytes, [pp_strcmp] orders like [strcmp]: its result is negative, zero
    or positive as the first string comes before, equals or comes after
    the second in the byte-wise lexicographic order. *)
Theorem pp_strcmp_orders σ v1 v2 s1 s2 :
  var_string σ v1 = Some s1 → var_string σ v2 = Some s2 →
  until_NUL s1 = s1 → until_NUL s2 = s2 →
  Z.of_nat (String.length s1) < 2 ^ 31 → Z.of_nat (String.length s2) < 2 ^ 31 →
  ∃ c, pp_strcmp v1 v2 σ = Ok c σ ∧ (c ?= 0) = String.compare s1 s2.
Proof.
  intros H1 H2 N1 N2 L1 L2.
  destruct (pp_strcmp_value σ v1 v2) as (c & Hc & ->).
  unfold var_bytes in *. rewrite H1, H2 in *. cbn [default from_option id] in *.
  eexists. split; [reflexivity|].
  pose proof (strncmp_buf_order s1 s2 c N1 N2 Hc) as Ho.
  destruct (Z.eqb_spec c 0) as [->|Hne]; [|done].
  rewrite Ho, sint32_signed by lia.
  rewrite <- Nat2Z.inj_compare. symmetry. apply Z.compare_sub.
Qed.

Lemma pp_strcmp_orders_witness :
  var_string started (string_var 1) = Some "append_line"%string
  ∧ var_string started (string_var 2) = Some "insert_text"%string
  ∧ until_NUL "append_line" = "append_line"%string
  ∧ until_NUL "insert_text" = "insert_text"%string
  ∧ Z.of_nat (String.length "append_line") < 2 ^ 31
  ∧ Z.of_nat (String.length "insert_text") < 2 ^ 31
  ∧ ∃ c, pp_strcmp (string_var 1) (string_var 2) started = Ok c started
         ∧ (c ?= 0) = String.compare "append_line" "insert_text".
Proof.
  assert (var_string started (string_var 1) = Some "append_line"%string) as H1
    by (vm_compute; reflexivity).
  assert (var_string started (string_var 2) = Some "insert_text"%string) as H2
    by (vm_compute; reflexivity).
  assert (Z.of_nat (String.length "append_line") < 2 ^ 31) as L1
    by (vm_compute; reflexivity).
  assert (Z.of_nat (String.length "insert_text") < 2 ^ 31) as L2
    by (vm_compute; reflexivity).
  do 2 (split; [assumption|]). do 2 (split; [reflexivity|]).
  do 2 (split; [assumption|]).
  exact (pp_strcmp_orders started _ _ _ _ H1 H2 eq_refl eq_refl L1 L2).
Defined.

(** ** [var_to_cstr] and [UTF8_TO_VAR] *)

Lemma text_of_var_bytes σ v : text_of σ v = until_NUL (var_bytes σ v).
Proof. unfold text_of, var_bytes. by destruct (var_string σ v). Qed.

(** X3 — [var_to_cstr] returns on every var, string or not, without a
    fault.  The result points to a block that was free before the call and
    holds, NUL-terminated, the bytes of the var up to their first NUL (the
    empty string for a var that is not a string).  No other block and
    nothing outside the heap changes. *)
Theorem var_to_cstr_copy g σ v :
  wf g σ →
  ∃ b σ', var_to_cstr v σ = Ok (Block b) σ'
          ∧ heap σ !! b = None
          ∧ cstring_at σ' (Block b) = Some (until_NUL (var_bytes σ v))
          ∧ (∀ x, x ≠ b → heap σ' !! x = heap σ !! x)
          ∧ vars σ' = vars σ ∧ last_var_id σ' = last_var_id σ
          ∧ posted σ' = posted σ ∧ dropped σ' = dropped σ
          ∧ collab_queue σ' = collab_queue σ ∧ released σ' = released σ.
Proof.
  intros [Hv Hh]. destruct (var_to_cstr_run g σ v Hv) as (bs & Hrun & Hbs).
  eexists _, _. split; [apply Hrun|].
  split; [apply Hh; lia|].
  split.
  { unfold cstring_at. simpl. rewrite lookup_insert_eq. simpl.
    by rewrite Hbs, text_of_var_bytes. }
  split; [|done].
  intros x Hx. simpl. by rewrite lookup_insert_ne.
Qed.

Lemma var_to_cstr_copy_witness :
  wf started_globals started
  ∧ ∃ b σ', var_to_cstr (string_var 6) started = Ok (Block b) σ'
            ∧ heap started !! b = None
            ∧ cstring_at σ' (Block b)
              = Some (until_NUL (var_bytes started (string_var 6)))
            ∧ (∀ x, x ≠ b → heap σ' !! x = heap started !! x)
            ∧ vars σ' = vars started ∧ last_var_id σ' = last_var_id started
            ∧ posted σ' = posted started ∧ dropped σ' = dropped started
            ∧ collab_queue σ' = collab_queue started
            ∧ released σ' = released started.
Proof.
  assert (wf started_globals started) as Hwf
    by (apply wf_check_sound; vm_compute; reflexivity).
  split; [assumption|].
  exact (var_to_cstr_copy started_globals started (string_var 6) Hwf).
Defined.

(** What [UTF8_TO_VAR] does with a C string: a new string var with its
    bytes, or the null var when the host refuses them. *)
Lemma UTF8_TO_VAR_run σ p s :
  cstring_at σ p = Some s →
  UTF8_TO_VAR p σ
  = if (Z.of_nat (String.length s) <? 2 ^ 32 - 1) && is_utf8 s
    then Ok (string_var (last_var_id σ + 1))
            (set_vars <[last_var_id σ + 1 := StringVar s]> (last_var_id σ + 1) σ)
    else Ok PP_MakeNull σ.
Proof.
  intros Hs. unfold UTF8_TO_VAR.
  erewrite bind_run by (unfold strlen; by rewrite Hs).
  unfold ppb_var_VarFromUtf8. unfold cstring_at in Hs.
  destruct (buffer σ p) as [bs|]; [|done]. simpl in Hs |- *.
  rewrite Nat2Z.id, <- (app_nil_r bs), (read_cstring _ _ _ Hs).
  by destruct (_ && _).
Qed.

Lemma cstring_at_alloc_var g σ p s o :
  wf_vars g σ → cstring_at σ p = Some s →
  cstring_at (set_vars <[last_var_id σ + 1 := o]> (last_var_id σ + 1) σ) p = Some s.
Proof.
  intros Hwf. unfold cstring_at. destruct p as [|t|b|id]; simpl; try done.
  destruct (decide (id = last_var_id σ + 1)) as [->|Hne].
  - rewrite (wf_var_ids _ _ Hwf) by lia. done.
  - by rewrite lookup_insert_ne.
Qed.

Lemma cstring_at_alloc_block σ p s b c L :
  wf_heap σ → last_block σ < b → cstring_at σ p = Some s →
  cstring_at (set_heap <[b := c]> L σ) p = Some s.
Proof.
  intros Hh Hb. unfold cstring_at. destruct p as [|t|x|id]; simpl; try done.
  destruct (decide (x = b)) as [->|Hne].
  - rewrite Hh by lia. done.
  - by rewrite lookup_insert_ne.
Qed.

(** X4 — A C string made into a var with [UTF8_TO_VAR] and back into a C
    string with [var_to_cstr] arrives unchanged, in a block that was free
    before, when it is UTF-8 the host accepts; any other text comes back
    as the empty string.  The original string is still where it was. *)
Theorem cstr_through_var g σ p s :
  wf g σ → cstring_at σ p = Some s →
  ∃ b σ', (UTF8_TO_VAR p ≫= var_to_cstr) σ = Ok (Block b) σ'
          ∧ heap σ !! b = None
          ∧ (text_ok s → cstring_at σ' (Block b) = Some s)
          ∧ (¬ text_ok s → cstring_at σ' (Block b) = Some EmptyString)
          ∧ cstring_at σ' p = Some s.
Proof.
  intros [Hv Hh] Hs.
  assert (until_NUL s = s) as Hnul.
  { unfold cstring_at in Hs. destruct (buffer σ p) as [bs|]; [|done].
    by eapply until_NUL_cstring. }
  pose proof (UTF8_TO_VAR_run σ p s Hs) as Hrun.
  destruct ((Z.of_nat (String.length s) <? 2 ^ 32 - 1) && is_utf8 s) eqn:Hok.
  - apply andb_true_iff in Hok as [Hlen Hutf]. apply Z.ltb_lt in Hlen.
    set (σ1 := set_vars _ _ σ) in Hrun.
    assert (wf_vars g σ1) as Hv1.
    { apply wf_vars_alloc; [done|]. by intros ? [= <-]. }
    destruct (var_to_cstr_run g σ1 (string_var (last_var_id σ + 1)) Hv1)
      as (bs & Hrun2 & Hbs).
    eexists _, _. split; [erewrite bind_run by apply Hrun; apply Hrun2|].
    split; [apply Hh; simpl; lia|].
    assert (text_of σ1 (string_var (last_var_id σ + 1)) = s) as Htext.
    { unfold text_of, var_string. simpl. by rewrite lookup_insert_eq. }
    rewrite Htext in Hbs.
    split; [|split].
    + intros _. unfold cstring_at. simpl. rewrite lookup_insert_eq. simpl. done.
    + intros []. by split.
    + apply cstring_at_alloc_block; [done|simpl; lia|].
      by apply (cstring_at_alloc_var g).
  - destruct (var_to_cstr_run g σ PP_MakeNull Hv) as (bs & Hrun2 & Hbs).
    eexists _, _. split; [erewrite bind_run by apply Hrun; apply Hrun2|].
    split; [apply Hh; lia|].
    split; [|split].
    + intros [Hutf Hlen]. apply andb_false_iff in Hok as [Hok|Hok].
      * apply Z.ltb_ge in Hok. lia.
      * congruence.
    + intros _. unfold cstring_at. simpl. rewrite lookup_insert_eq. simpl. done.
    + apply cstring_at_alloc_block; [done|lia|done].
Qed.

Lemma cstr_through_var_witness :
  wf started_globals hello_sender
  ∧ cstring_at hello_sender (Block 1) = Some "hello"%string
  ∧ ∃ b σ', (UTF8_TO_VAR (Block 1) ≫= var_to_cstr) hello_sender = Ok (Block b) σ'
            ∧ heap hello_sender !! b = None
            ∧ (text_ok "hello" → cstring_at σ' (Block b) = Some "hello"%string)
            ∧ (¬ text_ok "hello" → cstring_at σ' (Block b) = Some EmptyString)
            ∧ cstring_at σ' (Block 1) = Some "hello"%string.
Proof.
  assert (wf started_globals hello_sender) as Hwf
    by (apply wf_check_sound; vm_compute; reflexivity).
  assert (cstring_at hello_sender (Block 1) = Some "hello"%string) as Hs
    by (vm_compute; reflexivity).
  do 2 (split; [assumption|]).
  exact (cstr_through_var started_globals hello_sender (Block 1) "hello" Hwf Hs).
Defined.

(** ** [js_printf] *)

(** The state [js_printf] leaves for a line: the block [vasprintf] made,
    the var [VarFromUtf8] made of it if it took the line, and the message
    where [PostMessage] put it. *)
Lemma js_printf_effect g σ line :
  until_NUL line = line →
  js_printf g line σ
  = Ok (Z.of_nat (String.length line))
       (let σ1 := set_heap <[last_block σ + 1 := Bytes (bytes_of line ++ [Some NUL])]>
                           (last_block σ + 1) σ in
        let σ2 := if (Z.of_nat (String.length line) <? 2 ^ 32 - 1) && is_utf8 line
                  then set_vars <[last_var_id σ + 1 := StringVar line]>
                                (last_var_id σ + 1) σ1
                  else σ1 in
        let m := Plain (wire_text line) in
        set_channel (if channel_open σ then posted σ ++ [m] else posted σ)
                    (if channel_open σ then dropped σ else dropped σ ++ [m]) σ2).
Proof.
  intros Hnul. unfold js_printf, vasprintf. erewrite bind_run by reflexivity.
  cbv beta iota zeta.
  destruct (Z.leb_spec 0 (Z.of_nat (String.length line))); [|lia].
  set (σ1 := set_heap _ _ σ).
  assert (cstring_at σ1 (Block (last_block σ + 1)) = Some line) as Hstr.
  { unfold cstring_at. simpl. rewrite lookup_insert_eq. simpl.
    by rewrite cstring_buf_bytes_of, Hnul. }
  assert (strlen (Block (last_block σ + 1)) σ1
          = Ok (Z.of_nat (String.length line)) σ1) as Hlen
    by (unfold strlen; by rewrite Hstr).
  pose proof (UTF8_TO_VAR_run σ1 _ _ Hstr) as Hvar. unfold UTF8_TO_VAR in Hvar.
  erewrite bind_run in Hvar by apply Hlen.
  unfold wire_text.
  destruct ((Z.of_nat (String.length line) <? 2 ^ 32 - 1) && is_utf8 line).
  - erewrite bind_run; cycle 1.
    { erewrite bind_run by apply Hlen. erewrite bind_run by apply Hvar.
      erewrite bind_run by reflexivity. reflexivity. }
    unfold mret, M_ret. f_equal.
    unfold snapshot, var_entries, snapshot_value, var_string. simpl.
    rewrite lookup_insert_eq. by destruct (channel_open σ).
  - erewrite bind_run; cycle 1.
    { erewrite bind_run by apply Hlen. erewrite bind_run by apply Hvar.
      erewrite bind_run by reflexivity. reflexivity. }
    unfold mret, M_ret. f_equal. simpl. by destruct (channel_open σ).
Qed.

(** X5 — [js_printf] of a line without conversions returns the length of
    the line and hands it to [PostMessage] once, as a plain string (as
    null when the line is not UTF-8).  The block [vasprintf] allocated for
    the line is never freed: it is still in the heap when the function
    returns.  The queue and the other blocks and vars are untouched. *)
Theorem js_printf_posts g σ line :
  plain_format line = true → until_NUL line = line →
  ∃ σ', js_printf g line σ = Ok (Z.of_nat (String.length line)) σ'
        ∧ handed σ σ' (Plain (wire_text line))
        ∧ heap σ' = <[last_block σ + 1 := Bytes (bytes_of line ++ [Some NUL])]> (heap σ)
        ∧ last_block σ' = last_block σ + 1
        ∧ (∀ id, id ≠ last_var_id σ + 1 → vars σ' !! id = vars σ !! id)
        ∧ collab_queue σ' = collab_queue σ ∧ released σ' = released σ.
Proof.
  intros _ Hnul. eexists. split; [by apply js_printf_effect|].
  unfold handed. cbv zeta.
  destruct (channel_open σ), (_ && _); simpl;
    (split; [done|]); (do 2 (split; [done|])); (split; [|done]);
    intros id Hid; by rewrite ?lookup_insert_ne.
Qed.

Lemma js_printf_posts_witness :
  plain_format "info: msgloop skipping non collabedit dict" = true
  ∧ until_NUL "info: msgloop skipping non collabedit dict"
    = "info: msgloop skipping non collabedit dict"%string
  ∧ ∃ σ', js_printf started_globals "info: msgloop skipping non collabedit dict" started
          = Ok (Z.of_nat (String.length "info: msgloop skipping non collabedit dict")) σ'
      ∧ handed started σ'
          (Plain (wire_text "info: msgloop skipping non collabedit dict"))
      ∧ heap σ' = <[last_block started + 1 :=
                      Bytes (bytes_of "info: msgloop skipping non collabedit dict"
                             ++ [Some NUL])]> (heap started)
      ∧ last_block σ' = last_block started + 1
      ∧ (∀ id, id ≠ last_var_id started + 1 → vars σ' !! id = vars started !! id)
      ∧ collab_queue σ' = collab_queue started ∧ released σ' = released started.
Proof.
  do 2 (split; [reflexivity|]).
  exact (js_printf_posts started_globals started
           "info: msgloop skipping non collabedit dict" eq_refl eq_refl).
Defined.

(** ** The paths of one turn of the loop *)

Lemma pp_strcmp_total σ v1 v2 : ∃ c, pp_strcmp v1 v2 σ = Ok c σ.
Proof. destruct (pp_strcmp_value σ v1 v2) as (c & _ & H). eauto. Qed.

(** The state a branch of [parse_collabedit] leaves: for a variant without
    text one store into the struct, for one with text a new block before
    it. *)
Lemma parse_plain_state σ b e0 (f : collab_fields ptr) :
  heap σ !! b = Some (EditStruct e0) →
  (store_edit (Block b) (λ e, {| file_buf := file_buf e; fields := Some f |});;
   mret (Block b)) σ
  = Ok (Block b)
       (set_heap <[b := EditStruct {| file_buf := file_buf e0; fields := Some f |}]>
                 (last_block σ) σ).
Proof. intros Hb. by erewrite bind_run by (by apply store_edit_run). Qed.

Lemma parse_text_state g σ dict es b e0 (K : ptr → collab_fields ptr) :
  wf g σ → var_entries σ dict = Some es → heap σ !! b = Some (EditStruct e0) →
  ∃ bs, (text ← ppb_dict_Get dict (text_key g) ≫= var_to_cstr;
         store_edit (Block b)
           (λ e, {| file_buf := file_buf e; fields := Some (K text) |});;
         mret (Block b)) σ
        = Ok (Block b)
             (set_heap (<[b := EditStruct
                               {| file_buf := file_buf e0;
                                  fields := Some (K (Block (last_block σ + 1))) |}]>
                        ∘ <[last_block σ + 1 := Bytes bs]>)
                       (last_block σ + 1) σ).
Proof.
  intros Hwf Hd Hb.
  destruct (var_to_cstr_run g σ (field es "text") (proj1 Hwf)) as (bs & Hrun & _).
  assert (b ≤ last_block σ) as Hlive by (eapply wf_heap_live, Hb; apply Hwf).
  exists bs.
  erewrite bind_run; cycle 1.
  { erewrite bind_run; [apply Hrun|]. apply ppb_dict_Get_run; [done|apply Hwf]. }
  erewrite bind_run; cycle 1.
  { apply store_edit_run. simpl. rewrite lookup_insert_ne by lia. apply Hb. }
  by rewrite set_heap_set_heap.
Qed.

(** What [parse_collabedit] changes.  When it returns the struct, only the
    heap has changed, and in it only the struct and at most one block that
    is new.  When it returns NULL, it has printed its line and freed the
    struct. *)
Lemma parse_collabedit_state g σ dict es b e0 :
  wf g σ → var_entries σ dict = Some es →
  heap σ !! b = Some (EditStruct e0) →
  ∃ r σ', parse_collabedit g dict (Block b) σ = Ok r σ'
    ∧ if is_null r
      then ∃ n σp, js_printf g "info: msgloop unknown collabedit type" σ = Ok n σp
                   ∧ σ' = set_heap (delete b) (last_block σp) σp
      else r = Block b
           ∧ ∃ h L, σ' = set_heap h L σ
                    ∧ last_block σ ≤ L ≤ last_block σ + 1
                    ∧ ∀ x, x ≤ last_block σ → x ≠ b → h (heap σ) !! x = heap σ !! x.
Proof.
  intros Hwf Hd Hb. pose proof Hwf as [Hv Hh]. unfold parse_collabedit.
  pose proof (λ key k, ppb_dict_Get_run σ dict key es k Hd) as HGet.
  assert (∀ K, ∃ r σ',
             (text ← ppb_dict_Get dict (text_key g) ≫= var_to_cstr;
              store_edit (Block b)
                (λ e, {| file_buf := file_buf e; fields := Some (K text) |});;
              mret (Block b)) σ = Ok r σ'
             ∧ if is_null r
               then ∃ n σp, js_printf g "info: msgloop unknown collabedit type" σ
                            = Ok n σp
                            ∧ σ' = set_heap (delete b) (last_block σp) σp
               else r = Block b
                    ∧ ∃ h L, σ' = set_heap h L σ
                             ∧ last_block σ ≤ L ≤ last_block σ + 1
                             ∧ ∀ x, x ≤ last_block σ → x ≠ b →
                                    h (heap σ) !! x = heap σ !! x) as Htext.
  { intros K. destruct (parse_text_state g σ dict es b e0 K Hwf Hd Hb) as (bs & ->).
    eexists _, _. split; [reflexivity|]. cbn [is_null]. split; [done|].
    eexists _, _. split; [reflexivity|]. split; [lia|].
    intros x ? ?. unfold compose. by rewrite !lookup_insert_ne by lia. }
  assert (∀ f, ∃ r σ',
             (store_edit (Block b)
                (λ e, {| file_buf := file_buf e; fields := Some f |});;
              mret (Block b)) σ = Ok r σ'
             ∧ if is_null r
               then ∃ n σp, js_printf g "info: msgloop unknown collabedit type" σ
                            = Ok n σp
                            ∧ σ' = set_heap (delete b) (last_block σp) σp
               else r = Block b
                    ∧ ∃ h L, σ' = set_heap h L σ
                             ∧ last_block σ ≤ L ≤ last_block σ + 1
                             ∧ ∀ x, x ≤ last_block σ → x ≠ b →
                                    h (heap σ) !! x = heap σ !! x) as Hplain.
  { intros f. rewrite (parse_plain_state σ b e0 f Hb).
    eexists _, _. split; [reflexivity|]. cbn [is_null]. split; [done|].
    eexists _, _. split; [reflexivity|]. split; [lia|].
    intros x ? ?. by rewrite lookup_insert_ne. }
  erewrite bind_run by (apply HGet, Hv).
  destruct (pp_strcmp_total σ (field es "collabedit_type") (type_append_line g))
    as (c1 & R1).
  erewrite bind_run by apply R1. cbv beta. destruct (c1 =? 0).
  { erewrite bind_run by (eapply fmap_run, HGet, Hv). apply Htext. }
  destruct (pp_strcmp_total σ (field es "collabedit_type") (type_insert_text g))
    as (c2 & R2).
  erewrite bind_run by apply R2. cbv beta. destruct (c2 =? 0).
  { do 2 erewrite bind_run by (eapply fmap_run, HGet, Hv). apply Htext. }
  destruct (pp_strcmp_total σ (field es "collabedit_type") (type_remove_line g))
    as (c3 & R3).
  erewrite bind_run by apply R3. cbv beta. destruct (c3 =? 0).
  { erewrite bind_run by (eapply fmap_run, HGet, Hv). apply Hplain. }
  destruct (pp_strcmp_total σ (field es "collabedit_type") (type_delete_text g))
    as (c4 & R4).
  erewrite bind_run by apply R4. cbv beta. destruct (c4 =? 0).
  { do 3 erewrite bind_run by (eapply fmap_run, HGet, Hv). apply Hplain. }
  destruct (pp_strcmp_total σ (field es "collabedit_type") (type_replace_line g))
    as (c5 & R5).
  erewrite bind_run by apply R5. cbv beta. destruct (c5 =? 0).
  { erewrite bind_run by (eapply fmap_run, HGet, Hv). apply Htext. }
  assert ((Z.of_nat (String.length "info: msgloop unknown collabedit type")
           <? 2 ^ 32 - 1) && is_utf8 "info: msgloop unknown collabedit type"
          = true) as Hok by (vm_compute; reflexivity).
  pose proof (js_printf_effect g σ "info: msgloop unknown collabedit type" eq_refl)
    as Hp.
  cbv zeta in Hp. rewrite Hok in Hp.
  erewrite bind_run by apply Hp.
  assert (b ≤ last_block σ) as Hlive by (eapply wf_heap_live, Hb; apply Hwf).
  erewrite bind_run; cycle 1.
  { unfold free. cbn [heap set_channel set_vars set_heap].
    rewrite lookup_insert_ne, Hb by lia. reflexivity. }
  eexists _, _. split; [reflexivity|]. cbn [is_null].
  eexists _, _. split; [apply Hp|]. reflexivity.
Qed.

(** The first branch of the loop body: what [HasKey] answers. *)
Lemma js_msgloop_body_skip g σ event :
  wf_vars g σ →
  var_entries σ (as_var event) ≫= entries_get "collabedit_type" = None →
  js_msgloop_body g event σ
  = (js_printf g "info: msgloop skipping non collabedit dict";; mret tt) σ.
Proof.
  intros Hv Hno. unfold js_msgloop_body. cbv zeta.
  destruct (is_dictionary (type (as_var event))) eqn:Hty; cbn [negb].
  2:{ by erewrite bind_run by reflexivity. }
  erewrite bind_run; cycle 1.
  { eapply fmap_run. unfold ppb_dict_HasKey, gets.
    rewrite (wf_type_key _ _ Hv). reflexivity. }
  destruct (var_entries σ (as_var event)) as [es|]; cbn [negb]; [|done].
  simpl in Hno. rewrite Hno.
  by rewrite bool_decide_eq_false_2 by (by intros [? ?]).
Qed.

(** The other branch, up to the call of [parse_collabedit]: the struct is
    in a new block, its [file_buf] set. *)
Lemma js_msgloop_body_parse g σ event es :
  wf_vars g σ → var_entries σ (as_var event) = Some es →
  is_Some (entries_get "collabedit_type" es) →
  js_msgloop_body g event σ
  = (edit ← parse_collabedit g (as_var event) (Block (last_block σ + 1));
     (if is_null edit then mret tt else collab_enqueue edit);;
     PSEventRelease event)
      (set_heap <[last_block σ + 1 :=
                    EditStruct {| file_buf := Some (curbuf g); fields := None |}]>
                (last_block σ + 1) σ).
Proof.
  intros Hv Hd Hkey. unfold js_msgloop_body. cbv zeta.
  assert (is_dictionary (type (as_var event)) = true) as ->.
  { unfold var_entries in Hd. by destruct (is_dictionary _). }
  cbn [negb].
  erewrite bind_run; cycle 1.
  { eapply fmap_run. unfold ppb_dict_HasKey, gets.
    rewrite (wf_type_key _ _ Hv), Hd. reflexivity. }
  rewrite bool_decide_eq_true_2 by done. cbn [negb].
  unfold malloc_collabedit_T. erewrite bind_run by reflexivity.
  erewrite bind_run; cycle 1.
  { apply store_edit_run. simpl. apply lookup_insert_eq. }
  rewrite set_heap_set_heap. unfold set_heap at 1, compose. simpl.
  by rewrite insert_insert_eq.
Qed.

(** The messages of section 4.2 in terms of the var of the event. *)
Lemma NotAnEdit_no_key σ v :
  NotAnEdit (snapshot σ v) →
  var_entries σ v ≫= entries_get "collabedit_type" = None.
Proof.
  destruct (snapshot σ v) as [w|m] eqn:Hs; intros Hm.
  - by rewrite (snapshot_Plain _ _ _ Hs).
  - apply snapshot_Mapping in Hs as (es & -> & ->). simpl in *.
    rewrite entries_get_snapshot in Hm.
    by destruct (entries_get "collabedit_type" es).
Qed.

Lemma UnknownKind_no_edit σ v :
  UnknownKind (snapshot σ v) →
  ∃ es, var_entries σ v = Some es
        ∧ is_Some (entries_get "collabedit_type" es)
        ∧ decode_entries σ es = None.
Proof.
  destruct (snapshot σ v) as [w|m] eqn:Hs; [done|]. intros (w & Hw & Hno).
  apply snapshot_Mapping in Hs as (es & Hd & ->). exists es. split; [done|].
  split.
  { rewrite entries_get_snapshot in Hw.
    by destruct (entries_get "collabedit_type" es). }
  unfold decode_entries.
  destruct (var_string σ (field es "collabedit_type")) as [s|] eqn:E; [|done].
  apply snapshot_value_string in E.
  rewrite (field_present _ _ _ _ Hw) in E. subst w.
  destruct (String.eqb_spec s "append_line") as [->|];
    [by destruct (Hno COLLAB_APPEND_LINE)|].
  destruct (String.eqb_spec s "insert_text") as [->|];
    [by destruct (Hno COLLAB_INSERT_TEXT)|].
  destruct (String.eqb_spec s "remove_line") as [->|];
    [by destruct (Hno COLLAB_REMOVE_LINE)|].
  destruct (String.eqb_spec s "delete_text") as [->|];
    [by destruct (Hno COLLAB_DELETE_TEXT)|].
  destruct (String.eqb_spec s "replace_line") as [->|];
    [by destruct (Hno COLLAB_REPLACE_LINE)|]. done.
Qed.

(** The state a turn leaves for a dictionary with the discriminator key.
    With an edit decoded: the struct in the first new block, at most one
    more block, the pointer at the back of the queue, the event given
    back, and nothing else.  Without: the printed line, the struct freed,
    the event given back. *)
Lemma js_msgloop_body_state g σ event es :
  wf g σ → var_entries σ (as_var event) = Some es →
  is_Some (entries_get "collabedit_type" es) →
  ∃ σ', js_msgloop_body g event σ = Ok tt σ'
    ∧ match decode_entries σ es with
      | Some _ =>
          ∃ h L, σ' = set_released (released σ ++ [event])
                        (set_collab_queue (collab_queue σ ++ [Block (last_block σ + 1)])
                           (set_heap h L σ))
                 ∧ last_block σ + 1 ≤ L ≤ last_block σ + 2
                 ∧ ∀ x, x ≤ last_block σ → h (heap σ) !! x = heap σ !! x
      | None =>
          ∃ n σp,
            js_printf g "info: msgloop unknown collabedit type"
              (set_heap <[last_block σ + 1 :=
                            EditStruct {| file_buf := Some (curbuf g);
                                          fields := None |}]>
                        (last_block σ + 1) σ) = Ok n σp
            ∧ σ' = set_released (released σp ++ [event])
                     (set_heap (delete (last_block σ + 1)) (last_block σp) σp)
      end.
Proof.
  intros Hwf Hd Hkey. pose proof Hwf as [Hv Hh].
  rewrite (js_msgloop_body_parse g σ event es Hv Hd Hkey).
  set (b := last_block σ + 1).
  set (σ2 := set_heap _ _ σ).
  assert (wf g σ2) as Hwf2.
  { apply wf_set_heap_insert; [done|lia..]. }
  assert (var_entries σ2 (as_var event) = Some es) as Hd2
    by (by rewrite (var_entries_ext σ σ2)).
  assert (heap σ2 !! b = Some (EditStruct {| file_buf := Some (curbuf g);
                                             fields := None |})) as Hb
    by (simpl; apply lookup_insert_eq).
  destruct (parse_collabedit_run g σ2 (as_var event) es b _ Hwf2 Hd2 Hb)
    as (r & σ3 & Hrun & _ & _ & _ & Hres).
  destruct (parse_collabedit_state g σ2 (as_var event) es b _ Hwf2 Hd2 Hb)
    as (r' & σ3' & Hrun' & Hst).
  rewrite Hrun in Hrun'. injection Hrun' as <- <-.
  erewrite bind_run by apply Hrun.
  rewrite (decode_entries_ext σ σ2) in Hres by done.
  destruct (decode_entries σ es) as [v|].
  - destruct Hres as [-> _]. cbn [is_null] in Hst |- *.
    destruct Hst as (_ & h & L & -> & HL & Hframe).
    erewrite bind_run by reflexivity.
    eexists. split; [reflexivity|].
    exists (h ∘ <[b := EditStruct {| file_buf := Some (curbuf g); fields := None |}]>), L.
    split; [done|]. simpl in HL. split; [lia|].
    intros x Hx. unfold compose. simpl in Hframe. rewrite Hframe by lia.
    by rewrite lookup_insert_ne by lia.
  - subst r. cbn [is_null] in Hst |- *. destruct Hst as (n & σp & Hp & ->).
    erewrite bind_run by reflexivity.
    eexists. split; [reflexivity|]. by exists n, σp.
Qed.

Lemma skip_line_ok :
  (Z.of_nat (String.length "info: msgloop skipping non collabedit dict")
   <? 2 ^ 32 - 1) && is_utf8 "info: msgloop skipping non collabedit dict" = true.
Proof. vm_compute. reflexivity. Qed.

Lemma unknown_line_ok :
  (Z.of_nat (String.length "info: msgloop unknown collabedit type")
   <? 2 ^ 32 - 1) && is_utf8 "info: msgloop unknown collabedit type" = true.
Proof. vm_compute. reflexivity. Qed.

(** X6 — For an event that is not a dictionary, or a dictionary without
    "collabedit_type", the turn is the [continue] of line 134: it prints
    "info: msgloop skipping non collabedit dict" to JavaScript and does
    nothing else.  The event is not given back with [PSEventRelease], the
    queue is as before, and the only new block is the printed line. *)
Theorem not_an_edit_turn g σ event :
  wf g σ → NotAnEdit (snapshot σ (as_var event)) →
  ∃ σ', js_msgloop_body g event σ = Ok tt σ'
    ∧ handed σ σ' (Plain (W_String "info: msgloop skipping non collabedit dict"))
    ∧ released σ' = released σ
    ∧ collab_queue σ' = collab_queue σ
    ∧ heap σ' = <[last_block σ + 1 :=
                    Bytes (bytes_of "info: msgloop skipping non collabedit dict"
                           ++ [Some NUL])]> (heap σ).
Proof.
  intros [Hv Hh] Hm.
  rewrite (js_msgloop_body_skip g σ event Hv (NotAnEdit_no_key _ _ Hm)).
  erewrite bind_run by (by apply js_printf_effect).
  eexists. split; [reflexivity|].
  cbv zeta. unfold handed, wire_text. rewrite skip_line_ok.
  by destruct (channel_open σ).
Qed.

Lemma not_an_edit_turn_witness :
  wf started_globals (receive (Plain (W_String "hi")) started).2
  ∧ NotAnEdit (snapshot (receive (Plain (W_String "hi")) started).2
                        (as_var (receive (Plain (W_String "hi")) started).1))
  ∧ ∃ σ', js_msgloop_body started_globals (receive (Plain (W_String "hi")) started).1
                          (receive (Plain (W_String "hi")) started).2 = Ok tt σ'
      ∧ handed (receive (Plain (W_String "hi")) started).2 σ'
          (Plain (W_String "info: msgloop skipping non collabedit dict"))
      ∧ released σ' = released (receive (Plain (W_String "hi")) started).2
      ∧ collab_queue σ' = collab_queue (receive (Plain (W_String "hi")) started).2
      ∧ heap σ'
        = <[last_block (receive (Plain (W_String "hi")) started).2 + 1 :=
              Bytes (bytes_of "info: msgloop skipping non collabedit dict"
                     ++ [Some NUL])]>
            (heap (receive (Plain (W_String "hi")) started).2).
Proof.
  assert (wf started_globals (receive (Plain (W_String "hi")) started).2) as Hwf
    by (apply wf_check_sound; vm_compute; reflexivity).
  assert (NotAnEdit (snapshot (receive (Plain (W_String "hi")) started).2
                       (as_var (receive (Plain (W_String "hi")) started).1))) as Hm.
  { assert (snapshot (receive (Plain (W_String "hi")) started).2
                     (as_var (receive (Plain (W_String "hi")) started).1)
            = Plain (W_String "hi")) as -> by (vm_compute; reflexivity).
    exact I. }
  do 2 (split; [assumption|]).
  exact (not_an_edit_turn _ _ _ Hwf Hm).
Defined.

(** X7 — For a dictionary whose "collabedit_type" is none of the five
    strings, the turn prints "info: msgloop unknown collabedit type" to
    JavaScript, frees the struct it had allocated, queues nothing and
    gives the event back.  Of the two blocks the turn allocated only the
    printed line is left. *)
Theorem unknown_kind_turn g σ event :
  wf g σ → UnknownKind (snapshot σ (as_var event)) →
  ∃ σ', js_msgloop_body g event σ = Ok tt σ'
    ∧ handed σ σ' (Plain (W_String "info: msgloop unknown collabedit type"))
    ∧ released σ' = released σ ++ [event]
    ∧ collab_queue σ' = collab_queue σ
    ∧ heap σ' = <[last_block σ + 2 :=
                    Bytes (bytes_of "info: msgloop unknown collabedit type"
                           ++ [Some NUL])]> (heap σ).
Proof.
  intros Hwf Hm. pose proof Hwf as [Hv Hh].
  destruct (UnknownKind_no_edit _ _ Hm) as (es & Hd & Hkey & Hdec).
  destruct (js_msgloop_body_state g σ event es Hwf Hd Hkey) as (σ' & Hrun & Hst).
  rewrite Hdec in Hst. destruct Hst as (n & σp & Hp & ->).
  rewrite js_printf_effect in Hp by done. injection Hp as <- <-.
  eexists. split; [apply Hrun|].
  cbv zeta. unfold handed, wire_text. rewrite unknown_line_ok.
  cbn [released posted dropped collab_queue heap channel_open
       set_released set_heap set_channel set_vars].
  replace (last_block σ + 1 + 1) with (last_block σ + 2) by lia.
  rewrite delete_insert_ne, delete_insert_id by (lia || (apply Hh; lia)).
  by destruct (channel_open σ).
Qed.

Lemma unknown_kind_turn_witness :
  wf started_globals (receive frobnicate started).2
  ∧ UnknownKind (snapshot (receive frobnicate started).2
                          (as_var (receive frobnicate started).1))
  ∧ ∃ σ', js_msgloop_body started_globals (receive frobnicate started).1
                          (receive frobnicate started).2 = Ok tt σ'
      ∧ handed (receive frobnicate started).2 σ'
          (Plain (W_String "info: msgloop unknown collabedit type"))
      ∧ released σ'
        = released (receive frobnicate started).2 ++ [(receive frobnicate started).1]
      ∧ collab_queue σ' = collab_queue (receive frobnicate started).2
      ∧ heap σ'
        = <[last_block (receive frobnicate started).2 + 2 :=
              Bytes (bytes_of "info: msgloop unknown collabedit type"
                     ++ [Some NUL])]>
            (heap (receive frobnicate started).2).
Proof.
  assert (wf started_globals (receive frobnicate started).2) as Hwf
    by (apply wf_check_sound; vm_compute; reflexivity).
  assert (UnknownKind (snapshot (receive frobnicate started).2
                                (as_var (receive frobnicate started).1))) as Hm.
  { assert (snapshot (receive frobnicate started).2
                     (as_var (receive frobnicate started).1) = frobnicate) as ->
      by (vm_compute; reflexivity).
    exists (W_String "frobnicate"). split; [reflexivity|]. by intros []. }
  do 2 (split; [assumption|]).
  exact (unknown_kind_turn _ _ _ Hwf Hm).
Defined.

Lemma recognised_entries σ v m t :
  snapshot σ v = Mapping m →
  entries_get "collabedit_type" m = Some (W_String (spec_discriminator t)) →
  ∃ es, var_entries σ v = Some es
        ∧ is_Some (entries_get "collabedit_type" es)
        ∧ is_Some (decode_entries σ es).
Proof.
  intros Hs Ht.
  destruct (decode_recognised σ {| as_var := v |} m t Hs Ht) as (x & Hx & _).
  apply snapshot_Mapping in Hs as (es & Hd & ->). exists es.
  split; [done|]. split.
  - rewrite entries_get_snapshot in Ht.
    by destruct (entries_get "collabedit_type" es).
  - unfold decode_event in Hx. simpl in Hx. rewrite Hd in Hx. simpl in Hx. eauto.
Qed.

(** X8 — A turn that decodes an edit posts nothing to JavaScript and
    creates or changes no var.  In the heap it only adds: every block that
    was live before has the same content after, and at most two blocks are
    new (the struct and a text).  The event is given back with
    [PSEventRelease]. *)
Theorem edit_turn_frame g σ event m t :
  wf g σ → snapshot σ (as_var event) = Mapping m →
  entries_get "collabedit_type" m = Some (W_String (spec_discriminator t)) →
  ∃ σ', js_msgloop_body g event σ = Ok tt σ'
    ∧ posted σ' = posted σ ∧ dropped σ' = dropped σ
    ∧ vars σ' = vars σ
    ∧ released σ' = released σ ++ [event]
    ∧ (∀ x c, heap σ !! x = Some c → heap σ' !! x = Some c)
    ∧ (∀ x, last_block σ + 2 < x → heap σ' !! x = None).
Proof.
  intros Hwf Hs Ht. pose proof Hwf as [Hv Hh].
  destruct (recognised_entries _ _ _ _ Hs Ht) as (es & Hd & Hkey & v & Hdec).
  destruct (js_msgloop_body_state g σ event es Hwf Hd Hkey) as (σ' & Hrun & Hst).
  destruct (js_msgloop_body_run g σ event Hwf) as (σ1 & Hrun1 & [_ Hh1] & _).
  rewrite Hrun in Hrun1. injection Hrun1 as <-.
  rewrite Hdec in Hst. destruct Hst as (h & L & -> & HL & Hframe).
  eexists. split; [apply Hrun|]. do 4 (split; [done|]).
  split.
  - intros x c Hx. simpl. rewrite Hframe; [done|].
    by eapply wf_heap_live.
  - intros x Hx. apply Hh1. simpl. lia.
Qed.

Lemma edit_turn_frame_witness :
  wf started_globals hello_received.2
  ∧ snapshot hello_received.2 (as_var hello_received.1)
    = Mapping [("collabedit_type"%string, W_String "append_line");
               ("line"%string, W_Int32 4); ("text"%string, W_String "hello")]
  ∧ entries_get "collabedit_type"
      [("collabedit_type"%string, W_String "append_line");
       ("line"%string, W_Int32 4); ("text"%string, W_String "hello")]
    = Some (W_String (spec_discriminator COLLAB_APPEND_LINE))
  ∧ ∃ σ', js_msgloop_body started_globals hello_received.1 hello_received.2 = Ok tt σ'
      ∧ posted σ' = posted hello_received.2 ∧ dropped σ' = dropped hello_received.2
      ∧ vars σ' = vars hello_received.2
      ∧ released σ' = released hello_received.2 ++ [hello_received.1]
      ∧ (∀ x c, heap hello_received.2 !! x = Some c → heap σ' !! x = Some c)
      ∧ (∀ x, last_block hello_received.2 + 2 < x → heap σ' !! x = None).
Proof.
  assert (wf started_globals hello_received.2) as Hwf
    by (apply wf_check_sound; vm_compute; reflexivity).
  assert (snapshot hello_received.2 (as_var hello_received.1)
          = Mapping [("collabedit_type"%string, W_String "append_line");
                     ("line"%string, W_Int32 4); ("text"%string, W_String "hello")])
    as Hm by (vm_compute; reflexivity).
  do 2 (split; [assumption|]). split; [reflexivity|].
  exact (edit_turn_frame _ _ _ _ COLLAB_APPEND_LINE Hwf Hm eq_refl).
Defined.

(** ** What the loop leaves alone *)

(** A turn keeps every live block and every var object as it is. *)
Lemma js_msgloop_body_keeps g σ event :
  wf g σ →
  ∃ σ', js_msgloop_body g event σ = Ok tt σ' ∧ wf g σ'
    ∧ (∀ x c, heap σ !! x = Some c → heap σ' !! x = Some c)
    ∧ (∀ id o, vars σ !! id = Some o → vars σ' !! id = Some o).
Proof.
  intros Hwf. pose proof Hwf as [Hv Hh].
  destruct (js_msgloop_body_run g σ event Hwf) as (σ1 & Hrun & Hwf1 & _).
  exists σ1. do 2 (split; [done|]).
  assert (∀ id (o o' : VarObject), vars σ !! id = Some o →
            <[last_var_id σ + 1 := o']> (vars σ) !! id = Some o) as Hfresh.
  { intros id o o' Hid. rewrite lookup_insert_ne; [done|]. intros <-.
    rewrite (wf_var_ids _ _ Hv) in Hid by lia. done. }
  destruct (var_entries σ (as_var event) ≫= entries_get "collabedit_type")
    as [tv|] eqn:Hk.
  - destruct (var_entries σ (as_var event)) as [es|] eqn:Hd; [|done].
    simpl in Hk.
    destruct (js_msgloop_body_state g σ event es Hwf Hd) as (σ' & Hrun' & Hst);
      [by rewrite Hk; eauto|].
    rewrite Hrun in Hrun'. injection Hrun' as <-.
    destruct (decode_entries σ es) as [v|].
    + destruct Hst as (h & L & -> & HL & Hframe). split; [|done].
      intros x c Hx. simpl. rewrite Hframe; [done|by eapply wf_heap_live].
    + destruct Hst as (n & σp & Hp & ->).
      rewrite js_printf_effect in Hp by done. injection Hp as <- <-.
      cbv zeta. rewrite ?unknown_line_ok.
      cbn [heap vars set_released set_heap set_channel set_vars]. split.
      * intros x c Hx. pose proof (wf_heap_live _ _ _ Hh Hx).
        by rewrite lookup_delete_ne, !lookup_insert_ne by lia.
      * intros id o Hid. by apply Hfresh.
  - rewrite js_msgloop_body_skip in Hrun by done.
    erewrite bind_run in Hrun by (by apply js_printf_effect).
    injection Hrun as <-. cbv zeta. rewrite ?skip_line_ok.
    cbn [heap vars set_released set_heap set_channel set_vars]. split.
    + intros x c Hx. pose proof (wf_heap_live _ _ _ Hh Hx).
      by rewrite lookup_insert_ne by lia.
    + intros id o Hid. by apply Hfresh.
Qed.

Lemma js_msgloop_keeps g events σ :
  wf g σ →
  ∃ σ', js_msgloop g events σ = Waiting σ' ∧ wf g σ'
    ∧ (∀ x c, heap σ !! x = Some c → heap σ' !! x = Some c)
    ∧ (∀ id o, vars σ !! id = Some o → vars σ' !! id = Some o).
Proof.
  revert σ. induction events as [|event events IH]; intros σ Hwf; simpl.
  - by exists σ.
  - destruct (js_msgloop_body_keeps g σ event Hwf) as (σ1 & -> & Hwf1 & Hh1 & Hv1).
    destruct (IH σ1 Hwf1) as (σ' & -> & Hwf' & Hh' & Hv').
    exists σ'. split; [done|]. split; [done|]. split; eauto.
Qed.

(** An edit reads the same in a state that has kept the blocks and the
    vars. *)
Lemma cstring_at_mono σ σ' p s :
  (∀ x c, heap σ !! x = Some c → heap σ' !! x = Some c) →
  (∀ id o, vars σ !! id = Some o → vars σ' !! id = Some o) →
  cstring_at σ p = Some s → cstring_at σ' p = Some s.
Proof.
  intros Hh Hv. unfold cstring_at. destruct p as [|t|b|id]; simpl; try done.
  - destruct (heap σ !! b) as [[bs|e]|] eqn:E; try done. by rewrite (Hh _ _ E).
  - destruct (vars σ !! id) as [[t|es|]|] eqn:E; try done. by rewrite (Hv _ _ E).
Qed.

Lemma edit_at_mono σ σ' p v :
  (∀ x c, heap σ !! x = Some c → heap σ' !! x = Some c) →
  (∀ id o, vars σ !! id = Some o → vars σ' !! id = Some o) →
  edit_at σ p = Some v → edit_at σ' p = Some v.
Proof.
  intros Hh Hv Hp. apply edit_at_inv in Hp as (e & f & Hl & Hf & Ht).
  assert (load_edit σ' p = Some e) as Hl'.
  { destruct p as [|?|b|?]; try done. simpl in *.
    destruct (heap σ !! b) as [[|e']|] eqn:E; try done. by rewrite (Hh _ _ E). }
  unfold edit_at. rewrite Hl'. simpl. rewrite Hf. simpl.
  pose proof (cstring_at_mono σ σ') as Hc.
  destruct f as [l t|l i t|l|l i n|l t]; simpl in *; try done;
    destruct (cstring_at σ t) as [s|] eqn:Es; try done;
    by rewrite (Hc _ _ Hh Hv Es).
Qed.

Lemma edit_at_heap_mono σ σ' p v :
  (∀ x c, heap σ !! x = Some c → heap σ' !! x = Some c) →
  text_in_heap σ p → edit_at σ p = Some v → edit_at σ' p = Some v.
Proof.
  intros Hh Hin Hp. apply edit_at_inv in Hp as (e & f & Hl & Hf & Ht).
  pose proof (Hin e f) as Hblock.
  assert (load_edit σ' p = Some e) as Hl'.
  { destruct p as [|?|b|?]; try done. simpl in *.
    destruct (heap σ !! b) as [[|e']|] eqn:E; try done. by rewrite (Hh _ _ E). }
  unfold edit_at. rewrite Hl'. simpl. rewrite Hf. simpl.
  assert (∀ b s, cstring_at σ (Block b) = Some s → cstring_at σ' (Block b) = Some s)
    as Hc.
  { intros b s. unfold cstring_at. simpl.
    destruct (heap σ !! b) as [[bs|e']|] eqn:E; try done. by rewrite (Hh _ _ E). }
  destruct f as [l t|l i t|l|l i n|l t]; simpl in *; try done;
    destruct (Hblock t Hl Hf eq_refl) as [b ->];
    destruct (cstring_at σ (Block b)) as [s|] eqn:Es; try done;
    by rewrite (Hc _ _ Es).
Qed.

(** X9 — Whatever events arrive, the loop leaves the memory that is
    already in use alone: every block that is live keeps its content (the
    loop frees and writes only blocks it allocated in the same turn).  So
    every edit held in the heap, one queued earlier and not yet applied,
    say, reads the same after any number of turns, and so does its
    [file_buf]. *)
Theorem js_msgloop_keeps_edits g events σ :
  wf g σ →
  ∃ σ', js_msgloop g events σ = Waiting σ'
    ∧ (∀ x c, heap σ !! x = Some c → heap σ' !! x = Some c)
    ∧ (∀ p v, text_in_heap σ p → edit_at σ p = Some v → edit_at σ' p = Some v)
    ∧ (∀ p fb, file_buf_at σ p = Some fb → file_buf_at σ' p = Some fb).
Proof.
  intros Hwf.
  destruct (js_msgloop_keeps g events σ Hwf) as (σ' & Hrun & _ & Hh & _).
  exists σ'. do 2 (split; [done|]). split.
  - intros p v. by apply edit_at_heap_mono.
  - intros p fb. unfold file_buf_at. destruct p as [|?|b|?]; try done. simpl.
    destruct (heap σ !! b) as [[|e']|] eqn:E; try done. by rewrite (Hh _ _ E).
Qed.

Lemma js_msgloop_keeps_edits_witness :
  wf started_globals hello_sender
  ∧ ∃ σ', js_msgloop started_globals odd_events hello_sender = Waiting σ'
      ∧ (∀ x c, heap hello_sender !! x = Some c → heap σ' !! x = Some c)
      ∧ (∀ p v, text_in_heap hello_sender p → edit_at hello_sender p = Some v →
                edit_at σ' p = Some v)
      ∧ (∀ p fb, file_buf_at hello_sender p = Some fb → file_buf_at σ' p = Some fb).
Proof.
  assert (wf started_globals hello_sender) as Hwf
    by (apply wf_check_sound; vm_compute; reflexivity).
  split; [assumption|].
  exact (js_msgloop_keeps_edits started_globals odd_events hello_sender Hwf).
Defined.

(** ** A run of edits *)

Lemma snapshot_ext σ σ' v : vars σ' = vars σ → snapshot σ' v = snapshot σ v.
Proof.
  intros Hv. unfold snapshot. rewrite (var_entries_ext σ σ') by done.
  assert (∀ x, snapshot_value σ' x = snapshot_value σ x) as Hval.
  { intros x. unfold snapshot_value. by rewrite (var_string_ext σ σ'). }
  destruct (var_entries σ v) as [es|]; [|by rewrite Hval].
  f_equal. apply list_fmap_ext. intros i [k x] _. simpl. by rewrite Hval.
Qed.

(** A turn that decodes an edit, with all it changes. *)
Lemma edit_turn g σ event v :
  wf g σ → decode_event σ event = Some v →
  ∃ σ', js_msgloop_body g event σ = Ok tt σ' ∧ wf g σ'
    ∧ collab_queue σ' = collab_queue σ ++ [Block (last_block σ + 1)]
    ∧ edit_at σ' (Block (last_block σ + 1)) = Some v
    ∧ vars σ' = vars σ ∧ posted σ' = posted σ
    ∧ released σ' = released σ ++ [event]
    ∧ last_block σ < last_block σ'.
Proof.
  intros Hwf Hdec.
  destruct (js_msgloop_body_queues g σ event v Hwf Hdec)
    as (σ' & b & f & Hrun & Hwf' & Hq & _ & _ & Hedit & _).
  unfold decode_event in Hdec.
  destruct (var_entries σ (as_var event)) as [es|] eqn:Hd; [|done]. simpl in Hdec.
  assert (is_Some (entries_get "collabedit_type" es)) as Hkey.
  { destruct (entries_get "collabedit_type" es) eqn:E; [eauto|].
    by rewrite decode_entries_no_key in Hdec. }
  destruct (js_msgloop_body_state g σ event es Hwf Hd Hkey) as (σ1 & Hrun1 & Hst).
  rewrite Hrun in Hrun1. injection Hrun1 as <-.
  rewrite Hdec in Hst. destruct Hst as (h & L & Hσ' & HL & _).
  assert (b = last_block σ + 1) as ->.
  { rewrite Hσ' in Hq. simpl in Hq. apply app_inj_tail in Hq as [_ [= ?]]. done. }
  exists σ'. do 4 (split; [done|]). rewrite Hσ'. simpl.
  do 3 (split; [done|]). lia.
Qed.

(** A run of edit messages, with where the structs are. *)
Lemma js_msgloop_edits g σ events vs :
  wf g σ →
  Forall2 (λ event v, snapshot σ (as_var event) = spec_message v
                      ∧ ∀ s, edit_text v = Some s → until_NUL s = s) events vs →
  ∃ σ' ps, js_msgloop g events σ = Waiting σ'
    ∧ collab_queue σ' = collab_queue σ ++ ps
    ∧ Forall2 (λ p v, edit_at σ' p = Some v) ps vs
    ∧ released σ' = released σ ++ events
    ∧ posted σ' = posted σ
    ∧ Forall (λ p, ∃ b, p = Block b ∧ last_block σ < b) ps
    ∧ NoDup ps.
Proof.
  intros Hwf Hall. revert σ vs Hwf Hall.
  induction events as [|event events IH]; intros σ vs Hwf Hall.
  - apply Forall2_nil_inv_l in Hall as ->. exists σ, []. simpl.
    rewrite !app_nil_r. repeat split; constructor.
  - apply Forall2_cons_inv_l in Hall as (v & vs' & [Hm Hnul] & Hall & ->).
    pose proof (decode_spec_message σ event v Hm Hnul) as Hdec.
    destruct (edit_turn g σ event v Hwf Hdec)
      as (σ1 & Hrun & Hwf1 & Hq & Hedit & Hv & Hp & Hr & Hlast).
    assert (Forall2 (λ event v, snapshot σ1 (as_var event) = spec_message v
                                ∧ ∀ s, edit_text v = Some s → until_NUL s = s)
                    events vs') as Hall1.
    { eapply Forall2_impl; [apply Hall|]. intros ev x [? ?].
      by rewrite (snapshot_ext σ σ1). }
    destruct (IH σ1 vs' Hwf1 Hall1)
      as (σ' & ps & Hloop & Hq' & Hps & Hr' & Hp' & Hnew & Hnd).
    destruct (js_msgloop_keeps g events σ1 Hwf1) as (σ2 & Hloop2 & _ & Hh2 & Hv2).
    rewrite Hloop in Hloop2. injection Hloop2 as <-.
    exists σ', (Block (last_block σ + 1) :: ps). simpl. rewrite Hrun.
    split; [done|]. split; [by rewrite Hq', Hq, <- app_assoc|].
    split; [constructor; [by apply (edit_at_mono σ1)|done]|].
    split; [by rewrite Hr', Hr, <- app_assoc|].
    split; [by rewrite Hp', Hp|].
    split.
    + constructor; [exists (last_block σ + 1); split; [done|lia]|].
      eapply Forall_impl; [apply Hnew|]. intros p (b & -> & Hb). exists b.
      split; [done|lia].
    + constructor; [|done]. intros Hin.
      rewrite Forall_forall in Hnew. destruct (Hnew _ Hin) as (b & [= <-] & Hb).
      lia.
Qed.

(** X10 — A run of events that carry well-formed edit messages is queued
    in the order of arrival: after the loop has taken all of them, the
    queue has grown by one pointer per event, in order, and each pointer
    leads to the edit of its message, the earlier ones intact.  The
    pointers are all different and lead to blocks that were free before:
    every message gets a struct of its own, also when two messages are
    equal.  Every event has been given back and nothing was posted to
    JavaScript. *)
Theorem edits_queued_in_order g σ events vs :
  wf g σ →
  Forall2 (λ event v, snapshot σ (as_var event) = spec_message v
                      ∧ ∀ s, edit_text v = Some s → until_NUL s = s) events vs →
  ∃ σ' ps, js_msgloop g events σ = Waiting σ'
    ∧ collab_queue σ' = collab_queue σ ++ ps
    ∧ Forall2 (λ p v, edit_at σ' p = Some v) ps vs
    ∧ NoDup ps
    ∧ Forall (λ p, ∃ b, p = Block b ∧ heap σ !! b = None) ps
    ∧ released σ' = released σ ++ events
    ∧ posted σ' = posted σ.
Proof.
  intros Hwf Hall.
  destruct (js_msgloop_edits g σ events vs Hwf Hall)
    as (σ' & ps & Hloop & Hq & Hps & Hr & Hp & Hnew & Hnd).
  exists σ', ps. do 4 (split; [done|]). split; [|done].
  eapply Forall_impl; [apply Hnew|]. intros p (b & -> & Hb). exists b.
  split; [done|]. by apply Hwf.
Qed.

Lemma edits_queued_in_order_witness :
  wf started_globals hello_twice.2
  ∧ Forall2 (λ event v, snapshot hello_twice.2 (as_var event) = spec_message v
                        ∧ ∀ s, edit_text v = Some s → until_NUL s = s)
            hello_twice.1 [hello; hello]
  ∧ ∃ σ' ps, js_msgloop started_globals hello_twice.1 hello_twice.2 = Waiting σ'
      ∧ collab_queue σ' = collab_queue hello_twice.2 ++ ps
      ∧ Forall2 (λ p v, edit_at σ' p = Some v) ps [hello; hello]
      ∧ NoDup ps
      ∧ Forall (λ p, ∃ b, p = Block b ∧ heap hello_twice.2 !! b = None) ps
      ∧ released σ' = released hello_twice.2 ++ hello_twice.1
      ∧ posted σ' = posted hello_twice.2.
Proof.
  assert (wf started_globals hello_twice.2) as Hwf
    by (apply wf_check_sound; vm_compute; reflexivity).
  assert (Forall2 (λ event v, snapshot hello_twice.2 (as_var event) = spec_message v
                              ∧ ∀ s, edit_text v = Some s → until_NUL s = s)
                  hello_twice.1 [hello; hello]) as Hall.
  { repeat constructor; try (vm_compute; reflexivity);
      intros s [= <-]; reflexivity. }
  do 2 (split; [assumption|]).
  exact (edits_queued_in_order _ _ _ _ Hwf Hall).
Defined.

(** ** [collab_remoteapply] on any edit *)

(** X11 — For every edit that can be read through the pointer,
    constructible or not, [collab_remoteapply] hands [PostMessage] exactly
    one message: the mapping of section 4.2 with each integer cut to its
    low 32 bits (as a signed number) and the text as a string, or as null
    when the text is not UTF-8 the host accepts.  The queue and the
    released events are untouched. *)
Theorem collab_remoteapply_message g σ edit v :
  wf_vars g σ → edit_at σ edit = Some v →
  ∃ σ', collab_remoteapply g edit σ = Ok tt σ'
    ∧ handed σ σ' (Mapping (spec_wire (on_wire v)))
    ∧ collab_queue σ' = collab_queue σ ∧ released σ' = released σ.
Proof.
  intros Hwf (e & f & He & Hf & Hv)%edit_at_inv.
  destruct (collab_remoteapply_run g σ edit e f v Hwf He Hf Hv)
    as (σ' & Hrun & _ & _ & _ & Hq & Hr & _ & Hm).
  by exists σ'.
Qed.

Lemma collab_remoteapply_message_witness :
  wf_vars started_globals hello_sender
  ∧ edit_at hello_sender (Block 2) = Some hello
  ∧ ∃ σ', collab_remoteapply started_globals (Block 2) hello_sender = Ok tt σ'
      ∧ handed hello_sender σ' (Mapping (spec_wire (on_wire hello)))
      ∧ collab_queue σ' = collab_queue hello_sender
      ∧ released σ' = released hello_sender.
Proof.
  assert (wf started_globals hello_sender) as [Hv _]
    by (apply wf_check_sound; vm_compute; reflexivity).
  assert (edit_at hello_sender (Block 2) = Some hello) as He
    by (vm_compute; reflexivity).
  do 2 (split; [assumption|]).
  exact (collab_remoteapply_message _ _ _ _ Hv He).
Defined.

(** X12 — The [switch] of lines 196-223 has no [default].  For a live
    struct whose type tag is none of the five constants no case is taken
    and no key is set: [collab_remoteapply] posts the empty mapping and
    returns, with the heap and the queue as they were. *)
Theorem collab_remoteapply_no_default g σ edit e :
  load_edit σ edit = Some e → fields e = None →
  ∃ σ', collab_remoteapply g edit σ = Ok tt σ'
    ∧ handed σ σ' (Mapping [])
    ∧ heap σ' = heap σ ∧ collab_queue σ' = collab_queue σ
    ∧ released σ' = released σ.
Proof.
  intros He Hf. unfold collab_remoteapply, ppb_dict_Create.
  erewrite bind_run by reflexivity.
  erewrite bind_run; cycle 1.
  { unfold load_fields.
    match goal with |- context [load_edit ?σ1 edit] =>
      replace (load_edit σ1 edit) with (load_edit σ edit) by done end.
    rewrite He, Hf. reflexivity. }
  cbv beta iota.
  erewrite bind_run by reflexivity. erewrite bind_run by reflexivity.
  eexists. split; [reflexivity|].
  unfold handed, snapshot, var_entries. simpl. rewrite lookup_insert_eq.
  by destruct (channel_open σ).
Qed.

Lemma collab_remoteapply_no_default_witness :
  load_edit untagged (Block 2)
  = Some {| file_buf := Some (curbuf started_globals); fields := None |}
  ∧ ∃ σ', collab_remoteapply started_globals (Block 2) untagged = Ok tt σ'
      ∧ handed untagged σ' (Mapping [])
      ∧ heap σ' = heap untagged ∧ collab_queue σ' = collab_queue untagged
      ∧ released σ' = released untagged.
Proof.
  assert (load_edit untagged (Block 2)
          = Some {| file_buf := Some (curbuf started_globals); fields := None |})
    as He by (vm_compute; reflexivity).
  split; [assumption|].
  exact (collab_remoteapply_no_default started_globals untagged (Block 2) _ He eq_refl).
Defined.

(** ** The round trip of any edit *)

Lemma text_of_null σ x : snapshot_value σ x = W_Null → text_of σ x = EmptyString.
Proof.
  unfold snapshot_value, text_of, var_string.
  destruct (type x); simpl; try done.
  by destruct (vars σ !! as_id x) as [[]|].
Qed.

(** What a turn of the loop reads from the message [collab_remoteapply]
    posts for [v]. *)
Lemma decode_on_wire σ event v :
  snapshot σ (as_var event) = Mapping (spec_wire (on_wire v)) →
  (∀ s, edit_text v = Some s → until_NUL s = s) →
  decode_event σ event = Some (through_wire v).
Proof.
  intros Hm Hnul. apply snapshot_Mapping in Hm as (es & Hd & Hm).
  unfold decode_event. rewrite Hd. simpl. unfold decode_entries.
  pose proof (λ k s, field_string σ es k s) as HS.
  pose proof (λ k n, field_int σ es k n) as HI.
  pose proof (λ k w, field_present σ es k w) as HP.
  rewrite <- Hm in HS, HI, HP. clear Hm.
  assert (∀ t, until_NUL t = t →
            snapshot_value σ (field es "text") = wire_text t →
            text_of σ (field es "text") = through_text t) as Htext.
  { intros t Ht. unfold wire_text, through_text.
    destruct ((Z.of_nat (String.length t) <? 2 ^ 32 - 1) && is_utf8 t).
    - intros E%snapshot_value_W_String. by rewrite (text_of_string _ _ _ E).
    - apply text_of_null. }
  destruct v as [l t|l i t|l|l i n|l t]; unfold through_wire, on_wire in *;
    try (remember (wire_text t) as w eqn:Hw in * );
    simpl in HS, HI, HP;
    rewrite (HS "collabedit_type"%string _ eq_refl); simpl String.eqb; cbv iota;
    rewrite ?(HI "line"%string _ eq_refl), ?(HI "index"%string _ eq_refl),
            ?(HI "length"%string _ eq_refl);
    try done;
    (rewrite (Htext t (Hnul t eq_refl)); [done|]);
    rewrite <- Hw; apply (HP "text"%string _ eq_refl).
Qed.

(** X13 — The round trip of every edit that can be read, constructible or
    not: [collab_remoteapply] posts one message, and a turn of
    [js_msgloop] on any event that carries it queues an edit of the same
    variant whose integers are the sender's cut to 32 bits (negative ones
    included) and whose text is the sender's if it is UTF-8 the host
    accepts, the empty string otherwise. *)
Theorem edit_through_the_wire g σ edit v :
  wf g σ → edit_at σ edit = Some v →
  ∃ σ' m, collab_remoteapply g edit σ = Ok tt σ' ∧ handed σ σ' m
    ∧ ∀ g' ρ event, wf g' ρ → snapshot ρ (as_var event) = m →
        ∃ ρ' edit', js_msgloop_body g' event ρ = Ok tt ρ'
          ∧ collab_queue ρ' = collab_queue ρ ++ [edit']
          ∧ edit_at ρ' edit' = Some (through_wire v).
Proof.
  intros [Hv _] Hedit.
  pose proof (λ s, edit_at_no_NUL σ edit v s Hedit) as Hnul.
  apply edit_at_inv in Hedit as (e & f & He & Hf & Hwt).
  destruct (collab_remoteapply_run g σ edit e f v Hv He Hf Hwt)
    as (σ' & Hrun & _ & _ & _ & _ & _ & _ & Hm).
  exists σ', (Mapping (spec_wire (on_wire v))). do 2 (split; [done|]).
  intros g' ρ event Hwf Hs.
  pose proof (decode_on_wire ρ event v Hs Hnul) as Hdec.
  destruct (js_msgloop_body_queues g' ρ event _ Hwf Hdec)
    as (ρ' & b & f' & Hbody & _ & Hq & _ & _ & Hat & _).
  by exists ρ', (Block b).
Qed.

Lemma edit_through_the_wire_witness :
  wf started_globals hello_sender
  ∧ edit_at hello_sender (Block 2) = Some hello
  ∧ ∃ σ' m, collab_remoteapply started_globals (Block 2) hello_sender = Ok tt σ'
      ∧ handed hello_sender σ' m
      ∧ ∀ g' ρ event, wf g' ρ → snapshot ρ (as_var event) = m →
          ∃ ρ' edit', js_msgloop_body g' event ρ = Ok tt ρ'
            ∧ collab_queue ρ' = collab_queue ρ ++ [edit']
            ∧ edit_at ρ' edit' = Some (through_wire hello).
Proof.
  assert (wf started_globals hello_sender) as Hwf
    by (apply wf_check_sound; vm_compute; reflexivity).
  assert (edit_at hello_sender (Block 2) = Some hello) as He
    by (vm_compute; reflexivity).
  do 2 (split; [assumption|]).
  exact (edit_through_the_wire _ _ _ _ Hwf He).
Defined.

(** ** Successive calls of [collab_remoteapply] *)

Lemma keeps_channel_bind {A B} (m : M A) (f : A → M B) :
  keeps_channel m → (∀ a, keeps_channel (f a)) → keeps_channel (m ≫= f).
Proof.
  intros Hm Hf σ b σ'. unfold mbind, M_bind.
  destruct (m σ) as [a σ1|] eqn:E; [|done]. intros H.
  rewrite (Hf _ _ _ _ H). by eapply Hm.
Qed.

Lemma keeps_channel_ret {A} (a : A) : keeps_channel (mret a).
Proof. by intros σ b σ' [= _ <-]. Qed.

Lemma keeps_channel_Set dict key v : keeps_channel (ppb_dict_Set dict key v).
Proof.
  intros σ b σ'. unfold ppb_dict_Set.
  destruct (var_entries σ dict), (var_string σ key); by intros [= _ <-].
Qed.

Lemma keeps_channel_UTF8_TO_VAR p : keeps_channel (UTF8_TO_VAR p).
Proof.
  apply keeps_channel_bind.
  - intros σ b σ'. unfold strlen. destruct (cstring_at σ p); by intros [= _ <-].
  - intros len σ b σ'. unfold ppb_var_VarFromUtf8.
    destruct (_ ≫= _); [|done]. destruct (_ && _); by intros [= _ <-].
Qed.

Lemma keeps_channel_collab_remoteapply g edit :
  keeps_channel (collab_remoteapply g edit).
Proof.
  unfold collab_remoteapply.
  apply keeps_channel_bind; [by intros σ b σ' [= _ <-]|intros dict].
  apply keeps_channel_bind.
  { intros σ b σ'. unfold load_fields.
    destruct (load_edit σ edit); by intros [= _ <-]. }
  intros f. apply keeps_channel_bind.
  - destruct f as [[]|];
      repeat (apply keeps_channel_bind;
              [first [apply keeps_channel_Set|apply keeps_channel_UTF8_TO_VAR]
              |intros ?]);
      apply keeps_channel_ret.
  - intros _. apply keeps_channel_bind; [|intros _; apply keeps_channel_ret].
    intros σ b σ'. unfold ppb_msg_PostMessage, modify. intros [= H]. subst σ'.
    by destruct (channel_open σ) eqn:E.
Qed.

Lemma edit_at_kept σ σ' p v :
  heap σ' = heap σ →
  (∀ q bs, buffer σ q = Some bs → buffer σ' q = Some bs) →
  edit_at σ p = Some v → edit_at σ' p = Some v.
Proof.
  intros Hh Hb (e & f & Hl & Hf & Ht)%edit_at_inv.
  assert (load_edit σ' p = Some e) as Hl'.
  { destruct p as [|?|b|?]; try done. simpl in *. by rewrite Hh. }
  unfold edit_at. rewrite Hl'. simpl. rewrite Hf. simpl.
  assert (∀ t s, cstring_at σ t = Some s → cstring_at σ' t = Some s) as Hc.
  { intros t s. unfold cstring_at. destruct (buffer σ t) as [bs|] eqn:E; [|done].
    by rewrite (Hb _ _ E). }
  destruct f as [l t|l i t|l|l i n|l t]; simpl in *; try done;
    destruct (cstring_at σ t) as [s|] eqn:Es; try done;
    by rewrite (Hc _ _ Es).
Qed.

(** X14 — Edits published one after the other go out in that order: with
    the channel open, successive calls of [collab_remoteapply] on edits
    that can be read append one message per call to what JavaScript has
    received, in the order of the calls, each the message of its edit;
    nothing is dropped and the heap is as before. *)
Theorem edits_posted_in_order g σ edits vs :
  wf_vars g σ → channel_open σ = true →
  Forall2 (λ p v, edit_at σ p = Some v) edits vs →
  ∃ σ', collab_remoteapply_each g edits σ = Ok tt σ'
    ∧ posted σ' = posted σ ++ ((λ v, Mapping (spec_wire (on_wire v))) <$> vs)
    ∧ dropped σ' = dropped σ
    ∧ heap σ' = heap σ.
Proof.
  intros Hwf Hopen Hall. revert σ vs Hwf Hopen Hall.
  induction edits as [|edit edits IH]; intros σ vs Hwf Hopen Hall.
  - apply Forall2_nil_inv_l in Hall as ->. exists σ. simpl.
    by rewrite app_nil_r.
  - apply Forall2_cons_inv_l in Hall as (v & vs' & Hv & Hall & ->).
    pose proof Hv as (e & f & He & Hf & Hwt)%edit_at_inv.
    destruct (collab_remoteapply_run g σ edit e f v Hwf He Hf Hwt)
      as (σ1 & Hrun & Hwf1 & Hh1 & _ & _ & _ & Hb1 & Hm).
    pose proof (keeps_channel_collab_remoteapply g edit _ _ _ Hrun) as Hopen1.
    unfold handed in Hm. rewrite Hopen in Hm, Hopen1. destruct Hm as [Hp Hd].
    assert (Forall2 (λ p v, edit_at σ1 p = Some v) edits vs') as Hall1.
    { eapply Forall2_impl; [apply Hall|]. intros p x. by apply edit_at_kept. }
    destruct (IH σ1 vs' Hwf1 Hopen1 Hall1) as (σ' & Hrun' & Hp' & Hd' & Hh').
    exists σ'. simpl. erewrite bind_run by apply Hrun.
    split; [done|]. rewrite Hp', Hp, Hd', Hd, Hh', Hh1, <- app_assoc. done.
Qed.

Lemma edits_posted_in_order_witness :
  wf_vars started_globals hello_sender
  ∧ channel_open hello_sender = true
  ∧ Forall2 (λ p v, edit_at hello_sender p = Some v) [Block 2; Block 2] [hello; hello]
  ∧ ∃ σ', collab_remoteapply_each started_globals [Block 2; Block 2] hello_sender
          = Ok tt σ'
      ∧ posted σ' = posted hello_sender
                    ++ ((λ v, Mapping (spec_wire (on_wire v))) <$> [hello; hello])
      ∧ dropped σ' = dropped hello_sender
      ∧ heap σ' = heap hello_sender.
Proof.
  assert (wf started_globals hello_sender) as [Hv _]
    by (apply wf_check_sound; vm_compute; reflexivity).
  assert (edit_at hello_sender (Block 2) = Some hello) as He
    by (vm_compute; reflexivity).
  assert (Forall2 (λ p v, edit_at hello_sender p = Some v)
                  [Block 2; Block 2] [hello; hello]) as Hall
    by (repeat constructor; assumption).
  split; [assumption|]. split; [reflexivity|]. split; [assumption|].
  exact (edits_posted_in_order _ _ _ _ Hv eq_refl Hall).
Defined.

(** ** The vars of [nacl_main] *)

Lemma UTF8_TO_VAR_literal s σ :
  until_NUL s = s →
  (Z.of_nat (String.length s) <? 2 ^ 32 - 1) && is_utf8 s = true →
  UTF8_TO_VAR (Static s) σ
  = Ok (string_var (last_var_id σ + 1))
       (set_vars <[last_var_id σ + 1 := StringVar s]> (last_var_id σ + 1) σ).
Proof.
  intros Hnul Hok. rewrite (UTF8_TO_VAR_run σ (Static s) s), Hok; [done|].
  unfold cstring_at. simpl. by rewrite cstring_buf_bytes_of, Hnul.
Qed.

Lemma vars_added_trans σ1 σ2 σ3 :
  vars_added σ1 σ2 → vars_added σ2 σ3 → vars_added σ1 σ3.
Proof.
  intros (V1 & H1 & B1 & Q1 & P1 & D1) (V2 & H2 & B2 & Q2 & P2 & D2).
  split; [by eauto|]. repeat split; congruence.
Qed.

Lemma var_string_added σ σ' x s :
  vars_added σ σ' → var_string σ x = Some s → var_string σ' x = Some s.
Proof.
  intros [V _]. unfold var_string. destruct (is_string (type x)); [|done].
  destruct (vars σ !! as_id x) as [[t| |]|] eqn:E; try done.
  by rewrite (V _ _ E).
Qed.

(** One of the ten calls: a literal becomes a new string var. *)
Lemma UTF8_TO_VAR_static σ s :
  wf_table σ → until_NUL s = s →
  (Z.of_nat (String.length s) <? 2 ^ 32 - 1) && is_utf8 s = true →
  ∃ σ', UTF8_TO_VAR (Static s) σ = Ok (string_var (last_var_id σ + 1)) σ'
        ∧ wf_table σ'
        ∧ var_string σ' (string_var (last_var_id σ + 1)) = Some s
        ∧ vars_added σ σ'.
Proof.
  intros [Hids Hstr] Hnul Hok. eexists. split; [by apply UTF8_TO_VAR_literal|].
  split; [split|split].
  - intros id Hid. simpl in *. rewrite lookup_insert_ne by lia. apply Hids. lia.
  - intros id t. simpl. rewrite lookup_insert. case_decide; [|by apply Hstr].
    intros [= <-]. apply andb_true_iff in Hok as [Hlen _]. by apply Z.ltb_lt.
  - unfold var_string. simpl. by rewrite lookup_insert_eq.
  - split; [|done]. intros id o Hid. simpl. rewrite lookup_insert_ne; [done|].
    intros <-. rewrite Hids in Hid by lia. done.
Qed.

(** X15 — From any state whose var table is in order (no var above the
    last id given out, strings of a length the host can hold),
    [nacl_main]'s ten calls of [UTF8_TO_VAR] succeed and establish the
    invariant the message loop and [collab_remoteapply] rely on: the ten
    statics are live string vars holding the five type names and the five
    keys.  The vars that were there are kept, the heap, the queue and the
    channel are untouched, and the message loop started on these statics
    takes every sequence of events without a fault. *)
Theorem nacl_main_vars_establish ins buf σ :
  wf_table σ → wf_heap σ →
  ∃ g σ', nacl_main_vars ins buf σ = Ok g σ' ∧ wf g σ'
    ∧ pp_ins g = ins ∧ curbuf g = buf
    ∧ (∀ id o, vars σ !! id = Some o → vars σ' !! id = Some o)
    ∧ heap σ' = heap σ ∧ collab_queue σ' = collab_queue σ
    ∧ posted σ' = posted σ ∧ dropped σ' = dropped σ
    ∧ ∀ events, ∃ σ'', js_msgloop g events σ' = Waiting σ''.
Proof.
  intros T0 Hh.
  destruct (UTF8_TO_VAR_static σ "append_line" T0 eq_refl)
    as (σ1 & R1 & T1 & S1 & G1); [by vm_compute|].
  destruct (UTF8_TO_VAR_static σ1 "insert_text" T1 eq_refl)
    as (σ2 & R2 & T2 & S2 & G2); [by vm_compute|].
  destruct (UTF8_TO_VAR_static σ2 "remove_line" T2 eq_refl)
    as (σ3 & R3 & T3 & S3 & G3); [by vm_compute|].
  destruct (UTF8_TO_VAR_static σ3 "delete_text" T3 eq_refl)
    as (σ4 & R4 & T4 & S4 & G4); [by vm_compute|].
  destruct (UTF8_TO_VAR_static σ4 "replace_line" T4 eq_refl)
    as (σ5 & R5 & T5 & S5 & G5); [by vm_compute|].
  destruct (UTF8_TO_VAR_static σ5 "collabedit_type" T5 eq_refl)
    as (σ6 & R6 & T6 & S6 & G6); [by vm_compute|].
  destruct (UTF8_TO_VAR_static σ6 "line" T6 eq_refl)
    as (σ7 & R7 & T7 & S7 & G7); [by vm_compute|].
  destruct (UTF8_TO_VAR_static σ7 "text" T7 eq_refl)
    as (σ8 & R8 & T8 & S8 & G8); [by vm_compute|].
  destruct (UTF8_TO_VAR_static σ8 "index" T8 eq_refl)
    as (σ9 & R9 & T9 & S9 & G9); [by vm_compute|].
  destruct (UTF8_TO_VAR_static σ9 "length" T9 eq_refl)
    as (σ10 & R10 & T10 & S10 & G10); [by vm_compute|].
  unfold nacl_main_vars.
  erewrite bind_run by apply R1. erewrite bind_run by apply R2.
  erewrite bind_run by apply R3. erewrite bind_run by apply R4.
  erewrite bind_run by apply R5. erewrite bind_run by apply R6.
  erewrite bind_run by apply R7. erewrite bind_run by apply R8.
  erewrite bind_run by apply R9. erewrite bind_run by apply R10.
  eexists _, _. split; [reflexivity|].
  assert (vars_added σ σ10) as (V & H & B & Q & P & D)
    by (repeat first [assumption|eapply vars_added_trans; [eassumption|]]).
  match goal with |- wf ?g _ ∧ _ => assert (wf g σ10) as Hwf end.
  { destruct T10 as [Hids Hstr].
    split; [split; try done; cbn [type_append_line type_insert_text
              type_remove_line type_delete_text type_replace_line type_key
              line_key text_key index_key length_key];
            repeat first [eassumption
                         |eapply var_string_added; [eassumption|]]|].
    intros b Hb. rewrite H. apply Hh. lia. }
  split; [exact Hwf|]. do 7 (split; [done|]). intros events.
  destruct (js_msgloop_keeps _ events _ Hwf) as (σ'' & Hloop & _). eauto.
Qed.

Lemma nacl_main_vars_establish_witness :
  wf_table initial_state ∧ wf_heap initial_state
  ∧ ∃ g σ', nacl_main_vars 7 1 initial_state = Ok g σ' ∧ wf g σ'
      ∧ pp_ins g = 7 ∧ curbuf g = 1
      ∧ (∀ id o, vars initial_state !! id = Some o → vars σ' !! id = Some o)
      ∧ heap σ' = heap initial_state
      ∧ collab_queue σ' = collab_queue initial_state
      ∧ posted σ' = posted initial_state ∧ dropped σ' = dropped initial_state
      ∧ ∀ events, ∃ σ'', js_msgloop g events σ' = Waiting σ''.
Proof.
  assert (wf_table initial_state) as H1.
  { split; [intros id _; apply lookup_empty|].
    intros id s H. simpl in H. by rewrite lookup_empty in H. }
  assert (wf_heap initial_state) as H2 by (intros b _; apply lookup_empty).
  do 2 (split; [assumption|]).
  exact (nacl_main_vars_establish 7 1 initial_state H1 H2).
Defined.

(** ** Integer fields of another type *)

Lemma snapshot_value_W_Double σ x bits :
  snapshot_value σ x = W_Double bits → as_int x = sint32 bits.
Proof.
  unfold snapshot_value, as_int. destruct (type x); try done.
  - by intros [= <-].
  - by destruct (var_string σ x).
Qed.

(** X16 — The loop reads "line", "index" and "length" through
    [.value.as_int] without looking at the type of the var.  A number that
    arrives as a double var (any JavaScript number that is not a 32-bit
    integer) is therefore not refused and not converted: the edit is
    queued with the low 32 bits of the double's bit pattern in that
    field. *)
Theorem decode_reads_doubles_raw g ρ event m t :
  wf g ρ → snapshot ρ (as_var event) = Mapping m →
  entries_get "collabedit_type" m = Some (W_String (spec_discriminator t)) →
  ∃ ρ' edit' v, js_msgloop_body g event ρ = Ok tt ρ'
    ∧ collab_queue ρ' = collab_queue ρ ++ [edit']
    ∧ edit_at ρ' edit' = Some v
    ∧ (∀ bits, entries_get "line" m = Some (W_Double bits) →
               edit_line v = sint32 bits)
    ∧ (∀ bits i, entries_get "index" m = Some (W_Double bits) →
                 edit_index v = Some i → i = sint32 bits)
    ∧ (∀ bits n, entries_get "length" m = Some (W_Double bits) →
                 edit_length v = Some n → n = sint32 bits).
Proof.
  intros Hwf Hs Ht.
  destruct (decode_recognised ρ event m t Hs Ht) as (v & Hdec & _).
  destruct (js_msgloop_body_queues g ρ event v Hwf Hdec)
    as (ρ' & b & f & Hrun & _ & Hq & _ & _ & Hat & _).
  exists ρ', (Block b), v. do 3 (split; [done|]).
  apply snapshot_Mapping in Hs as (es & Hd & ->).
  unfold decode_event in Hdec. rewrite Hd in Hdec. simpl in Hdec.
  destruct (decode_entries_fields _ _ _ Hdec) as (Hl & Hi & Hn & _).
  split; [|split].
  - intros bits Hb. rewrite Hl. by eapply snapshot_value_W_Double, field_present.
  - intros bits i Hb Hv. rewrite (Hi _ Hv).
    by eapply snapshot_value_W_Double, field_present.
  - intros bits n Hb Hv. rewrite (Hn _ Hv).
    by eapply snapshot_value_W_Double, field_present.
Qed.

Lemma decode_reads_doubles_raw_witness :
  wf started_globals (receive double_line started).2
  ∧ snapshot (receive double_line started).2 (as_var (receive double_line started).1)
    = double_line
  ∧ entries_get "collabedit_type"
      [("collabedit_type"%string, W_String "remove_line");
       ("line"%string, W_Double 4611686018427387904)]
    = Some (W_String (spec_discriminator COLLAB_REMOVE_LINE))
  ∧ ∃ ρ' edit' v,
      js_msgloop_body started_globals (receive double_line started).1
                      (receive double_line started).2 = Ok tt ρ'
      ∧ collab_queue ρ' = collab_queue (receive double_line started).2 ++ [edit']
      ∧ edit_at ρ' edit' = Some v
      ∧ edit_line v = sint32 4611686018427387904.
Proof.
  assert (wf started_globals (receive double_line started).2) as Hwf
    by (apply wf_check_sound; vm_compute; reflexivity).
  assert (snapshot (receive double_line started).2
                   (as_var (receive double_line started).1) = double_line) as Hm
    by (vm_compute; reflexivity).
  do 2 (split; [assumption|]). split; [reflexivity|].
  destruct (decode_reads_doubles_raw _ _ _ _ COLLAB_REMOVE_LINE Hwf Hm eq_refl)
    as (ρ' & edit' & v & ? & ? & ? & Hl & _).
  exists ρ', edit', v. do 3 (split; [assumption|]). by apply Hl.
Defined.
